(** * The upload queue of [public/app.js]: normaliser, queue store,
      upload and processing orchestrators, polling loop.

    The development embeds the script's functions as Rocq functions over an
    explicit application state and proves the properties of the queue engine.

    Conventions of the embedding.
    - A JavaScript value is a [JsVal]; a parsed JSON object is a finite map
      from property names to values, none of which is a function.
    - A text is a string of ASCII characters.
    - A JavaScript number is an IEEE double.  A finite double is represented
      by the rational it denotes, [NaN] and the two infinities are separate
      constructors, and the negative zero is not distinguished from zero
      (the script never tells them apart).  The product [value * 100] is
      rounded to the nearest double, ties to even, as the processor does;
      comparisons and [Math.round] are exact on doubles.
    - Taking the text of a value can throw: an object that has a property
      [toString] of its own has no text.  A function of the script that can
      throw returns the state it leaves together with the error, and its
      callers run their [catch].
    - The items of [state.items] are objects that the script only ever
      appends to the array and mutates in place.  An item is therefore
      referred to by its position in the array, which is its identity: a
      closure holding an item (a snapshot, a pending upload) holds that
      position.
    - An [async] function is cut at its [await]: the part that runs before the
      request is one function, the part that runs once the response (or the
      failure) has arrived is another one, and any other task may have run in
      between.
    - The page is not embedded: [renderQueue], [showToast], [setAlert] and
      [announce] only write to the document. *)

From Stdlib Require Import ZArith QArith Qround Qabs Qpower Lqa.
From Stdlib Require Import Ascii String List Bool Lia.
From Stdlib Require Import DecimalString.
From stdpp Require Import base option list gmap strings.

Local Open Scope string_scope.

(** ** Numbers *)

Inductive number :=
  | NaN
  | PosInf
  | NegInf
  | Fin (q : Q).

Definition num_of_Z (z : Z) : number := Fin (inject_Z z).

(** [Number.isNaN(value)] *)
Definition Number_isNaN (n : number) : bool :=
  match n with NaN => true | _ => false end.

(** [a <= b] on numbers: any comparison with [NaN] is false. *)
Definition num_le (a b : number) : bool :=
  match a, b with
  | NaN, _ | _, NaN => false
  | NegInf, _ => true
  | _, PosInf => true
  | PosInf, _ => false
  | _, NegInf => false
  | Fin x, Fin y => Qle_bool x y
  end.

(** [a < b] on numbers. *)
Definition num_lt (a b : number) : bool :=
  match a, b with
  | NaN, _ | _, NaN => false
  | _, NegInf => false
  | PosInf, _ => false
  | NegInf, _ => true
  | _, PosInf => true
  | Fin x, Fin y => negb (Qle_bool y x)
  end.

(** [a === b] on numbers. *)
Definition num_eqb (a b : number) : bool :=
  match a, b with
  | PosInf, PosInf | NegInf, NegInf => true
  | Fin x, Fin y => Qeq_bool x y
  | _, _ => false
  end.

(** *** The rounding of a product

    The product of two doubles is the double nearest to the exact product,
    the one with the even significand when two are as near; a product of
    2^1024 or more in absolute value, after rounding, is an infinity. *)

(** The integer part of the logarithm in base 2 of a positive rational. *)
Definition Qlog2 (a : Q) : Z :=
  let k := (Z.log2 (Qnum a) - Z.log2 (Zpos (Qden a)))%Z in
  if Qle_bool (2 ^ k)%Q a then k else (k - 1)%Z.

(** The nearest integer, the even one of two that are as near. *)
Definition Qround_even (x : Q) : Z :=
  let f := Qfloor x in
  match Qcompare (x - inject_Z f)%Q (1 # 2)%Q with
  | Lt => f
  | Gt => (f + 1)%Z
  | Eq => if Z.even f then f else (f + 1)%Z
  end.

(** The exponent of the unit in the last place of the doubles around a
    positive [a]: 53 significant bits, and no exponent below -1074. *)
Definition ulp_exponent (a : Q) : Z := (Z.max (Qlog2 a) (-1022) - 52)%Z.

(** The double nearest to a rational. *)
Definition round_double (q : Q) : number :=
  if Qeq_bool q 0 then Fin 0
  else
    let a := Qabs q in
    let r := (inject_Z (Qround_even (a / 2 ^ ulp_exponent a))
              * 2 ^ ulp_exponent a)%Q in
    if Qle_bool (2 ^ 1024)%Q r then (if Qle_bool 0 q then PosInf else NegInf)
    else Fin (if Qle_bool 0 q then r else (- r)%Q).

(** The double that a decimal numeral denotes, in a response as in the
    script. *)
Definition double (decimal : Q) : number := round_double decimal.

(** [value * 100] *)
Definition num_times100 (n : number) : number :=
  match n with
  | Fin q => round_double (q * 100)%Q
  | other => other
  end.

(** [Math.round]: the nearest integer, a tie going to the larger one. *)
Definition Math_round (n : number) : number :=
  match n with
  | Fin q => num_of_Z (Qfloor (q + (1 # 2)))
  | other => other
  end.

(** [Math.max(a, b)] and [Math.min(a, b)] *)
Definition Math_max (a b : number) : number :=
  match a, b with
  | NaN, _ | _, NaN => NaN
  | _, _ => if num_lt a b then b else a
  end.

Definition Math_min (a b : number) : number :=
  match a, b with
  | NaN, _ | _, NaN => NaN
  | _, _ => if num_lt b a then b else a
  end.

(** An integer between 0 and 100. *)
Definition is_percentage (n : number) : bool :=
  match n with
  | Fin q => Qeq_bool q (inject_Z (Qfloor q)) && Qle_bool 0 q && Qle_bool q 100
  | _ => false
  end.

(** ** Values *)

#[local] Set Warnings "-register-all".

Inductive JsVal :=
  | VUndef
  | VNull
  | VBool (b : bool)
  | VNum (n : number)
  | VStr (s : string)
  | VArr (l : list JsVal)
  | VObj (o : gmap string JsVal).

(** Truthiness, as tested by [if (v)], [!v], [a || b] and [Boolean(v)]. *)
Definition truthy (v : JsVal) : bool :=
  match v with
  | VUndef | VNull => false
  | VBool b => b
  | VNum NaN => false
  | VNum (Fin q) => negb (Qeq_bool q 0)
  | VNum _ => true
  | VStr s => negb (String.eqb s "")
  | VArr _ | VObj _ => true
  end.

(** [a || b] *)
Definition or_else (a b : JsVal) : JsVal := if truthy a then a else b.

Infix "<||>" := or_else (at level 51, left associativity).

(** [payload.key] and [payload?.key].  Only an object has one of the
    properties the script reads this way; on every other value the access
    yields [undefined] (the script tests the value before any plain access). *)
Definition get (v : JsVal) (key : string) : JsVal :=
  match v with
  | VObj o => default VUndef (o !! key)
  | _ => VUndef
  end.

(** [typeof v === "number"] *)
Definition is_number (v : JsVal) : bool :=
  match v with VNum _ => true | _ => false end.

(** [a === b] between a value that the queue holds and a value of another
    response, or a primitive value.  Two arrays or objects are identical
    only when they are the same object, which two values of different
    responses never are: they never compare identical.  (The comparison of
    an object with itself is not embedded; where it would matter the
    statements ask for primitive identifiers.) *)
Definition strict_equals (a b : JsVal) : bool :=
  match a, b with
  | VUndef, VUndef | VNull, VNull => true
  | VBool x, VBool y => Bool.eqb x y
  | VNum x, VNum y => num_eqb x y
  | VStr x, VStr y => String.eqb x y
  | _, _ => false
  end.

(** [s.startsWith(p)] *)
Fixpoint startsWith (s p : string) : bool :=
  match p, s with
  | EmptyString, _ => true
  | String c p', String d s' => Ascii.eqb c d && startsWith s' p'
  | String _ _, EmptyString => false
  end.

(** [s.toLowerCase()]: texts are ASCII, and the letters of ASCII are all
    that is lower-cased. *)
Definition lower_ascii (c : ascii) : ascii :=
  let n := nat_of_ascii c in
  if (65 <=? n)%nat && (n <=? 90)%nat then ascii_of_nat (n + 32) else c.

Fixpoint toLowerCase (s : string) : string :=
  match s with
  | EmptyString => EmptyString
  | String c r => String (lower_ascii c) (toLowerCase r)
  end.

(** The strings of [parts] with [sep] between them. *)
Fixpoint join_strings (sep : string) (parts : list string) : string :=
  match parts with
  | [] => ""
  | [p] => p
  | p :: rest => p ++ sep ++ join_strings sep rest
  end.

(** ** The response normaliser *)

(** [normaliseProgress(value)] *)
Definition normaliseProgress (value : JsVal) : number :=
  match value with
  | VNum n =>
      if Number_isNaN n then Fin 0
      else if num_le n (Fin 1) then Math_round (num_times100 n)
      else Math_round n
  | _ => Fin 0
  end.

(** What the script takes from its host: [Number.prototype.toString], the
    decimal text of a number, and the message of the [TypeError] that the
    host throws when the text of a value is asked for and the value has
    none. *)
Class Host := {
  Number_toString : number -> string;
  TypeError_message : JsVal -> string;
}.

(** How a call ends: it returns a value, or it throws an error, of which
    the message is kept. *)
Inductive Completion (A : Type) :=
  | Returns (a : A)
  | Throws (error_message : string).

Arguments Returns {A} a.
Arguments Throws {A} error_message.

Section Engine.

Context {host : Host}.

(** The text of a value: [value.toString()] on a value that has the method,
    and the conversion that [Array.prototype.join], a template or
    [encodeURIComponent] applies to a value.  [None]: taking the text throws
    a [TypeError].  An object inherits [Object.prototype.toString] unless it
    has a property [toString] of its own; in a parsed response such a
    property is never a function, so that the call of it throws, and so
    does the conversion, which finds no method that gives a primitive value.
    An element of an array that is [null] or [undefined] is joined as the
    empty text. *)
Fixpoint ToString (v : JsVal) : option string :=
  match v with
  | VUndef => Some "undefined"
  | VNull => Some "null"
  | VBool true => Some "true"
  | VBool false => Some "false"
  | VNum n => Some (Number_toString n)
  | VStr s => Some s
  | VArr l =>
      join_strings ","
        <$> mapM (fun x => match x with
                           | VUndef | VNull => Some ""
                           | _ => ToString x
                           end) l
  | VObj o =>
      match o !! "toString" with
      | Some _ => None
      | None => Some "[object Object]"
      end
  end.

(** [array.join(sep)] *)
Definition Array_join (sep : string) (l : list JsVal) : option string :=
  join_strings sep
    <$> mapM (fun x => match x with
                       | VUndef | VNull => Some ""
                       | _ => ToString x
                       end) l.

(** The [switch] of [normaliseStatus] on the lower-cased text. *)
Definition status_table (normalised : string) : string :=
  if String.eqb normalised "queued" then "uploaded"
  else if String.eqb normalised "waiting" then "uploaded"
  else if String.eqb normalised "pending" then "uploaded"
  else if String.eqb normalised "uploading" then "uploading"
  else if String.eqb normalised "uploaded" then "uploaded"
  else if String.eqb normalised "ready" then "uploaded"
  else if String.eqb normalised "processing" then "processing"
  else if String.eqb normalised "in_progress" then "processing"
  else if String.eqb normalised "processed" then "processed"
  else if String.eqb normalised "completed" then "processed"
  else if String.eqb normalised "complete" then "processed"
  else if String.eqb normalised "success" then "processed"
  else if String.eqb normalised "done" then "processed"
  else if String.eqb normalised "failed" then "failed"
  else if String.eqb normalised "error" then "failed"
  else if String.eqb normalised "errored" then "failed"
  else normalised.

(** [normaliseStatus(value)]: [None] is the [null] it returns on a falsy
    value; it throws when the value has no text. *)
Definition normaliseStatus (value : JsVal) : Completion (option string) :=
  if negb (truthy value) then Returns None
  else
    match ToString value with
    | Some text => Returns (Some (status_table (toLowerCase text)))
    | None => Throws (TypeError_message value)
    end.

(** [normaliseStatus(value) || fallback], and the test [if (nextStatus)]:
    the empty text is falsy like [null]. *)
Definition status_or (s : option string) (fallback : string) : string :=
  match s with
  | Some t => if String.eqb t "" then fallback else t
  | None => fallback
  end.

(** ** The queue store *)

(** A [File] handed over by the browser. *)
Record File := {
  File_name : string;
  File_size : Z;
  File_lastModified : Z;
  File_type : string;
}.

(** One entry of [state.items], with the fields [queueFile] gives it.
    [file] is the upload payload; [None] is [null].  A field that receives
    whatever the server sent is a [JsVal]. *)
Record Item := {
  clientId : string;
  name : string;
  size : Z;
  lastModified : Z;
  status : string;
  progress : number;
  file : option File;
  originalPreviewUrl : option string;
  originalUrl : JsVal;
  processedPreviewUrl : JsVal;
  createdAt : Z;
  message : JsVal;
  serverId : JsVal;
  processedUrl : JsVal;
  downloadOriginalUrl : JsVal;
  downloadProcessedUrl : JsVal;
}.

(** [item.field = v] *)
Definition set_status (v : string) (it : Item) : Item :=
  {| clientId := clientId it; name := name it; size := size it;
     lastModified := lastModified it; status := v; progress := progress it;
     file := file it; originalPreviewUrl := originalPreviewUrl it;
     originalUrl := originalUrl it;
     processedPreviewUrl := processedPreviewUrl it;
     createdAt := createdAt it; message := message it;
     serverId := serverId it; processedUrl := processedUrl it;
     downloadOriginalUrl := downloadOriginalUrl it;
     downloadProcessedUrl := downloadProcessedUrl it |}.

Definition set_progress (v : number) (it : Item) : Item :=
  {| clientId := clientId it; name := name it; size := size it;
     lastModified := lastModified it; status := status it; progress := v;
     file := file it; originalPreviewUrl := originalPreviewUrl it;
     originalUrl := originalUrl it;
     processedPreviewUrl := processedPreviewUrl it;
     createdAt := createdAt it; message := message it;
     serverId := serverId it; processedUrl := processedUrl it;
     downloadOriginalUrl := downloadOriginalUrl it;
     downloadProcessedUrl := downloadProcessedUrl it |}.

Definition set_file (v : option File) (it : Item) : Item :=
  {| clientId := clientId it; name := name it; size := size it;
     lastModified := lastModified it; status := status it;
     progress := progress it; file := v;
     originalPreviewUrl := originalPreviewUrl it;
     originalUrl := originalUrl it;
     processedPreviewUrl := processedPreviewUrl it;
     createdAt := createdAt it; message := message it;
     serverId := serverId it; processedUrl := processedUrl it;
     downloadOriginalUrl := downloadOriginalUrl it;
     downloadProcessedUrl := downloadProcessedUrl it |}.

Definition set_originalPreviewUrl (v : option string) (it : Item) : Item :=
  {| clientId := clientId it; name := name it; size := size it;
     lastModified := lastModified it; status := status it;
     progress := progress it; file := file it; originalPreviewUrl := v;
     originalUrl := originalUrl it;
     processedPreviewUrl := processedPreviewUrl it;
     createdAt := createdAt it; message := message it;
     serverId := serverId it; processedUrl := processedUrl it;
     downloadOriginalUrl := downloadOriginalUrl it;
     downloadProcessedUrl := downloadProcessedUrl it |}.

Definition set_originalUrl (v : JsVal) (it : Item) : Item :=
  {| clientId := clientId it; name := name it; size := size it;
     lastModified := lastModified it; status := status it;
     progress := progress it; file := file it;
     originalPreviewUrl := originalPreviewUrl it; originalUrl := v;
     processedPreviewUrl := processedPreviewUrl it;
     createdAt := createdAt it; message := message it;
     serverId := serverId it; processedUrl := processedUrl it;
     downloadOriginalUrl := downloadOriginalUrl it;
     downloadProcessedUrl := downloadProcessedUrl it |}.

Definition set_processedPreviewUrl (v : JsVal) (it : Item) : Item :=
  {| clientId := clientId it; name := name it; size := size it;
     lastModified := lastModified it; status := status it;
     progress := progress it; file := file it;
     originalPreviewUrl := originalPreviewUrl it;
     originalUrl := originalUrl it; processedPreviewUrl := v;
     createdAt := createdAt it; message := message it;
     serverId := serverId it; processedUrl := processedUrl it;
     downloadOriginalUrl := downloadOriginalUrl it;
     downloadProcessedUrl := downloadProcessedUrl it |}.

Definition set_message (v : JsVal) (it : Item) : Item :=
  {| clientId := clientId it; name := name it; size := size it;
     lastModified := lastModified it; status := status it;
     progress := progress it; file := file it;
     originalPreviewUrl := originalPreviewUrl it;
     originalUrl := originalUrl it;
     processedPreviewUrl := processedPreviewUrl it;
     createdAt := createdAt it; message := v; serverId := serverId it;
     processedUrl := processedUrl it;
     downloadOriginalUrl := downloadOriginalUrl it;
     downloadProcessedUrl := downloadProcessedUrl it |}.

Definition set_serverId (v : JsVal) (it : Item) : Item :=
  {| clientId := clientId it; name := name it; size := size it;
     lastModified := lastModified it; status := status it;
     progress := progress it; file := file it;
     originalPreviewUrl := originalPreviewUrl it;
     originalUrl := originalUrl it;
     processedPreviewUrl := processedPreviewUrl it;
     createdAt := createdAt it; message := message it; serverId := v;
     processedUrl := processedUrl it;
     downloadOriginalUrl := downloadOriginalUrl it;
     downloadProcessedUrl := downloadProcessedUrl it |}.

Definition set_processedUrl (v : JsVal) (it : Item) : Item :=
  {| clientId := clientId it; name := name it; size := size it;
     lastModified := lastModified it; status := status it;
     progress := progress it; file := file it;
     originalPreviewUrl := originalPreviewUrl it;
     originalUrl := originalUrl it;
     processedPreviewUrl := processedPreviewUrl it;
     createdAt := createdAt it; message := message it;
     serverId := serverId it; processedUrl := v;
     downloadOriginalUrl := downloadOriginalUrl it;
     downloadProcessedUrl := downloadProcessedUrl it |}.

Definition set_downloadOriginalUrl (v : JsVal) (it : Item) : Item :=
  {| clientId := clientId it; name := name it; size := size it;
     lastModified := lastModified it; status := status it;
     progress := progress it; file := file it;
     originalPreviewUrl := originalPreviewUrl it;
     originalUrl := originalUrl it;
     processedPreviewUrl := processedPreviewUrl it;
     createdAt := createdAt it; message := message it;
     serverId := serverId it; processedUrl := processedUrl it;
     downloadOriginalUrl := v;
     downloadProcessedUrl := downloadProcessedUrl it |}.

Definition set_downloadProcessedUrl (v : JsVal) (it : Item) : Item :=
  {| clientId := clientId it; name := name it; size := size it;
     lastModified := lastModified it; status := status it;
     progress := progress it; file := file it;
     originalPreviewUrl := originalPreviewUrl it;
     originalUrl := originalUrl it;
     processedPreviewUrl := processedPreviewUrl it;
     createdAt := createdAt it; message := message it;
     serverId := serverId it; processedUrl := processedUrl it;
     downloadOriginalUrl := downloadOriginalUrl it;
     downloadProcessedUrl := v |}.

(** A [fetch] issued by the script. *)
Inductive Request :=
  | ReqUpload (item : nat)
  | ReqProcess (ids : list JsVal)
  | ReqStatus (ids : list JsVal).

(** How a request ends for the [try] block around it. *)
Inductive Outcome :=
  | NetworkError (error_message : JsVal)
  | HttpError (text : string)
  | HttpOk (payload : JsVal).

(** The script's [state] and [pollErrorNotified], and what the script has
    asked of the browser: the requests it issued (latest first), the interval
    timers that are running, the object URLs it revoked. *)
Record World := {
  items : list Item;
  pollTimer : option positive;
  batchDownloadUrl : JsVal;
  pollErrorNotified : bool;
  fetches : list Request;
  intervals : list positive;
  revoked : list string;
}.

Definition set_items (v : list Item) (w : World) : World :=
  {| items := v; pollTimer := pollTimer w;
     batchDownloadUrl := batchDownloadUrl w;
     pollErrorNotified := pollErrorNotified w; fetches := fetches w;
     intervals := intervals w; revoked := revoked w |}.

Definition set_pollTimer (v : option positive) (w : World) : World :=
  {| items := items w; pollTimer := v;
     batchDownloadUrl := batchDownloadUrl w;
     pollErrorNotified := pollErrorNotified w; fetches := fetches w;
     intervals := intervals w; revoked := revoked w |}.

Definition set_batchDownloadUrl (v : JsVal) (w : World) : World :=
  {| items := items w; pollTimer := pollTimer w;
     batchDownloadUrl := v;
     pollErrorNotified := pollErrorNotified w; fetches := fetches w;
     intervals := intervals w; revoked := revoked w |}.

Definition set_pollErrorNotified (v : bool) (w : World) : World :=
  {| items := items w; pollTimer := pollTimer w;
     batchDownloadUrl := batchDownloadUrl w;
     pollErrorNotified := v; fetches := fetches w;
     intervals := intervals w; revoked := revoked w |}.

Definition set_fetches (v : list Request) (w : World) : World :=
  {| items := items w; pollTimer := pollTimer w;
     batchDownloadUrl := batchDownloadUrl w;
     pollErrorNotified := pollErrorNotified w; fetches := v;
     intervals := intervals w; revoked := revoked w |}.

Definition set_intervals (v : list positive) (w : World) : World :=
  {| items := items w; pollTimer := pollTimer w;
     batchDownloadUrl := batchDownloadUrl w;
     pollErrorNotified := pollErrorNotified w; fetches := fetches w;
     intervals := v; revoked := revoked w |}.

Definition set_revoked (v : list string) (w : World) : World :=
  {| items := items w; pollTimer := pollTimer w;
     batchDownloadUrl := batchDownloadUrl w;
     pollErrorNotified := pollErrorNotified w; fetches := fetches w;
     intervals := intervals w; revoked := v |}.

(** [fetch(...)] *)
Definition fetch (r : Request) (w : World) : World :=
  set_fetches (r :: fetches w) w.

(** The script's start state. *)
Definition initial : World :=
  {| items := []; pollTimer := None; batchDownloadUrl := VNull;
     pollErrorNotified := false; fetches := []; intervals := [];
     revoked := [] |}.

(** [state.items.find(pred)]: the first item that satisfies [pred], with its
    position. *)
Definition find (pred : Item -> bool) (l : list Item) : option (nat * Item) :=
  list_find (fun it => pred it = true) l.

(** [canRequestProcessing(item)] *)
Definition canRequestProcessing (it : Item) : bool :=
  truthy (serverId it)
  && (String.eqb (status it) "uploaded" || String.eqb (status it) "failed").

(** [shouldPoll(item)] *)
Definition shouldPoll (it : Item) : bool :=
  truthy (serverId it)
  && existsb (String.eqb (status it)) ["uploading"; "uploaded"; "processing"].

(** The value [renderQueueItem] gives the progress bar. *)
Definition progressBarValue (it : Item) : number :=
  Math_min (Fin 100) (Math_max (Fin 0) (Math_round (progress it))).

(** ** The polling loop: stopping and the start of a pass *)

(** [stopPolling()] *)
Definition stopPolling (w : World) : World :=
  let w1 :=
    match pollTimer w with
    | Some timer =>
        set_pollTimer None
          (set_intervals (List.filter (fun t => negb (Pos.eqb t timer)) (intervals w)) w)
    | None => w
    end in
  set_pollErrorNotified false w1.

(** The value has a text. *)
Definition has_text (v : JsVal) : bool :=
  match ToString v with Some _ => true | None => false end.

(** [pollStatuses()] up to its [await]: the pass stops the loop when no item
    is to be polled, and issues the status request otherwise.  The address
    of the request holds the text of each identifier: when one has none,
    the pass ends there, by an error that nothing catches, without a
    request. *)
Definition pollStatuses_start (w : World) : World :=
  let ids := List.map serverId (List.filter shouldPoll (items w)) in
  match ids with
  | [] => stopPolling w
  | _ => if forallb has_text ids then fetch (ReqStatus ids) w else w
  end.

(** [ensurePolling()]; [timer] is the handle that [window.setInterval]
    returns when it is called. *)
Definition ensurePolling (timer : positive) (w : World) : World :=
  match pollTimer w with
  | Some _ => w
  | None =>
      if negb (existsb shouldPoll (items w)) then w
      else
        let w1 := pollStatuses_start w in
        set_pollTimer (Some timer) (set_intervals (timer :: intervals w1) w1)
  end.

(** ** The upload orchestrator *)

(** [uploadFile(item)] up to its [await]. *)
Definition uploadFile_start (ref : nat) (w : World) : World :=
  match items w !! ref with
  | Some item =>
      match file item with
      | None => w
      | Some _ =>
          let item := set_status "uploading" item in
          let item := set_progress (Fin 0) item in
          let item := set_message (VStr "") item in
          fetch (ReqUpload ref) (set_items (<[ref := item]> (items w)) w)
      end
  | None => w
  end.

(** The assignments of the [try] of [uploadFile] once the response is
    read, on the item: the item they leave, and the message of the error
    that [normaliseStatus] threw, if it threw. *)
Definition uploadFile_success (item : Item) (payload : JsVal)
    : Item * option string :=
  let identifier :=
    get payload "id" <||> get payload "uploadId" <||> get payload "uuid"
    <||> get payload "fileId" <||> get payload "identifier"
    <||> serverId item <||> VStr (clientId item) in
  let item := set_serverId identifier item in
  match normaliseStatus (get payload "status" <||> get payload "state") with
  | Throws error_message => (item, Some error_message)
  | Returns nextStatus =>
      let item := set_status (status_or nextStatus "uploaded") item in
      let item :=
        set_progress
          (match get payload "progress" with
           | VUndef => Fin 100
           | value => normaliseProgress value
           end) item in
      let item :=
        set_originalUrl
          (get payload "originalUrl" <||> get payload "sourceUrl"
           <||> originalUrl item) item in
      let item :=
        set_downloadOriginalUrl
          (get payload "downloadOriginalUrl" <||> get payload "originalDownloadUrl"
           <||> downloadOriginalUrl item) item in
      let item :=
        set_processedUrl
          (get payload "processedUrl" <||> get payload "resultUrl"
           <||> processedUrl item) item in
      let item :=
        set_downloadProcessedUrl
          (get payload "processedDownloadUrl" <||> get payload "downloadUrl"
           <||> downloadProcessedUrl item) item in
      let item := set_message (get payload "message" <||> VStr "") item in
      let item := set_file None item in
      (if String.eqb (status item) "processed" then set_progress (Fin 100) item
       else item, None)
  end.

(** The [catch] of [uploadFile], on the item; [error_message] is
    [error?.message]. *)
Definition uploadFile_failure (item : Item) (error_message : JsVal) : Item :=
  let item := set_status "failed" item in
  let item := set_progress (Fin 0) item in
  set_message (error_message <||> VStr "Upload failed") item.

(** The message of the error that reaches the [catch] of [uploadFile]: the
    one of the rejection, or the response text (or "Upload failed") that the
    script throws on a response that is not ok. *)
Definition upload_error_message (o : Outcome) : JsVal :=
  match o with
  | NetworkError m => m
  | HttpError text => VStr text <||> VStr "Upload failed"
  | HttpOk _ => VUndef
  end.

(** [uploadFile(item)] from its [await] on: the [try] to its end, or the
    [catch] on the item as the [try] left it. *)
Definition uploadFile_resume (ref : nat) (timer : positive) (o : Outcome)
    (w : World) : World :=
  match items w !! ref with
  | Some item =>
      match o with
      | HttpOk payload =>
          match uploadFile_success item payload with
          | (item, None) =>
              ensurePolling timer (set_items (<[ref := item]> (items w)) w)
          | (item, Some error_message) =>
              set_items
                (<[ref := uploadFile_failure item (VStr error_message)]> (items w)) w
          end
      | _ =>
          set_items
            (<[ref := uploadFile_failure item (upload_error_message o)]> (items w)) w
      end
  | None => w
  end.

(** [queueFile(file)]; the client identifier, the preview URL and the clock
    are what [generateClientId()], [URL.createObjectURL(file)] and
    [Date.now()] return. *)
Definition queueFile (f : File) (id : string) (previewUrl : option string)
    (now : Z) (w : World) : World :=
  let item :=
    {| clientId := id; name := File_name f; size := File_size f;
       lastModified := File_lastModified f; status := "queued";
       progress := Fin 0; file := Some f; originalPreviewUrl := previewUrl;
       originalUrl := VNull; processedPreviewUrl := VNull; createdAt := now;
       message := VStr ""; serverId := VNull; processedUrl := VNull;
       downloadOriginalUrl := VNull; downloadProcessedUrl := VNull |} in
  let w := set_items (items w ++ [item]) w in
  let w := set_batchDownloadUrl VNull w in
  uploadFile_start (length (items w) - 1) w.

(** ** The processing request orchestrator *)

(** A snapshot: the item, its status and its message. *)
Definition Snapshot : Type := nat * string * JsVal.

(** The snapshots that [requestProcessing] takes of the items of [ids]. *)
Definition take_snapshots (ids : list JsVal) (w : World) : list Snapshot :=
  omap (fun id =>
          match find (fun item => strict_equals (serverId item) id) (items w) with
          | Some (ref, entry) => Some (ref, status entry, message entry)
          | None => None
          end) ids.

(** The optimistic transition of one item. *)
Definition mark_processing (item : Item) : Item :=
  let item := set_status "processing" item in
  let item := set_message (VStr "") item in
  if num_lt (progress item) (Fin 5) then set_progress (Fin 5) item else item.

(** The restoration of one snapshot. *)
Definition restore (sn : Snapshot) (l : list Item) : list Item :=
  let '(ref, st, msg) := sn in
  alter (fun item => set_message msg (set_status st item)) ref l.

(** [requestProcessing(ids)] up to its [await]; [None] is an absent list.
    It hands its snapshots over to the part that runs after the request. *)
Definition requestProcessing_start (ids : option (list JsVal))
    (timer : positive) (w : World) : list Snapshot * World :=
  match ids with
  | None | Some [] => ([], w)
  | Some ids =>
      let snapshots := take_snapshots ids w in
      let w :=
        set_items
          (foldl (fun l (sn : Snapshot) => alter mark_processing sn.1.1 l)
                 (items w) snapshots) w in
      let w := ensurePolling timer w in
      (snapshots, fetch (ReqProcess ids) w)
  end.

(** [requestProcessing(ids)] from its [await] on. *)
Definition requestProcessing_resume (snapshots : list Snapshot) (o : Outcome)
    (w : World) : World :=
  match o with
  | HttpOk payload =>
      if truthy (get payload "zipUrl")
      then set_batchDownloadUrl (get payload "zipUrl") w
      else w
  | _ => set_items (foldl (fun l sn => restore sn l) (items w) snapshots) w
  end.

(** ** The polling loop: applying a status response *)

(** [normaliseStatusPayload(payload)] *)
Definition normaliseStatusPayload (payload : JsVal) : list JsVal :=
  if negb (truthy payload) then []
  else
    match payload with
    | VArr l => l
    | _ =>
        match get payload "items" with
        | VArr l => l
        | _ =>
            match get payload "data" with
            | VArr l => l
            | _ =>
                match get payload "result" with
                | VArr l => l
                | _ => [payload]
                end
            end
        end
    end.

(** The last block of [updateItemFromServer]: a processed item is complete,
    and its local preview is revoked once the server has given a location
    for the original.  The URLs revoked are returned with the item. *)
Definition settle_processed (item : Item) : Item * list string :=
  if String.eqb (status item) "processed" then
    let item := set_progress (Fin 100) item in
    match originalPreviewUrl item with
    | Some url =>
        if startsWith url "blob:" && truthy (originalUrl item)
           && negb (strict_equals (originalUrl item) (VStr url))
        then (set_originalPreviewUrl None item, [url])
        else (item, [])
    | None => (item, [])
    end
  else (item, []).

(** The blocks of [updateItemFromServer], in the order of the source. *)

(** [if (nextStatus) item.status = nextStatus], on the status that
    [normaliseStatus] returned *)
Definition merge_status (nextStatus : option string) (item : Item) : Item :=
  match nextStatus with
  | Some t => if String.eqb t "" then item else set_status t item
  | None => item
  end.

(** [payload.progress], or else [payload.percentage], when it is a number *)
Definition merge_progress (payload : JsVal) (item : Item) : Item :=
  if is_number (get payload "progress")
  then set_progress (normaliseProgress (get payload "progress")) item
  else if is_number (get payload "percentage")
  then set_progress (normaliseProgress (get payload "percentage")) item
  else item.

Definition merge_originalUrl (payload : JsVal) (item : Item) : Item :=
  let url := get payload "originalUrl" <||> get payload "sourceUrl"
             <||> get payload "thumbnailUrl" in
  if truthy url then set_originalUrl url item else item.

Definition merge_processedUrl (payload : JsVal) (item : Item) : Item :=
  let url := get payload "processedUrl" <||> get payload "resultUrl"
             <||> get payload "previewUrl" in
  if truthy url then set_processedUrl url item else item.

Definition merge_processedPreviewUrl (payload : JsVal) (item : Item) : Item :=
  if truthy (get payload "processedPreviewUrl") then
    let item := set_processedPreviewUrl (get payload "processedPreviewUrl") item in
    if negb (truthy (processedUrl item))
    then set_processedUrl (get payload "processedPreviewUrl") item
    else item
  else item.

Definition merge_downloadOriginalUrl (payload : JsVal) (item : Item) : Item :=
  let url := get payload "downloadOriginalUrl"
             <||> get payload "originalDownloadUrl" in
  if truthy url then set_downloadOriginalUrl url item else item.

Definition merge_downloadProcessedUrl (payload : JsVal) (item : Item) : Item :=
  let url := get payload "downloadProcessedUrl" <||> get payload "downloadUrl"
             <||> get payload "resultDownloadUrl" in
  if truthy url then set_downloadProcessedUrl url item else item.

(** [errors], or else [error], or else [message]: the item that the block
    leaves and the message of the error that [join] threw, if it threw (the
    status is assigned before the errors are joined). *)
Definition merge_errors (payload : JsVal) (item : Item) : Item * option string :=
  match get payload "errors" with
  | VArr (e :: es) =>
      let item := set_status "failed" item in
      match Array_join " " (e :: es) with
      | Some text => (set_message (VStr text) item, None)
      | None => (item, Some (TypeError_message (VArr (e :: es))))
      end
  | _ =>
      if truthy (get payload "error") then
        let item := set_status "failed" item in
        (set_message (get payload "error") item, None)
      else if truthy (get payload "message")
      then (set_message (get payload "message") item, None)
      else (item, None)
  end.

(** [updateItemFromServer(item, payload)]: the item as the call leaves it,
    the object URLs the call revoked, and the message of the error that the
    call threw, if it threw. *)
Definition updateItemFromServer (item : Item) (payload : JsVal)
    : Item * list string * option string :=
  if negb (truthy payload) then (item, [], None)
  else
    match normaliseStatus
            (get payload "status" <||> get payload "state"
             <||> get payload "stage") with
    | Throws error_message => (item, [], Some error_message)
    | Returns nextStatus =>
        let item := merge_status nextStatus item in
        let item := merge_progress payload item in
        let item := merge_originalUrl payload item in
        let item := merge_processedUrl payload item in
        let item := merge_processedPreviewUrl payload item in
        let item := merge_downloadOriginalUrl payload item in
        let item := merge_downloadProcessedUrl payload item in
        match merge_errors payload item with
        | (item, Some error_message) => (item, [], Some error_message)
        | (item, None) =>
            let '(item, urls) := settle_processed item in (item, urls, None)
        end
    end.

(** The body of the [forEach] of [pollStatuses], with [latestZipUrl] carried
    along: the state it leaves and the message of the error that
    [updateItemFromServer] threw, if it threw. *)
Definition apply_update (acc : World * JsVal) (entry : JsVal)
    : World * JsVal * option string :=
  let '(w, latestZipUrl) := acc in
  let identifier :=
    get entry "id" <||> get entry "uploadId" <||> get entry "uuid"
    <||> get entry "fileId" <||> get entry "identifier" in
  if negb (truthy identifier) then (acc, None)
  else
    match find (fun candidate =>
                  strict_equals (serverId candidate) identifier
                  || strict_equals (VStr (clientId candidate)) identifier)
               (items w) with
    | None => (acc, None)
    | Some (ref, item) =>
        let item :=
          if negb (truthy (serverId item)) then set_serverId identifier item
          else item in
        let '(item, urls, thrown) := updateItemFromServer item entry in
        let w := set_revoked (urls ++ revoked w)
                   (set_items (<[ref := item]> (items w)) w) in
        match thrown with
        | Some error_message => (w, latestZipUrl, Some error_message)
        | None =>
            (w, if truthy (get entry "zipUrl") then get entry "zipUrl"
                else latestZipUrl, None)
        end
    end.

(** [updates.forEach(...)]: the records in their order, up to the one on
    which the body throws. *)
Fixpoint apply_updates (acc : World * JsVal) (updates : list JsVal)
    : World * JsVal * option string :=
  match updates with
  | [] => (acc, None)
  | entry :: rest =>
      match apply_update acc entry with
      | (acc, None) => apply_updates acc rest
      | (acc, Some error_message) => (acc, Some error_message)
      end
  end.

(** The [catch] of [pollStatuses]: one notice, until a response arrives. *)
Definition pollStatuses_catch (w : World) : World :=
  if negb (pollErrorNotified w) then set_pollErrorNotified true w else w.

(** [pollStatuses()] from its [await] on. *)
Definition pollStatuses_resume (o : Outcome) (w : World) : World :=
  match o with
  | HttpOk payload =>
      let w := set_pollErrorNotified false w in
      let updates := normaliseStatusPayload payload in
      match apply_updates (w, VNull) updates with
      | (w, _, Some _) => pollStatuses_catch w
      | (w, latestZipUrl, None) =>
          let latestZipUrl :=
            if truthy (get payload "zipUrl") then get payload "zipUrl"
            else latestZipUrl in
          let w :=
            if truthy latestZipUrl then set_batchDownloadUrl latestZipUrl w
            else w in
          if negb (existsb shouldPoll (items w)) then stopPolling w else w
      end
  | _ => pollStatuses_catch w
  end.

(** ** The operations as events *)

(** What can happen to the queue: a file is queued, a request settles, the
    user asks for processing, the interval timer fires. *)
Inductive Event :=
  | FileQueued (f : File) (id : string) (previewUrl : option string) (now : Z)
  | UploadSettled (ref : nat) (timer : positive) (o : Outcome)
  | ProcessingRequested (ids : option (list JsVal)) (timer : positive)
  | ProcessingSettled (snapshots : list Snapshot) (o : Outcome)
  | PollTick
  | PollSettled (o : Outcome).

Definition step (w : World) (e : Event) : World :=
  match e with
  | FileQueued f id previewUrl now => queueFile f id previewUrl now w
  | UploadSettled ref timer o => uploadFile_resume ref timer o w
  | ProcessingRequested ids timer => (requestProcessing_start ids timer w).2
  | ProcessingSettled snapshots o => requestProcessing_resume snapshots o w
  | PollTick => pollStatuses_start w
  | PollSettled o => pollStatuses_resume o w
  end.

(** The state after a run of events. *)
Definition run (w : World) (es : list Event) : World := foldl step w es.

(** ** The intake of files *)

Definition FILE_SIZE_LIMIT : Z := 25 * 1024 * 1024.

Definition ACCEPTED_MIME_PREFIX : string := "image/".

Definition ACCEPTED_EXTENSIONS : list string :=
  [".jpg"; ".jpeg"; ".png"; ".gif"; ".webp"; ".bmp"; ".tiff"; ".tif"; ".svg";
   ".heic"; ".heif"].

(** [s.endsWith(p)]: [p] is [s] or ends what follows the first character. *)
Fixpoint endsWith (s p : string) : bool :=
  String.eqb s p
  || match s with
     | EmptyString => false
     | String _ rest => endsWith rest p
     end.

(** What [validateFile] returns: [{ valid: true }], or the message. *)
Inductive Validation :=
  | Valid
  | Invalid (message : string).

(** [validateFile(file)], on a file of the browser's list. *)
Definition validateFile (f : File) : Validation :=
  if (FILE_SIZE_LIMIT <? File_size f)%Z
  then Invalid (File_name f ++ " exceeds the 25 MB size limit.")
  else
    let mimeValid :=
      String.eqb (File_type f) ""
      || startsWith (File_type f) ACCEPTED_MIME_PREFIX in
    let extensionValid :=
      existsb (fun extension => endsWith (toLowerCase (File_name f)) extension)
              ACCEPTED_EXTENSIONS in
    if negb mimeValid && negb extensionValid
    then Invalid (File_name f ++ " is not a supported image format.")
    else Valid.

Definition is_valid (v : Validation) : bool :=
  match v with Valid => true | Invalid _ => false end.

(** [isDuplicateFile(file)] *)
Definition isDuplicateFile (f : File) (w : World) : bool :=
  existsb (fun item => String.eqb (name item) (File_name f)
                       && (size item =? File_size f)%Z
                       && (lastModified item =? File_lastModified f)%Z)
          (items w).

(** A file of a selection, with what the host returns for it when it is
    queued: the client identifier, the preview URL, the clock. *)
Record Selected := {
  selected_file : File;
  selected_id : string;
  selected_preview : option string;
  selected_now : Z;
}.

(** The files of a selection that [handleFileSelection] keeps: the filter
    runs over the whole selection before any file is queued. *)
Definition acceptedFiles (fileList : list Selected) (w : World) : list Selected :=
  List.filter (fun x => is_valid (validateFile (selected_file x))
                        && negb (isDuplicateFile (selected_file x) w))
              fileList.

(** [handleFileSelection(fileList)] *)
Definition handleFileSelection (fileList : list Selected) (w : World) : World :=
  match acceptedFiles fileList w with
  | [] => w
  | accepted =>
      foldl (fun w x => queueFile (selected_file x) (selected_id x)
                                  (selected_preview x) (selected_now x) w)
            w accepted
  end.

(** ** The buttons *)

(** The click on "process all": the snapshots that the request takes and
    the state it leaves; nothing when no item can be processed. *)
Definition processAll_click (timer : positive) (w : World)
    : list Snapshot * World :=
  let readyItems := List.filter canRequestProcessing (items w) in
  match readyItems with
  | [] => ([], w)
  | _ => requestProcessing_start (Some (List.map serverId readyItems)) timer w
  end.


(** ** The name of a processed file *)

(** [name.lastIndexOf(".")]; [None] is -1. *)
Fixpoint lastIndexOf_dot (s : string) : option nat :=
  match s with
  | EmptyString => None
  | String c rest =>
      match lastIndexOf_dot rest with
      | Some i => Some (S i)
      | None => if Ascii.eqb c "." then Some 0 else None
      end
  end.

(** [s.slice(0, n)] and [s.slice(n)], for [n] within the string. *)
Fixpoint slice_to (n : nat) (s : string) : string :=
  match n, s with
  | S m, String c rest => String c (slice_to m rest)
  | _, _ => EmptyString
  end.

Fixpoint slice_from (n : nat) (s : string) : string :=
  match n, s with
  | S m, String _ rest => slice_from m rest
  | _, _ => s
  end.

(** [buildProcessedFilename(name)] *)
Definition buildProcessedFilename (name : string) : string :=
  if String.eqb name "" then "processed"
  else
    match lastIndexOf_dot name with
    | None => name ++ "-processed"
    | Some dotIndex =>
        let base := slice_to dotIndex name in
        let extension := slice_from dotIndex name in
        base ++ "-processed" ++ extension
    end.

(** ** The status vocabulary *)

(** The words that [normaliseStatus] replaces by another one. *)
Definition status_aliases : list string :=
  ["queued"; "waiting"; "pending"; "ready"; "in_progress"; "completed";
   "complete"; "success"; "done"; "error"; "errored"].

(** The words that stand for a state of the pipeline once normalised. *)
Definition canonical_statuses : list string :=
  ["uploading"; "uploaded"; "processing"; "processed"; "failed"].

(** ** The polling loop as a whole *)

(** The interval timers that run are the one that [state.pollTimer] holds. *)
Definition timer_consistent (w : World) : Prop :=
  intervals w = option_list (pollTimer w).

(** [Array.isArray(v)] *)
Definition is_array (v : JsVal) : bool :=
  match v with VArr _ => true | _ => false end.

(** The payload holds the list [l] under [items], or else under [data], or
    else under [result]. *)
Definition wraps (payload : JsVal) (l : list JsVal) : Prop :=
  get payload "items" = VArr l
  \/ (is_array (get payload "items") = false /\ get payload "data" = VArr l)
  \/ (is_array (get payload "items") = false
      /\ is_array (get payload "data") = false
      /\ get payload "result" = VArr l).

(** The identifier that [pollStatuses] reads in a record, and the item it
    finds for it. *)
Definition record_identifier (entry : JsVal) : JsVal :=
  get entry "id" <||> get entry "uploadId" <||> get entry "uuid"
  <||> get entry "fileId" <||> get entry "identifier".

Definition record_target (entry : JsVal) (l : list Item) : option (nat * Item) :=
  find (fun candidate =>
          strict_equals (serverId candidate) (record_identifier entry)
          || strict_equals (VStr (clientId candidate)) (record_identifier entry))
       l.

(** ** What a status response keeps *)

(** [b] is the item [a] as to its identity: the same client identifier,
    name, size, dates and file, and the same server identifier when [a] has
    one. *)
Definition same_identity (a b : Item) : Prop :=
  clientId b = clientId a /\ name b = name a /\ size b = size a
  /\ lastModified b = lastModified a /\ createdAt b = createdAt a
  /\ file b = file a
  /\ (truthy (serverId a) = true -> serverId b = serverId a).

(** Every location that [a] has, [b] has too (not necessarily the same). *)
Definition urls_kept (a b : Item) : Prop :=
  (truthy (originalUrl a) = true -> truthy (originalUrl b) = true)
  /\ (truthy (processedUrl a) = true -> truthy (processedUrl b) = true)
  /\ (truthy (processedPreviewUrl a) = true -> truthy (processedPreviewUrl b) = true)
  /\ (truthy (downloadOriginalUrl a) = true -> truthy (downloadOriginalUrl b) = true)
  /\ (truthy (downloadProcessedUrl a) = true
      -> truthy (downloadProcessedUrl b) = true).

(** Every processed item is at 100 %. *)
Definition processed_complete (w : World) : Prop :=
  Forall (fun item => status item = "processed" -> progress item = Fin 100)
         (items w).

(** A rollback does not restore the status "processed". *)
Definition restores_no_processed (e : Event) : Prop :=
  match e with
  | ProcessingSettled snapshots (NetworkError _ | HttpError _) =>
      Forall (fun sn : Snapshot => sn.1.2 <> "processed") snapshots
  | _ => True
  end.

(** ** The progress bar *)

(** No item has [NaN] as progress. *)
Definition progress_defined (w : World) : Prop :=
  Forall (fun item => progress item <> NaN) (items w).

(** ** The queue after a selection *)

(** The item that [queueFile] leaves for a file: the upload has started. *)
Definition queued_item (x : Selected) : Item :=
  {| clientId := selected_id x; name := File_name (selected_file x);
     size := File_size (selected_file x);
     lastModified := File_lastModified (selected_file x);
     status := "uploading"; progress := Fin 0; file := Some (selected_file x);
     originalPreviewUrl := selected_preview x; originalUrl := VNull;
     processedPreviewUrl := VNull; createdAt := selected_now x;
     message := VStr ""; serverId := VNull; processedUrl := VNull;
     downloadOriginalUrl := VNull; downloadProcessedUrl := VNull |}.

(** The two items are the same file for [isDuplicateFile]. *)
Definition same_file (a b : Item) : Prop :=
  name a = name b /\ size a = size b /\ lastModified a = lastModified b.

(** The server identifier of an item that can be processed finds that item
    (as when the server identifiers are distinct texts). *)
Definition ids_identify (w : World) : Prop :=
  forall ref a,
    items w !! ref = Some a -> canRequestProcessing a = true ->
    find (fun item => strict_equals (serverId item) (serverId a)) (items w)
    = Some (ref, a).

(** ** Names with and without a dot *)

(** The text has a dot. *)
Fixpoint mentions_dot (s : string) : bool :=
  match s with
  | EmptyString => false
  | String c rest => Ascii.eqb c "." || mentions_dot rest
  end.

(** ** Items keep their identity *)

(** [b] is still the item [a]: the same client identifier, name, size and
    dates, and a server identifier if [a] has one. *)
Definition still_that_item (a b : Item) : Prop :=
  clientId b = clientId a /\ name b = name a /\ size b = size a
  /\ lastModified b = lastModified a /\ createdAt b = createdAt a
  /\ (truthy (serverId a) = true -> truthy (serverId b) = true).

(** ** The items that a processing request targets *)

(** The value is not an object: a text, a number, a boolean, [null] or
    [undefined]. *)
Definition is_primitive (v : JsVal) : bool :=
  match v with
  | VArr _ | VObj _ => false
  | _ => true
  end.

(** The item at [ref] is the first one of the queue of which the server
    identifier is [id]. *)
Definition first_with_serverId (l : list Item) (id : JsVal) (ref : nat) : Prop :=
  (exists item, l !! ref = Some item /\ strict_equals (serverId item) id = true)
  /\ forall j other,
       j < ref -> l !! j = Some other ->
       strict_equals (serverId other) id = false.

(** A request over [ids] targets the item at [ref]. *)
Definition targeted (ids : list JsVal) (l : list Item) (ref : nat) : Prop :=
  exists id, id ∈ ids /\ first_with_serverId l id ref.

(** ** The records that are applied *)

(** The message of the error that is thrown while the records of a status
    response are applied, if one is. *)
Definition poll_error (payload : JsVal) (w : World) : option string :=
  (apply_updates (set_pollErrorNotified false w, VNull)
                 (normaliseStatusPayload payload)).2.

(** ** The item that an upload leaves *)

(** The item once [uploadFile] has handled the outcome of its request: the
    one the [try] leaves when it runs to its end, the one the [catch] leaves
    otherwise. *)
Definition uploadFile_settled (item : Item) (o : Outcome) : Item :=
  match o with
  | HttpOk payload =>
      match uploadFile_success item payload with
      | (item, None) => item
      | (item, Some error_message) => uploadFile_failure item (VStr error_message)
      end
  | _ => uploadFile_failure item (upload_error_message o)
  end.

(** ** The merge in closed form

    Each block of [updateItemFromServer] assigns to at most two fields; it is
    the same as assigning unconditionally the value the field ends with.
    These are the values, and [merged] is the item they add up to. *)

Definition status_field (payload : JsVal) : JsVal :=
  get payload "status" <||> get payload "state" <||> get payload "stage".

Definition merged_progress (payload : JsVal) (old : number) : number :=
  if is_number (get payload "progress")
  then normaliseProgress (get payload "progress")
  else if is_number (get payload "percentage")
  then normaliseProgress (get payload "percentage")
  else old.

Definition merged_url (url old : JsVal) : JsVal :=
  if truthy url then url else old.

(** The record reports a failure: a non-empty [errors] list, or else a truthy
    [error]. *)
Definition reports_failure (payload : JsVal) : bool :=
  match get payload "errors" with
  | VArr (_ :: _) => true
  | _ => truthy (get payload "error")
  end.

(** The status that the first block leaves, when [normaliseStatus]
    returns. *)
Definition merged_status (payload : JsVal) (old : string) : string :=
  match normaliseStatus (status_field payload) with
  | Returns nextStatus => status_or nextStatus old
  | Throws _ => old
  end.

Definition merged_message (payload : JsVal) (old : JsVal) : JsVal :=
  match get payload "errors" with
  | VArr (e :: es) =>
      match Array_join " " (e :: es) with
      | Some text => VStr text
      | None => old
      end
  | _ =>
      if truthy (get payload "error") then get payload "error"
      else if truthy (get payload "message") then get payload "message"
      else old
  end.

(** The preview is revoked by [settle_processed]. *)
Definition preview_revoked (item : Item) : bool :=
  String.eqb (status item) "processed"
  && match originalPreviewUrl item with
     | Some url =>
         startsWith url "blob:" && truthy (originalUrl item)
         && negb (strict_equals (originalUrl item) (VStr url))
     | None => false
     end.

(** The message of the error that the errors block throws, if it throws. *)
Definition errors_error (payload : JsVal) : option string :=
  match get payload "errors" with
  | VArr (e :: es) =>
      match Array_join " " (e :: es) with
      | Some _ => None
      | None => Some (TypeError_message (VArr (e :: es)))
      end
  | _ => None
  end.

(** The message of the error that [updateItemFromServer] throws on a record,
    if it throws: the status, or else the errors, have no text. *)
Definition update_error (payload : JsVal) : option string :=
  if negb (truthy payload) then None
  else
    match normaliseStatus (status_field payload) with
    | Throws error_message => Some error_message
    | Returns _ => errors_error payload
    end.

(** The item that [updateItemFromServer] leaves when [normaliseStatus]
    returns, field by field. *)
Definition merged (item : Item) (payload : JsVal) : Item :=
  let st :=
    if reports_failure payload then "failed"
    else merged_status payload (status item) in
  let purl :=
    merged_url (get payload "processedUrl" <||> get payload "resultUrl"
                <||> get payload "previewUrl") (processedUrl item) in
  let ourl :=
    merged_url (get payload "originalUrl" <||> get payload "sourceUrl"
                <||> get payload "thumbnailUrl") (originalUrl item) in
  {| clientId := clientId item; name := name item; size := size item;
     lastModified := lastModified item;
     status := st;
     progress := if String.eqb st "processed" then Fin 100
                 else merged_progress payload (progress item);
     file := file item;
     originalPreviewUrl :=
       if String.eqb st "processed"
          && match originalPreviewUrl item with
             | Some url => startsWith url "blob:" && truthy ourl
                           && negb (strict_equals ourl (VStr url))
             | None => false
             end
       then None else originalPreviewUrl item;
     originalUrl := ourl;
     processedPreviewUrl :=
       merged_url (get payload "processedPreviewUrl") (processedPreviewUrl item);
     createdAt := createdAt item;
     message := merged_message payload (message item);
     serverId := serverId item;
     processedUrl :=
       if truthy (get payload "processedPreviewUrl") && negb (truthy purl)
       then get payload "processedPreviewUrl" else purl;
     downloadOriginalUrl :=
       merged_url (get payload "downloadOriginalUrl"
                   <||> get payload "originalDownloadUrl") (downloadOriginalUrl item);
     downloadProcessedUrl :=
       merged_url (get payload "downloadProcessedUrl" <||> get payload "downloadUrl"
                   <||> get payload "resultDownloadUrl") (downloadProcessedUrl item) |}.

(** The object URLs that [updateItemFromServer] revokes. *)
Definition revoked_by (item : Item) (payload : JsVal) : list string :=
  match originalPreviewUrl item with
  | Some url =>
      if String.eqb (status (merged item payload)) "processed"
         && (startsWith url "blob:" && truthy (originalUrl (merged item payload))
             && negb (strict_equals (originalUrl (merged item payload)) (VStr url)))
      then [url] else []
  | None => []
  end.

(** ** Progress values in range *)

(** A progress value sent by the server that is not a number below 0 or
    above 100. *)
Definition within_percent (value : JsVal) : bool :=
  match value with
  | VNum (Fin q) => Qle_bool 0 q && Qle_bool q 100
  | VNum NaN => true
  | VNum _ => false
  | _ => true
  end.

(** The progress that a status record carries is in range: [progress] when
    it is a number, [percentage] otherwise. *)
Definition record_in_range (payload : JsVal) : bool :=
  if is_number (get payload "progress") then within_percent (get payload "progress")
  else within_percent (get payload "percentage").

(** The progress values that an event brings from the server are in range. *)
Definition event_in_range (e : Event) : Prop :=
  match e with
  | UploadSettled _ _ (HttpOk payload) =>
      within_percent (get payload "progress") = true
  | PollSettled (HttpOk payload) =>
      Forall (fun entry => record_in_range entry = true)
             (normaliseStatusPayload payload)
  | _ => True
  end.

(** Every item of the queue has an integer between 0 and 100 as progress. *)
Definition progress_ok (w : World) : Prop :=
  Forall (fun item => is_percentage (progress item) = true) (items w).

(** ** The first identifier of a response *)


(** ** The rollback, by position *)

(** The status and message to restore at a position, as a state holds them. *)
Definition restored_from (l0 : list Item) (ref : nat) (item : Item) : Item :=
  match l0 !! ref with
  | Some item0 => set_message (message item0) (set_status (status item0) item)
  | None => item
  end.

(** ** Sample data *)

(** An object with the given properties (each name once). *)
Definition object (fields : list (string * JsVal)) : JsVal :=
  VObj (list_to_map fields).

Definition photo : File :=
  {| File_name := "photo.jpg"; File_size := 2048;
     File_lastModified := 1700000000000; File_type := "image/jpeg" |}.

(** "photo.jpg" is dropped on the page. *)
Definition photo_queued : Event :=
  FileQueued photo "client-1" (Some "blob:preview-1") 1000.

End Engine.

(** The examples fix the rendering of numbers: the one of the script's host
    on [NaN], on the infinities and on the integers it writes in plain
    digits.  No example renders another number. *)
Definition decimal_text (n : number) : string :=
  match n with
  | NaN => "NaN"
  | PosInf => "Infinity"
  | NegInf => "-Infinity"
  | Fin q => NilZero.string_of_int (Z.to_int (Qfloor q))
  end.

(** The messages of the errors, as the V8 engine words them: the one of a
    call of [value.toString] that is not a function, on an object, and the
    one of the conversion of an array of which an element has no text. *)
Definition type_error_text (v : JsVal) : string :=
  match v with
  | VObj _ => "value.toString is not a function"
  | _ => "Cannot convert object to primitive value"
  end.

Definition decimal_host : Host :=
  {| Number_toString := decimal_text; TypeError_message := type_error_text |}.

(** "photo.jpg" is queued and its upload is answered by [payload]. *)
Definition photo_uploaded (payload : JsVal) : World :=
  @run decimal_host initial [photo_queued; UploadSettled 0 1 (HttpOk payload)].

(** The item of "photo.jpg" while it is uploaded, and once the server has
    answered [{id: "abc123", status: "uploaded", progress: 100}]. *)
Definition photo_uploading : Item :=
  {| clientId := "client-1"; name := "photo.jpg"; size := 2048;
     lastModified := 1700000000000; status := "uploading";
     progress := Fin 0; file := Some photo;
     originalPreviewUrl := Some "blob:preview-1";
     originalUrl := VNull; processedPreviewUrl := VNull;
     createdAt := 1000; message := VStr ""; serverId := VNull;
     processedUrl := VNull; downloadOriginalUrl := VNull;
     downloadProcessedUrl := VNull |}.

Definition photo_answer : JsVal :=
  object [("id", VStr "abc123"); ("status", VStr "uploaded");
          ("progress", VNum (Fin 100))].

Definition photo_item : Item :=
  (@uploadFile_success decimal_host photo_uploading photo_answer).1.

(** The upload of "photo.jpg" was answered with the identifier "abc123". *)
Definition photo_ready : World := photo_uploaded photo_answer.

(** While the processing request is pending, a status response reports the
    item as processing, at 40 %, with a location for the result. *)
Definition poll_reports_progress : Event :=
  PollSettled
    (HttpOk (object [("id", VStr "abc123"); ("status", VStr "processing");
                     ("progress", VNum (double (4 # 10)));
                     ("processedUrl", VStr "/files/abc123/processed")])).

(** The item was reported failed, processing was requested again and that
    request failed: the item is failed again while the timer that the
    request started is still running. *)
Definition failed_with_timer : World :=
  @run decimal_host initial
    [photo_queued;
     UploadSettled 0 1
       (HttpOk (object [("id", VStr "abc123"); ("status", VStr "uploaded")]));
     PollSettled
       (HttpOk (VArr [object [("id", VStr "abc123"); ("status", VStr "failed");
                              ("error", VStr "corrupt image")]]));
     ProcessingRequested (Some [VStr "abc123"]) 2;
     ProcessingSettled [(0, "failed", VStr "corrupt image")]
       (NetworkError (VStr "Failed to fetch"))].

(** A status response whose records name no item of the queue. *)
Definition unknown_records : JsVal :=
  VArr [object [("id", VStr "zzz999"); ("status", VStr "done")];
        object [("status", VStr "done"); ("progress", VNum (Fin 1))]].

(** A status record that reports the photo as processed, and the response
    that wraps it in [data]. *)
Definition photo_done : JsVal :=
  object [("id", VStr "abc123"); ("status", VStr "done");
          ("processedUrl", VStr "/files/abc123/processed")].

Definition wrapped_in_data : gmap string JsVal :=
  list_to_map [("data", VArr [photo_done]); ("count", VNum (Fin 1))].

(** The photo is uploaded, processing is requested and the request fails,
    then the photo is reported as processed. *)
Definition processed_after_retry : list Event :=
  [photo_queued;
   UploadSettled 0 1 (HttpOk photo_answer);
   ProcessingRequested (Some [VStr "abc123"]) 2;
   ProcessingSettled [(0, "uploaded", VStr "")] (HttpError "busy");
   PollSettled (HttpOk (VArr [photo_done]))].

(** A selection: a photo, the same photo again, a file that is too large, a
    text file. *)
Definition sample_selection : list Selected :=
  [{| selected_file := photo; selected_id := "client-1";
      selected_preview := Some "blob:preview-1"; selected_now := 1000 |};
   {| selected_file := photo; selected_id := "client-2";
      selected_preview := Some "blob:preview-2"; selected_now := 1001 |};
   {| selected_file :=
        {| File_name := "huge.png"; File_size := 26214401;
           File_lastModified := 1700000000001; File_type := "image/png" |};
      selected_id := "client-3"; selected_preview := None;
      selected_now := 1002 |};
   {| selected_file :=
        {| File_name := "notes.txt"; File_size := 12;
           File_lastModified := 1700000000002; File_type := "text/plain" |};
      selected_id := "client-4"; selected_preview := None;
      selected_now := 1003 |}].

(** A second file, a logo, and the queue once both uploads are answered:
    the photo is "abc123", the logo "def456". *)
Definition logo : File :=
  {| File_name := "logo.png"; File_size := 512;
     File_lastModified := 1700000000500; File_type := "image/png" |}.

Definition two_ready : World :=
  @run decimal_host initial
    [photo_queued;
     FileQueued logo "client-2" None 2000;
     UploadSettled 0 1 (HttpOk photo_answer);
     UploadSettled 1 1 (HttpOk (object [("id", VStr "def456")]))].

Definition logo_item : Item :=
  {| clientId := "client-2"; name := "logo.png"; size := 512;
     lastModified := 1700000000500; status := "uploaded";
     progress := Fin 100; file := None; originalPreviewUrl := None;
     originalUrl := VNull; processedPreviewUrl := VNull;
     createdAt := 2000; message := VStr ""; serverId := VStr "def456";
     processedUrl := VNull; downloadOriginalUrl := VNull;
     downloadProcessedUrl := VNull |}.

(** An object that has no text: it has a property [toString] of its own. *)
Definition textless : JsVal := object [("toString", VNum (Fin 1))].

(** A response to the upload of which the status has no text. *)
Definition answer_without_text : JsVal :=
  object [("id", VStr "abc123"); ("status", textless)].

(** The photo carries the note "Almost done". *)
Definition photo_noted : World :=
  @run decimal_host initial
    [photo_queued;
     UploadSettled 0 1 (HttpOk photo_answer);
     PollSettled
       (HttpOk (object [("id", VStr "abc123"); ("message", VStr "Almost done")]))].

(** Status records for the photo: errors that have no text; a status that
    has no text, with errors that have one. *)
Definition errors_without_text : JsVal :=
  object [("id", VStr "abc123"); ("errors", VArr [textless])].

Definition status_without_text : JsVal :=
  object [("id", VStr "abc123"); ("status", textless);
          ("errors", VArr [VStr "disk full"])].

(** * Properties *)

Section Properties.

Context {host : Host}.

(** ** Rounding and percentages *)

Lemma Math_round_nearest (q : Q) :
  exists z : Z,
    Math_round (Fin q) = num_of_Z z
    /\ (inject_Z z - (1 # 2) <= q)%Q /\ (q < inject_Z z + (1 # 2))%Q.
Proof.
  exists (Qfloor (q + (1 # 2))). split; [reflexivity|].
  pose proof (Qfloor_le (q + (1 # 2))) as Hlo.
  pose proof (Qlt_floor (q + (1 # 2))) as Hhi.
  rewrite inject_Z_plus in Hhi.
  change (inject_Z 1) with 1%Q in Hhi.
  split; lra.
Qed.

Lemma is_percentage_of_Z (z : Z) :
  (0 <= z <= 100)%Z -> is_percentage (num_of_Z z) = true.
Proof.
  intros [Hlo Hhi]. unfold is_percentage, num_of_Z.
  rewrite Qfloor_Z.
  rewrite !andb_true_iff. repeat split.
  - apply Qeq_bool_iff. reflexivity.
  - apply Qle_bool_iff. change 0%Q with (inject_Z 0). now rewrite <- Zle_Qle.
  - apply Qle_bool_iff. change 100%Q with (inject_Z 100). now rewrite <- Zle_Qle.
Qed.

Lemma Math_round_percentage (q : Q) :
  (0 <= q)%Q -> (q <= 100)%Q -> is_percentage (Math_round (Fin q)) = true.
Proof.
  intros Hlo Hhi. unfold Math_round. apply is_percentage_of_Z. split.
  - change 0%Z with (Qfloor (inject_Z 0)) at 1.
    apply Qfloor_resp_le. change (inject_Z 0) with 0%Q. lra.
  - change 100%Z with (Qfloor (inject_Z 100 + (1 # 2))).
    apply Qfloor_resp_le. change (inject_Z 100) with 100%Q. lra.
Qed.

Lemma num_le_Fin (x y : Q) : num_le (Fin x) (Fin y) = true <-> (x <= y)%Q.
Proof. simpl. apply Qle_bool_iff. Qed.

(** *** The rounding of a product *)

Local Open Scope Q_scope.

Lemma Qlog2_le (a : Q) : 0 < a -> 2 ^ Qlog2 a <= a.
Proof.
  intros Ha. unfold Qlog2.
  set (k := (Z.log2 (Qnum a) - Z.log2 (Z.pos (Qden a)))%Z).
  destruct (Qle_bool (2 ^ k) a) eqn:Hk; [now apply Qle_bool_iff|].
  destruct a as [n d]. cbn [Qnum Qden] in *.
  assert (0 < n)%Z as Hn by (unfold Qlt in Ha; cbn in Ha; lia).
  pose proof (Z.log2_spec n Hn) as [Hlo _].
  pose proof (Z.log2_spec (Z.pos d) (Pos2Z.is_pos d)) as [_ Hhi].
  pose proof (Z.log2_nonneg n) as Hln.
  pose proof (Z.log2_nonneg (Z.pos d)) as Hld.
  replace (k - 1)%Z with (Z.log2 n - (Z.log2 (Z.pos d) + 1))%Z by (subst k; lia).
  rewrite Qpower_minus by discriminate.
  rewrite <- !(Zpower_Qpower 2) by lia.
  apply Qle_shift_div_r.
  - change 0 with (inject_Z 0). rewrite <- Zlt_Qlt. lia.
  - unfold Qle, Qmult, inject_Z. cbn [Qnum Qden].
    rewrite Z.mul_1_r, Pos.mul_1_r, Z.add_1_r.
    apply Z.mul_le_mono_nonneg; [apply Z.pow_nonneg| | |]; lia.
Qed.

Lemma Qround_even_near (x : Q) :
  inject_Z (Qround_even x) - (1 # 2) <= x /\ x <= inject_Z (Qround_even x) + (1 # 2).
Proof.
  unfold Qround_even.
  pose proof (Qfloor_le x) as Hlo. pose proof (Qlt_floor x) as Hhi.
  rewrite inject_Z_plus in Hhi. change (inject_Z 1) with 1 in Hhi.
  destruct (Qcompare_spec (x - inject_Z (Qfloor x)) (1 # 2)) as [He|Hl|Hg].
  - destruct (Z.even (Qfloor x)).
    + split; lra.
    + rewrite inject_Z_plus. change (inject_Z 1) with 1. split; lra.
  - split; lra.
  - rewrite inject_Z_plus. change (inject_Z 1) with 1. split; lra.
Qed.

Lemma Qround_even_le (x : Q) (N : Z) : x <= inject_Z N -> (Qround_even x <= N)%Z.
Proof.
  intros Hx. unfold Qround_even.
  pose proof (Qfloor_le x) as Hlo.
  assert (Qfloor x <= N)%Z as Hf.
  { rewrite Zle_Qle. lra. }
  assert (inject_Z (Qfloor x) < x -> (Qfloor x + 1 <= N)%Z) as Hstep.
  { intros Hlt. assert (Qfloor x < N)%Z; [|lia]. rewrite Zlt_Qlt. lra. }
  destruct (Qcompare_spec (x - inject_Z (Qfloor x)) (1 # 2)) as [He|Hl|Hg].
  - destruct (Z.even (Qfloor x)); [exact Hf|]. apply Hstep. lra.
  - exact Hf.
  - apply Hstep. lra.
Qed.

Lemma Qround_even_nonneg (x : Q) : 0 <= x -> (0 <= Qround_even x)%Z.
Proof.
  intros Hx.
  assert (0 <= Qfloor x)%Z as Hf.
  { change 0%Z with (Qfloor (inject_Z 0)). apply Qfloor_resp_le. exact Hx. }
  unfold Qround_even.
  destruct (Qcompare _ _); [destruct (Z.even _)| |]; lia.
Qed.

Lemma Qpower_2_pos (e : Z) : 0 < 2 ^ e.
Proof. apply Qpower_0_lt. reflexivity. Qed.

Lemma Qabs_of_nonneg (q : Q) : 0 <= q -> Qabs q = q.
Proof.
  destruct q as [n d]. unfold Qle. cbn. intros Hn.
  rewrite Z.abs_eq by lia. reflexivity.
Qed.

Lemma Qabs_of_nonpos (q : Q) : q <= 0 -> Qabs q = - q.
Proof.
  destruct q as [n d]. unfold Qle. cbn. intros Hn.
  rewrite Z.abs_neq by lia. reflexivity.
Qed.

(** A number between 0 and 100 is rounded to a double between 0 and 100. *)
Lemma round_double_percent (q : Q) :
  0 <= q -> q <= 100 ->
  exists r, round_double q = Fin r /\ 0 <= r /\ r <= 100.
Proof.
  intros Hlo Hhi. unfold round_double.
  destruct (Qeq_bool q 0) eqn:Hz; [exists 0; repeat split; lra|].
  apply Qeq_bool_neq in Hz.
  assert (0 < q) as Hpos
    by (destruct (Qlt_le_dec 0 q) as [H|H]; [exact H|]; exfalso; apply Hz; lra).
  rewrite (Qabs_of_nonneg q) by exact Hlo.
  set (e := ulp_exponent q).
  assert (e <= -46)%Z as He.
  { assert (Qlog2 q <= 6)%Z; [|subst e; unfold ulp_exponent; lia].
    apply Z.lt_succ_r. apply (Qpower_lt_compat_l_inv 2); [|reflexivity].
    apply Qle_lt_trans with q; [now apply Qlog2_le|].
    apply Qle_lt_trans with 100; [exact Hhi|reflexivity]. }
  pose proof (Qpower_2_pos e) as Hpe.
  set (m := Qround_even (q / 2 ^ e)).
  assert (0 <= m)%Z as Hm0.
  { apply Qround_even_nonneg. apply Qle_shift_div_l; [exact Hpe|lra]. }
  assert (inject_Z m * 2 ^ e <= 100) as Hr.
  { assert (m <= 100 * 2 ^ (- e))%Z as Hm.
    { apply Qround_even_le.
      rewrite inject_Z_mult, Zpower_Qpower by lia. rewrite Qpower_opp.
      change (inject_Z 100) with 100. change (inject_Z 2) with 2.
      unfold Qdiv. apply Qmult_le_compat_r; [exact Hhi|].
      apply Qinv_le_0_compat. lra. }
    rewrite Zle_Qle in Hm.
    rewrite inject_Z_mult, Zpower_Qpower, Qpower_opp in Hm by lia.
    change (inject_Z 100) with 100 in Hm. change (inject_Z 2) with 2 in Hm.
    apply (Qmult_le_compat_r _ _ (2 ^ e)) in Hm; [|lra].
    rewrite <- Qmult_assoc in Hm.
    rewrite (Qmult_comm (/ 2 ^ e)), Qmult_inv_r, Qmult_1_r in Hm by lra.
    exact Hm. }
  assert (0 <= inject_Z m * 2 ^ e) as Hr0.
  { apply Qmult_le_0_compat; [|lra]. change 0 with (inject_Z 0).
    now rewrite <- Zle_Qle. }
  assert (Qle_bool (2 ^ 1024) (inject_Z m * 2 ^ e) = false) as ->.
  { apply not_true_iff_false. rewrite Qle_bool_iff. intros Hbig.
    assert (2 ^ 7 <= 100) as Habs.
    { apply Qle_trans with (2 ^ 1024); [|lra].
      apply Qpower_le_compat_l; [lia|discriminate]. }
    revert Habs. apply Qlt_not_le. reflexivity. }
  assert (Qle_bool 0 q = true) as -> by now apply Qle_bool_iff.
  eexists. split; [reflexivity|]. split; assumption.
Qed.

Lemma round_near (a : Q) :
  0 < a ->
  let r := inject_Z (Qround_even (a / 2 ^ ulp_exponent a)) * 2 ^ ulp_exponent a in
  Qabs (r - a) <= a * 2 ^ (-53) \/ Qabs (r - a) <= 2 ^ (-1075).
Proof.
  intros Ha r.
  pose proof (Qpower_2_pos (ulp_exponent a)) as Hpe.
  assert (Qabs (r - a) <= 2 ^ ulp_exponent a * (1 # 2)) as Hhalf.
  { destruct (Qround_even_near (a / 2 ^ ulp_exponent a)) as [Hlo Hhi].
    apply (Qmult_le_compat_r _ _ (2 ^ ulp_exponent a)) in Hlo; [|lra].
    apply (Qmult_le_compat_r _ _ (2 ^ ulp_exponent a)) in Hhi; [|lra].
    assert (a / 2 ^ ulp_exponent a * 2 ^ ulp_exponent a == a) as Hx
      by (field; lra).
    rewrite Hx in Hlo, Hhi. fold r in Hlo, Hhi.
    apply Qabs_Qle_condition. subst r. split; lra. }
  unfold ulp_exponent in *.
  destruct (Z.max_spec (Qlog2 a) (-1022)) as [[Hsmall Hmax]|[Hnormal Hmax]];
    rewrite Hmax in Hhalf.
  - right. eapply Qle_trans; [exact Hhalf|]. vm_compute. discriminate.
  - left. eapply Qle_trans; [exact Hhalf|].
    replace (Qlog2 a - 52)%Z with (Qlog2 a + -52)%Z by lia.
    rewrite Qpower_plus by discriminate.
    pose proof (Qlog2_le a Ha) as Hlog.
    assert (2 ^ (-52) * (1 # 2) == 2 ^ (-53)) as Hc by reflexivity.
    rewrite <- Qmult_assoc, Hc.
    apply Qmult_le_compat_r; [exact Hlog|]. discriminate.
Qed.

(** The double a number is rounded to is within half a unit in the last
    place: the relative error is at most 2^-53, or the absolute error is at
    most 2^-1075 (for a number below the normal range). *)
Lemma round_double_near (q p : Q) :
  round_double q = Fin p ->
  Qabs (p - q) <= Qabs q * 2 ^ (-53) \/ Qabs (p - q) <= 2 ^ (-1075).
Proof.
  unfold round_double.
  destruct (Qeq_bool q 0) eqn:Hz.
  { apply Qeq_bool_iff in Hz. intros [= <-]. right.
    rewrite Hz. discriminate. }
  apply Qeq_bool_neq in Hz.
  destruct (Qle_bool (2 ^ 1024) _); [destruct (Qle_bool 0 q); discriminate|].
  destruct (Qlt_le_dec 0 q) as [Hpos|Hneg].
  - assert (Qle_bool 0 q = true) as -> by (apply Qle_bool_iff; lra).
    rewrite (Qabs_of_nonneg q) by lra. intros [= <-].
    now apply round_near.
  - assert (Qle_bool 0 q = false) as ->.
    { apply not_true_iff_false. rewrite Qle_bool_iff. intros H. apply Hz. lra. }
    rewrite (Qabs_of_nonpos q) by exact Hneg. intros [= <-].
    assert (0 < - q) as Ha.
    { destruct (Qlt_le_dec 0 (- q)) as [H|H]; [exact H|]. exfalso. apply Hz. lra. }
    destruct (round_near (- q) Ha) as [H|H]; [left|right];
      (eapply Qle_trans; [|exact H]);
      rewrite <- Qabs_opp; apply Qle_lteq; right; apply Qabs_wd; ring.
Qed.

Lemma round_double_defined (q : Q) : round_double q <> NaN.
Proof.
  unfold round_double. destruct (Qeq_bool q 0); [discriminate|].
  destruct (Qle_bool (2 ^ 1024) _); [destruct (Qle_bool 0 q)|]; discriminate.
Qed.

Local Close Scope Q_scope.

(** A number that is already a percentage is normalised to a percentage,
    whether it is meant as a fraction or as a percentage. *)
Lemma normaliseProgress_percentage (q : Q) :
  (0 <= q)%Q -> (q <= 100)%Q ->
  is_percentage (normaliseProgress (VNum (Fin q))) = true.
Proof.
  intros Hlo Hhi. unfold normaliseProgress. simpl Number_isNaN. cbv iota.
  destruct (num_le (Fin q) (Fin 1)) eqn:Hle.
  - apply num_le_Fin in Hle. cbn [num_times100].
    destruct (round_double_percent (q * 100)%Q) as (r & -> & Hr0 & Hr100);
      [lra..|].
    now apply Math_round_percentage.
  - apply Math_round_percentage; assumption.
Qed.

Lemma normaliseProgress_not_number (v : JsVal) :
  is_number v = false -> normaliseProgress v = Fin 0.
Proof. destruct v; simpl; congruence. Qed.

(** ** The blocks of the merge as unconditional assignments *)

Lemma merge_status_eq nextStatus item :
  merge_status nextStatus item = set_status (status_or nextStatus (status item)) item.
Proof.
  unfold merge_status, status_or. destruct item.
  destruct nextStatus as [t|]; [destruct (String.eqb t "")|]; reflexivity.
Qed.

Lemma merge_progress_eq payload item :
  merge_progress payload item
  = set_progress (merged_progress payload (progress item)) item.
Proof.
  unfold merge_progress, merged_progress. destruct item.
  destruct (is_number (get payload "progress"));
    [|destruct (is_number (get payload "percentage"))]; reflexivity.
Qed.

Lemma merge_originalUrl_eq payload item :
  merge_originalUrl payload item
  = set_originalUrl
      (merged_url (get payload "originalUrl" <||> get payload "sourceUrl"
                   <||> get payload "thumbnailUrl") (originalUrl item)) item.
Proof.
  unfold merge_originalUrl, merged_url. destruct item.
  destruct (truthy _); reflexivity.
Qed.

Lemma merge_processedUrl_eq payload item :
  merge_processedUrl payload item
  = set_processedUrl
      (merged_url (get payload "processedUrl" <||> get payload "resultUrl"
                   <||> get payload "previewUrl") (processedUrl item)) item.
Proof.
  unfold merge_processedUrl, merged_url. destruct item.
  destruct (truthy _); reflexivity.
Qed.

Lemma merge_processedPreviewUrl_eq payload item :
  merge_processedPreviewUrl payload item
  = set_processedUrl
      (if truthy (get payload "processedPreviewUrl") && negb (truthy (processedUrl item))
       then get payload "processedPreviewUrl" else processedUrl item)
      (set_processedPreviewUrl
         (merged_url (get payload "processedPreviewUrl") (processedPreviewUrl item))
         item).
Proof.
  unfold merge_processedPreviewUrl, merged_url. destruct item. simpl.
  destruct (truthy (get payload "processedPreviewUrl")); simpl;
    [destruct (truthy processedUrl0)|]; reflexivity.
Qed.

Lemma merge_downloadOriginalUrl_eq payload item :
  merge_downloadOriginalUrl payload item
  = set_downloadOriginalUrl
      (merged_url (get payload "downloadOriginalUrl"
                   <||> get payload "originalDownloadUrl")
                  (downloadOriginalUrl item)) item.
Proof.
  unfold merge_downloadOriginalUrl, merged_url. destruct item.
  destruct (truthy _); reflexivity.
Qed.

Lemma merge_downloadProcessedUrl_eq payload item :
  merge_downloadProcessedUrl payload item
  = set_downloadProcessedUrl
      (merged_url (get payload "downloadProcessedUrl" <||> get payload "downloadUrl"
                   <||> get payload "resultDownloadUrl")
                  (downloadProcessedUrl item)) item.
Proof.
  unfold merge_downloadProcessedUrl, merged_url. destruct item.
  destruct (truthy _); reflexivity.
Qed.

Lemma merge_errors_eq payload item :
  merge_errors payload item
  = (set_message (merged_message payload (message item))
       (set_status (if reports_failure payload then "failed" else status item) item),
     errors_error payload).
Proof.
  unfold merge_errors, merged_message, reports_failure, errors_error.
  destruct item.
  destruct (get payload "errors") as [| | | | |[|e es]|];
    try destruct (Array_join " " (e :: es));
    destruct (truthy (get payload "error"));
    try destruct (truthy (get payload "message")); reflexivity.
Qed.

Lemma errors_error_failure payload error_message :
  errors_error payload = Some error_message -> reports_failure payload = true.
Proof.
  unfold errors_error, reports_failure.
  now destruct (get payload "errors") as [| | | | |[|e es]|].
Qed.

Lemma settle_processed_eq item :
  settle_processed item
  = (set_originalPreviewUrl
       (if preview_revoked item then None else originalPreviewUrl item)
       (set_progress
          (if String.eqb (status item) "processed" then Fin 100 else progress item)
          item),
     if preview_revoked item
     then match originalPreviewUrl item with Some url => [url] | None => [] end
     else []).
Proof.
  unfold settle_processed, preview_revoked. destruct item. simpl.
  destruct (String.eqb status0 "processed"); simpl; [|reflexivity].
  destruct originalPreviewUrl0 as [url|]; simpl; [|reflexivity].
  destruct (startsWith url "blob:" && truthy originalUrl0
            && negb (strict_equals originalUrl0 (VStr url))); reflexivity.
Qed.

Ltac item_simpl :=
  cbn [set_status set_progress set_file set_originalPreviewUrl set_originalUrl
       set_processedPreviewUrl set_message set_serverId set_processedUrl
       set_downloadOriginalUrl set_downloadProcessedUrl
       clientId name size lastModified status progress file originalPreviewUrl
       originalUrl processedPreviewUrl createdAt message serverId processedUrl
       downloadOriginalUrl downloadProcessedUrl fst snd].

(** ** The merge in closed form *)

Lemma updateItemFromServer_falsy item payload :
  truthy payload = false -> updateItemFromServer item payload = (item, [], None).
Proof. intros Hp. unfold updateItemFromServer. now rewrite Hp. Qed.

(** [normaliseStatus] throws: the item is as it was. *)
Lemma updateItemFromServer_throws item payload error_message :
  truthy payload = true ->
  normaliseStatus (status_field payload) = Throws error_message ->
  updateItemFromServer item payload = (item, [], Some error_message).
Proof.
  intros Hp Hs. unfold updateItemFromServer. rewrite Hp. cbn [negb].
  fold (status_field payload). now rewrite Hs.
Qed.

(** [normaliseStatus] returns: the item is the merged one, also when the
    errors block throws, which leaves the item "failed" and so untouched by
    the last block. *)
Lemma updateItemFromServer_merged item payload nextStatus :
  truthy payload = true ->
  normaliseStatus (status_field payload) = Returns nextStatus ->
  updateItemFromServer item payload
  = (merged item payload, revoked_by item payload, errors_error payload).
Proof.
  intros Hp Hs. unfold updateItemFromServer. rewrite Hp. cbn [negb].
  fold (status_field payload). rewrite Hs.
  destruct item.
  rewrite merge_status_eq; item_simpl.
  rewrite merge_progress_eq; item_simpl.
  rewrite merge_originalUrl_eq; item_simpl.
  rewrite merge_processedUrl_eq; item_simpl.
  rewrite merge_processedPreviewUrl_eq; item_simpl.
  rewrite merge_downloadOriginalUrl_eq; item_simpl.
  rewrite merge_downloadProcessedUrl_eq; item_simpl.
  rewrite merge_errors_eq; item_simpl.
  destruct (errors_error payload) as [error_message|] eqn:He.
  - apply errors_error_failure in He.
    unfold revoked_by, merged, merged_status; item_simpl. rewrite He.
    cbn [String.eqb Ascii.eqb Bool.eqb andb].
    destruct originalPreviewUrl0; reflexivity.
  - rewrite settle_processed_eq;
      unfold preview_revoked, revoked_by, merged, merged_status;
      item_simpl. rewrite Hs.
    destruct originalPreviewUrl0 as [url|].
    + match goal with |- context [if ?c then None else Some url] => destruct c end;
        reflexivity.
    + rewrite andb_false_r. reflexivity.
Qed.

(** The three ways in which [updateItemFromServer] ends. *)
Lemma updateItemFromServer_cases item payload :
  updateItemFromServer item payload = (item, [], update_error payload)
  \/ (truthy payload = true
      /\ (exists nextStatus, normaliseStatus (status_field payload) = Returns nextStatus)
      /\ updateItemFromServer item payload
         = (merged item payload, revoked_by item payload, update_error payload)).
Proof.
  unfold update_error.
  destruct (truthy payload) eqn:Hp; cbn [negb].
  - destruct (normaliseStatus (status_field payload)) as [nextStatus|error_message]
      eqn:Hs.
    + right. split; [reflexivity|]. split; [now exists nextStatus|].
      now apply updateItemFromServer_merged with nextStatus.
    + left. now apply updateItemFromServer_throws.
  - left. now apply updateItemFromServer_falsy.
Qed.

Lemma updateItemFromServer_error item payload :
  (updateItemFromServer item payload).2 = update_error payload.
Proof.
  destruct (updateItemFromServer_cases item payload) as [->|(_ & _ & ->)];
    reflexivity.
Qed.

Lemma status_or_idem s old : status_or s (status_or s old) = status_or s old.
Proof.
  unfold status_or. destruct s as [t|]; [destruct (String.eqb t "")|]; reflexivity.
Qed.

Lemma merged_status_idem item payload :
  status (merged (merged item payload) payload) = status (merged item payload).
Proof.
  unfold merged, merged_status. item_simpl.
  destruct (reports_failure payload); [reflexivity|].
  destruct (normaliseStatus (status_field payload)); [apply status_or_idem|reflexivity].
Qed.

Lemma merged_idem item payload :
  merged (merged item payload) payload = merged item payload.
Proof.
  pose proof (merged_status_idem item payload) as Hst. revert Hst.
  destruct item. unfold merged. item_simpl.
  set (st := if reports_failure payload then "failed" else merged_status _ status0).
  intros ->.
  f_equal.
  all: try reflexivity.
  all: unfold merged_url, merged_progress, merged_message.
  all: repeat case_match; try reflexivity; congruence.
Qed.

Lemma revoked_by_merged item payload : revoked_by (merged item payload) payload = [].
Proof.
  unfold revoked_by. rewrite merged_idem.
  destruct (originalPreviewUrl (merged item payload)) as [url|] eqn:Hurl;
    [|reflexivity].
  revert Hurl. unfold merged at 1. item_simpl.
  destruct (originalPreviewUrl item) as [url0|].
  - fold (merged item payload).
    change (merged_url _ (originalUrl item)) with (originalUrl (merged item payload)).
    change (if reports_failure payload then _ else _) with (status (merged item payload)).
    destruct (String.eqb (status (merged item payload)) "processed"
              && (startsWith url0 "blob:"
                  && truthy (originalUrl (merged item payload))
                  && negb (strict_equals (originalUrl (merged item payload)) (VStr url0))))
      eqn:Hc; [discriminate|].
    intros [= <-]. rewrite Hc. reflexivity.
  - rewrite andb_false_r. discriminate.
Qed.

(** C9: applying one update record to an item twice in succession leaves the
    item that applying it once leaves (and the second application revokes no
    object URL). *)
Theorem updateItemFromServer_idempotent item payload :
  updateItemFromServer (updateItemFromServer item payload).1.1 payload
  = ((updateItemFromServer item payload).1.1, [],
     (updateItemFromServer item payload).2).
Proof.
  destruct (updateItemFromServer_cases item payload)
    as [Hsame|(Hp & (nextStatus & Hs) & Hmerged)].
  - rewrite Hsame. cbn [fst snd]. exact Hsame.
  - rewrite Hmerged. cbn [fst snd].
    rewrite (updateItemFromServer_merged _ _ nextStatus) by assumption.
    rewrite merged_idem, revoked_by_merged.
    unfold update_error. now rewrite Hp, Hs.
Qed.

(** ** Failures reported by a status record *)

(** C6, as the script has it: in an update record that is applied and of
    which the status has a text (or is absent), a non-empty [errors] list
    makes the item [failed] and, when the errors have a text, replaces its
    message by the errors joined with a space; errors without text leave the
    message as it was.  With no such list, a truthy [error] makes the item
    [failed] and replaces its message, whatever progress the record carries;
    with neither, a [message] replaces the message and the status is the one
    the record's status field gives, the item's own when the record has
    none.  A record of which the status has no text leaves the item as it
    was. *)
Theorem update_errors_force_failed item payload :
  truthy payload = true ->
  let item' := (updateItemFromServer item payload).1.1 in
  match normaliseStatus (status_field payload) with
  | Throws _ => item' = item
  | Returns nextStatus =>
      (forall e es,
          get payload "errors" = VArr (e :: es) ->
          status item' = "failed"
          /\ message item'
             = match Array_join " " (e :: es) with
               | Some text => VStr text
               | None => message item
               end)
      /\ ((forall e es, get payload "errors" <> VArr (e :: es)) ->
          truthy (get payload "error") = true ->
          status item' = "failed" /\ message item' = get payload "error")
      /\ ((forall e es, get payload "errors" <> VArr (e :: es)) ->
          truthy (get payload "error") = false ->
          truthy (get payload "message") = true ->
          message item' = get payload "message"
          /\ status item' = status_or nextStatus (status item)
          /\ (truthy (status_field payload) = false -> status item' = status item))
  end.
Proof.
  intros Hp item'. subst item'.
  destruct (normaliseStatus (status_field payload)) as [nextStatus|error_message]
    eqn:Hs.
  2: now rewrite (updateItemFromServer_throws _ _ error_message).
  rewrite (updateItemFromServer_merged _ _ nextStatus) by assumption. cbn [fst].
  unfold merged, merged_status. item_simpl. rewrite Hs.
  unfold reports_failure, merged_message.
  split; [|split].
  - intros e es ->. split; reflexivity.
  - intros Hne Herr.
    destruct (get payload "errors") as [| | | | |[|e es]|];
      try (rewrite Herr; split; reflexivity).
    now destruct (Hne e es).
  - intros Hne Herr Hmsg.
    destruct (get payload "errors") as [| | | | |[|e es]|];
      try (rewrite Herr, Hmsg; split; [reflexivity|split; [reflexivity|]];
           intros Hfalsy; revert Hs; unfold normaliseStatus; rewrite Hfalsy;
           now intros [= <-]).
    now destruct (Hne e es).
Qed.

(** ** The polling loop stops itself *)

Lemma filter_none {A} (f : A -> bool) (l : list A) :
  Forall (fun x => f x = false) l -> List.filter f l = [].
Proof.
  induction 1 as [|x l Hx _ IH]; [reflexivity|].
  cbn [List.filter]. now rewrite Hx.
Qed.

Lemma stopPolling_timer w : pollTimer (stopPolling w) = None.
Proof. unfold stopPolling. destruct (pollTimer w) eqn:Ht; cbn; [reflexivity|exact Ht]. Qed.

Lemma stopPolling_items w : items (stopPolling w) = items w.
Proof. unfold stopPolling. destruct (pollTimer w); reflexivity. Qed.

Lemma stopPolling_fetches w : fetches (stopPolling w) = fetches w.
Proof. unfold stopPolling. destruct (pollTimer w); reflexivity. Qed.

Lemma stopPolling_batchDownloadUrl w :
  batchDownloadUrl (stopPolling w) = batchDownloadUrl w.
Proof. unfold stopPolling. destruct (pollTimer w); reflexivity. Qed.

Lemma stopPolling_clears w timer :
  pollTimer w = Some timer -> ~ In timer (intervals (stopPolling w)).
Proof.
  intros Ht. unfold stopPolling. rewrite Ht. cbn.
  rewrite filter_In. intros [_ Hne]. now rewrite Pos.eqb_refl in Hne.
Qed.

Lemma shouldPoll_settled item :
  status item = "processed" \/ status item = "failed"
  \/ truthy (serverId item) = false ->
  shouldPoll item = false.
Proof.
  unfold shouldPoll. intros [-> | [-> | ->]]; cbn; try reflexivity;
    apply andb_false_r.
Qed.

(** C7: a pass that finds no item to poll (as when every item is processed,
    failed or without server identifier) stops the loop: the interval timer
    is cleared, [pollErrorNotified] is reset, and no request is issued. *)
Theorem pollStatuses_stops_when_idle w :
  Forall (fun item => shouldPoll item = false) (items w) ->
  pollStatuses_start w = stopPolling w
  /\ fetches (pollStatuses_start w) = fetches w
  /\ pollTimer (pollStatuses_start w) = None
  /\ (forall timer, pollTimer w = Some timer ->
                    ~ In timer (intervals (pollStatuses_start w)))
  /\ pollErrorNotified (pollStatuses_start w) = false
  /\ items (pollStatuses_start w) = items w.
Proof.
  intros Hidle.
  assert (pollStatuses_start w = stopPolling w) as ->.
  { unfold pollStatuses_start. now rewrite filter_none. }
  repeat split.
  - apply stopPolling_fetches.
  - apply stopPolling_timer.
  - apply stopPolling_clears.
  - apply stopPolling_items.
Qed.

Lemma settled_items_idle (l : list Item) :
  Forall (fun item => status item = "processed" \/ status item = "failed"
                      \/ truthy (serverId item) = false) l ->
  Forall (fun item => shouldPoll item = false) l.
Proof.
  intros H. eapply Forall_impl; [exact H|]. exact shouldPoll_settled.
Qed.

(** ** The processing request on an empty list *)

(** C10: [requestProcessing] on an absent or empty list of identifiers takes
    no snapshot and leaves the whole state as it is: no item is touched and
    no request is issued. *)
Theorem requestProcessing_empty_is_noop timer w :
  requestProcessing_start None timer w = ([], w)
  /\ requestProcessing_start (Some []) timer w = ([], w).
Proof. split; reflexivity. Qed.

(** ** What each operation leaves alone *)

Lemma pollStatuses_start_items w : items (pollStatuses_start w) = items w.
Proof.
  unfold pollStatuses_start.
  destruct (List.map serverId (List.filter shouldPoll (items w)));
    [apply stopPolling_items|now destruct (forallb _ _)].
Qed.

Lemma pollStatuses_start_batchDownloadUrl w :
  batchDownloadUrl (pollStatuses_start w) = batchDownloadUrl w.
Proof.
  unfold pollStatuses_start.
  destruct (List.map serverId (List.filter shouldPoll (items w)));
    [apply stopPolling_batchDownloadUrl|now destruct (forallb _ _)].
Qed.

Lemma ensurePolling_items timer w : items (ensurePolling timer w) = items w.
Proof.
  unfold ensurePolling. destruct (pollTimer w); [reflexivity|].
  destruct (negb (existsb shouldPoll (items w))); [reflexivity|].
  cbn. apply pollStatuses_start_items.
Qed.

Lemma ensurePolling_batchDownloadUrl timer w :
  batchDownloadUrl (ensurePolling timer w) = batchDownloadUrl w.
Proof.
  unfold ensurePolling. destruct (pollTimer w); [reflexivity|].
  destruct (negb (existsb shouldPoll (items w))); [reflexivity|].
  cbn. apply pollStatuses_start_batchDownloadUrl.
Qed.

Lemma uploadFile_start_batchDownloadUrl ref w :
  batchDownloadUrl (uploadFile_start ref w) = batchDownloadUrl w.
Proof.
  unfold uploadFile_start.
  destruct (items w !! ref) as [item|]; [|reflexivity].
  destruct (file item); reflexivity.
Qed.

Lemma uploadFile_resume_batchDownloadUrl ref timer o w :
  batchDownloadUrl (uploadFile_resume ref timer o w) = batchDownloadUrl w.
Proof.
  unfold uploadFile_resume.
  destruct (items w !! ref) as [item|]; [|reflexivity].
  destruct o as [m|text|payload]; try reflexivity.
  destruct (uploadFile_success item payload) as [item' [error_message|]];
    [reflexivity|].
  now rewrite ensurePolling_batchDownloadUrl.
Qed.

Lemma requestProcessing_start_batchDownloadUrl ids timer w :
  batchDownloadUrl (requestProcessing_start ids timer w).2 = batchDownloadUrl w.
Proof.
  unfold requestProcessing_start.
  destruct ids as [[|id ids]|]; try reflexivity.
  cbn [snd fetch]. cbn. now rewrite ensurePolling_batchDownloadUrl.
Qed.

(** What every record of a response keeps holds once the records are
    applied, whether the last one throws or not. *)
Lemma apply_updates_invariant (P : World * JsVal -> Prop) updates acc :
  (forall acc entry, P acc -> P (apply_update acc entry).1) ->
  P acc -> P (apply_updates acc updates).1.
Proof.
  intros Hstep. revert acc.
  induction updates as [|entry updates IH]; intros acc Hacc; [exact Hacc|].
  cbn [apply_updates]. specialize (Hstep acc entry Hacc).
  destruct (apply_update acc entry) as [acc' [error_message|]];
    [exact Hstep|now apply IH].
Qed.

Lemma apply_update_batchDownloadUrl acc entry :
  batchDownloadUrl (apply_update acc entry).1.1 = batchDownloadUrl acc.1.
Proof.
  destruct acc as [w z]. unfold apply_update.
  destruct (negb (truthy _)); [reflexivity|].
  destruct (find _ (items w)) as [[ref item]|]; [|reflexivity].
  destruct (updateItemFromServer _ entry) as [[item' urls] [error_message|]];
    reflexivity.
Qed.

Lemma apply_updates_batchDownloadUrl updates acc :
  batchDownloadUrl (apply_updates acc updates).1.1 = batchDownloadUrl acc.1.
Proof.
  apply (apply_updates_invariant
           (fun a => batchDownloadUrl a.1 = batchDownloadUrl acc.1));
    [|reflexivity].
  intros a entry <-. apply apply_update_batchDownloadUrl.
Qed.

(** [latestZipUrl] starts as [null] and only ever receives a truthy value. *)
Lemma apply_update_latest acc entry :
  (acc.2 = VNull \/ truthy acc.2 = true) ->
  ((apply_update acc entry).1.2 = VNull
   \/ truthy (apply_update acc entry).1.2 = true).
Proof.
  destruct acc as [w z]. unfold apply_update. cbn [snd]. intros Hz.
  destruct (negb (truthy _)); [exact Hz|].
  destruct (find _ (items w)) as [[ref item]|]; [|exact Hz].
  destruct (updateItemFromServer _ entry) as [[item' urls] [error_message|]];
    cbn [fst snd]; [exact Hz|].
  destruct (truthy (get entry "zipUrl")) eqn:Hzip; [now right|exact Hz].
Qed.

Lemma apply_updates_latest updates acc :
  (acc.2 = VNull \/ truthy acc.2 = true) ->
  ((apply_updates acc updates).1.2 = VNull
   \/ truthy (apply_updates acc updates).1.2 = true).
Proof.
  apply (apply_updates_invariant (fun a => a.2 = VNull \/ truthy a.2 = true)).
  intros a entry. apply apply_update_latest.
Qed.

Lemma pollStatuses_catch_frame w :
  items (pollStatuses_catch w) = items w
  /\ pollTimer (pollStatuses_catch w) = pollTimer w
  /\ intervals (pollStatuses_catch w) = intervals w
  /\ batchDownloadUrl (pollStatuses_catch w) = batchDownloadUrl w
  /\ fetches (pollStatuses_catch w) = fetches w.
Proof.
  unfold pollStatuses_catch. now destruct (negb (pollErrorNotified w)).
Qed.

Lemma pollStatuses_resume_batchDownloadUrl o w :
  batchDownloadUrl (pollStatuses_resume o w) = batchDownloadUrl w
  \/ truthy (batchDownloadUrl (pollStatuses_resume o w)) = true.
Proof.
  unfold pollStatuses_resume. destruct o as [m|text|payload].
  1,2: left; apply pollStatuses_catch_frame.
  pose proof (apply_updates_batchDownloadUrl (normaliseStatusPayload payload)
                (set_pollErrorNotified false w, VNull)) as Hb.
  pose proof (apply_updates_latest (normaliseStatusPayload payload)
                (set_pollErrorNotified false w, VNull) (or_introl eq_refl)) as Hz.
  destruct (apply_updates _ _) as [[w2 z] [error_message|]]; cbn [fst snd] in Hb, Hz;
    cbn [batchDownloadUrl set_pollErrorNotified] in Hb.
  { left. destruct (pollStatuses_catch_frame w2) as (_ & _ & _ & -> & _).
    exact Hb. }
  set (latest := if truthy (get payload "zipUrl") then get payload "zipUrl" else z).
  assert (truthy latest = true \/ latest = VNull) as [Hl|Hl].
  { subst latest. destruct (truthy (get payload "zipUrl")) eqn:Hzip; [now left|].
    destruct Hz; [now right|now left]. }
  - right. rewrite Hl.
    destruct (negb (existsb shouldPoll _));
      [rewrite stopPolling_batchDownloadUrl|]; exact Hl.
  - left. rewrite Hl. cbn [truthy].
    destruct (negb (existsb shouldPoll _));
      [rewrite stopPolling_batchDownloadUrl|]; exact Hb.
Qed.

(** ** The batch archive location *)

(** C4, as the script has it: queueing a file resets [batchDownloadUrl] to
    [null]; every other operation leaves it as it is or replaces it by a
    truthy location, and only a processing response or a status response
    that arrived replaces it. *)
Theorem batchDownloadUrl_cleared_only_by_queueFile w e :
  match e with
  | FileQueued _ _ _ _ => batchDownloadUrl (step w e) = VNull
  | ProcessingSettled _ (HttpOk _) | PollSettled (HttpOk _) =>
      batchDownloadUrl (step w e) = batchDownloadUrl w
      \/ truthy (batchDownloadUrl (step w e)) = true
  | _ => batchDownloadUrl (step w e) = batchDownloadUrl w
  end.
Proof.
  destruct e as [f id previewUrl now|ref timer o|ids timer|snapshots o| |o];
    cbn [step].
  - unfold queueFile. now rewrite uploadFile_start_batchDownloadUrl.
  - apply uploadFile_resume_batchDownloadUrl.
  - apply requestProcessing_start_batchDownloadUrl.
  - destruct o as [m|text|payload]; try reflexivity.
    cbn [requestProcessing_resume].
    destruct (truthy (get payload "zipUrl")) eqn:Hzip; [now right|now left].
  - apply pollStatuses_start_batchDownloadUrl.
  - destruct o as [m|text|payload].
    3: apply pollStatuses_resume_batchDownloadUrl.
    all: cbn [pollStatuses_resume]; apply pollStatuses_catch_frame.
Qed.

(** ** Items stay where they are

    No operation removes or moves an item: the array only grows, so a
    position keeps denoting the same item. *)

Lemma uploadFile_start_length ref w :
  length (items (uploadFile_start ref w)) = length (items w).
Proof.
  unfold uploadFile_start.
  destruct (items w !! ref) as [item|]; [|reflexivity].
  destruct (file item); [|reflexivity].
  cbn. apply length_insert.
Qed.

Lemma mark_all_length (snapshots : list Snapshot) (l : list Item) :
  length (foldl (fun l (sn : Snapshot) => alter mark_processing sn.1.1 l) l snapshots)
  = length l.
Proof.
  revert l. induction snapshots as [|sn snapshots IH]; intros l; [reflexivity|].
  cbn [foldl]. rewrite IH. apply length_alter.
Qed.

Lemma restore_length sn (l : list Item) : length (restore sn l) = length l.
Proof. destruct sn as [[ref st] msg]. apply length_alter. Qed.

Lemma restore_all_length (snapshots : list Snapshot) (l : list Item) :
  length (foldl (fun l sn => restore sn l) l snapshots) = length l.
Proof.
  revert l. induction snapshots as [|sn snapshots IH]; intros l; [reflexivity|].
  cbn [foldl]. rewrite IH. apply restore_length.
Qed.

Lemma apply_update_length acc entry :
  length (items (apply_update acc entry).1.1) = length (items acc.1).
Proof.
  destruct acc as [w z]. unfold apply_update.
  destruct (negb (truthy _)); [reflexivity|].
  destruct (find _ (items w)) as [[ref item]|]; [|reflexivity].
  destruct (updateItemFromServer _ entry) as [[item' urls] [error_message|]];
    cbn; apply length_insert.
Qed.

Lemma apply_updates_length updates acc :
  length (items (apply_updates acc updates).1.1) = length (items acc.1).
Proof.
  apply (apply_updates_invariant
           (fun a => length (items a.1) = length (items acc.1)));
    [|reflexivity].
  intros a entry <-. apply apply_update_length.
Qed.

(** The items that a status response leaves are those that its records
    leave. *)
Lemma pollStatuses_resume_items payload w :
  items (pollStatuses_resume (HttpOk payload) w)
  = items (apply_updates (set_pollErrorNotified false w, VNull)
             (normaliseStatusPayload payload)).1.1.
Proof.
  unfold pollStatuses_resume.
  destruct (apply_updates _ _) as [[w2 z] [error_message|]]; cbn [fst].
  - apply pollStatuses_catch_frame.
  - set (w3 := if truthy _ then _ else w2).
    assert (items w3 = items w2) as Hw3 by (subst w3; destruct (truthy _); reflexivity).
    destruct (negb (existsb shouldPoll (items w3)));
      [now rewrite stopPolling_items|exact Hw3].
Qed.

Lemma pollStatuses_failure_items w :
  items (pollStatuses_catch w) = items w.
Proof. apply pollStatuses_catch_frame. Qed.

(** The item that an upload leaves, whatever its outcome. *)
Lemma uploadFile_resume_items ref timer o w item :
  items w !! ref = Some item ->
  items (uploadFile_resume ref timer o w)
  = <[ref := uploadFile_settled item o]> (items w).
Proof.
  intros Hl. unfold uploadFile_resume, uploadFile_settled. rewrite Hl.
  destruct o as [m|text|payload]; try reflexivity.
  destruct (uploadFile_success item payload) as [item' [error_message|]];
    [reflexivity|].
  now rewrite ensurePolling_items.
Qed.

Lemma requestProcessing_start_length ids timer w :
  length (items (requestProcessing_start ids timer w).2) = length (items w).
Proof.
  unfold requestProcessing_start.
  destruct ids as [[|id ids]|]; try reflexivity.
  cbn [snd]. cbn [fetch set_fetches items]. rewrite ensurePolling_items.
  cbn [set_items items]. apply mark_all_length.
Qed.

Lemma step_length w e : length (items w) <= length (items (step w e)).
Proof.
  destruct e as [f id previewUrl now|ref timer o|ids timer|snapshots o| |o];
    cbn [step].
  - unfold queueFile. rewrite uploadFile_start_length. cbn.
    rewrite length_app. cbn. lia.
  - destruct (items w !! ref) as [item|] eqn:Hl.
    + rewrite (uploadFile_resume_items _ _ _ _ _ Hl), length_insert. lia.
    + unfold uploadFile_resume. rewrite Hl. lia.
  - rewrite requestProcessing_start_length. lia.
  - destruct o; cbn [requestProcessing_resume].
    1,2: cbn; rewrite restore_all_length; lia.
    destruct (truthy _); cbn; lia.
  - rewrite pollStatuses_start_items. lia.
  - destruct o as [m|text|payload].
    1,2: cbn [pollStatuses_resume]; rewrite pollStatuses_failure_items; lia.
    rewrite pollStatuses_resume_items, apply_updates_length. cbn. lia.
Qed.

Lemma run_length es w : length (items w) <= length (items (run w es)).
Proof.
  revert w. induction es as [|e es IH]; intros w; cbn; [lia|].
  etransitivity; [apply step_length|apply IH].
Qed.

(** ** The rollback of a failed processing request *)

Lemma take_snapshots_sound ids w ref st msg :
  (ref, st, msg) ∈ take_snapshots ids w ->
  exists item, items w !! ref = Some item /\ status item = st /\ message item = msg.
Proof.
  unfold take_snapshots. rewrite list_elem_of_omap. intros (id & _ & Hfind).
  destruct (find _ (items w)) as [[ref' entry]|] eqn:Hf; [|discriminate].
  injection Hfind as -> <- <-.
  apply list_find_Some in Hf as (Hlook & _ & _). now exists entry.
Qed.

Lemma alter_all_lookup {A} (g : nat -> A -> A) (refs : list nat) (l : list A) ref :
  (forall r x, g r (g r x) = g r x) ->
  foldl (fun l r => alter (g r) r l) l refs !! ref
  = if decide (ref ∈ refs) then g ref <$> l !! ref else l !! ref.
Proof.
  intros Hg. revert l. induction refs as [|r refs IH]; intros l.
  - cbn. now rewrite decide_False by apply not_elem_of_nil.
  - cbn [foldl]. rewrite IH.
    destruct (decide (r = ref)) as [->|Hne].
    + rewrite list_lookup_alter_eq.
      rewrite (decide_True (P := ref ∈ ref :: refs)) by apply list_elem_of_here.
      destruct (decide (ref ∈ refs)); [|reflexivity].
      destruct (l !! ref); cbn; [now rewrite Hg|reflexivity].
    + rewrite list_lookup_alter_ne by assumption.
      destruct (decide (ref ∈ refs)) as [Hin|Hnin].
      * now rewrite decide_True by (now apply list_elem_of_further).
      * rewrite decide_False; [reflexivity|].
        intros [?|?]%elem_of_cons; congruence.
Qed.

Lemma restored_from_idem l0 ref item :
  restored_from l0 ref (restored_from l0 ref item) = restored_from l0 ref item.
Proof. unfold restored_from. destruct (l0 !! ref); reflexivity. Qed.

Lemma restore_all_by_position (l0 : list Item) (snapshots : list Snapshot) l :
  (forall ref st msg, (ref, st, msg) ∈ snapshots ->
     exists item, l0 !! ref = Some item /\ status item = st /\ message item = msg) ->
  foldl (fun l sn => restore sn l) l snapshots
  = foldl (fun l r => alter (restored_from l0 r) r l) l (snapshots.*1.*1).
Proof.
  revert l. induction snapshots as [|[[ref st] msg] snapshots IH]; intros l Hs;
    [reflexivity|].
  cbn [foldl fmap list_fmap fst]. rewrite IH.
  - f_equal. cbn [restore]. apply list_alter_ext; [|reflexivity].
    intros item _. unfold restored_from.
    destruct (Hs ref st msg) as (item0 & -> & <- & <-); [apply list_elem_of_here|].
    reflexivity.
  - intros r s m Hin. apply Hs. now apply list_elem_of_further.
Qed.

Lemma mark_processing_idem item :
  mark_processing (mark_processing item) = mark_processing item.
Proof.
  destruct item. unfold mark_processing. item_simpl.
  destruct (num_lt progress0 (Fin 5)) eqn:Hlt; item_simpl.
  - reflexivity.
  - now rewrite Hlt.
Qed.

Lemma mark_all_by_position (snapshots : list Snapshot) (l : list Item) :
  foldl (fun l (sn : Snapshot) => alter mark_processing sn.1.1 l) l snapshots
  = foldl (fun l r => alter mark_processing r l) l (snapshots.*1.*1).
Proof.
  revert l. induction snapshots as [|sn snapshots IH]; intros l; [reflexivity|].
  cbn [foldl fmap list_fmap]. apply IH.
Qed.

Lemma take_snapshots_elem ids w ref st msg :
  (ref, st, msg) ∈ take_snapshots ids w <->
  exists id entry,
    id ∈ ids
    /\ find (fun item => strict_equals (serverId item) id) (items w)
       = Some (ref, entry)
    /\ st = status entry /\ msg = message entry.
Proof.
  unfold take_snapshots. rewrite list_elem_of_omap. split.
  - intros (id & Hid & Hf).
    destruct (find _ (items w)) as [[ref' entry]|] eqn:Hfind; [|discriminate].
    injection Hf as -> <- <-. now exists id, entry.
  - intros (id & entry & Hid & Hf & -> & ->). exists id. now rewrite Hf.
Qed.

Lemma snapshot_refs ids w ref :
  ref ∈ (take_snapshots ids w).*1.*1 <->
  exists id entry,
    id ∈ ids
    /\ find (fun item => strict_equals (serverId item) id) (items w)
       = Some (ref, entry).
Proof.
  split.
  - intros ([ref' st] & -> & ([[ref'' st'] msg] & [= <- <-] & Hin)%list_elem_of_fmap)
           %list_elem_of_fmap.
    apply take_snapshots_elem in Hin as (id & entry & Hid & Hf & _).
    now exists id, entry.
  - intros (id & entry & Hid & Hf).
    apply list_elem_of_fmap. exists (ref, status entry). split; [reflexivity|].
    apply list_elem_of_fmap. exists (ref, status entry, message entry).
    split; [reflexivity|]. apply take_snapshots_elem. now exists id, entry.
Qed.

(** The items once [requestProcessing] has issued its request. *)
Lemma requestProcessing_start_items id ids timer w ref :
  items (requestProcessing_start (Some (id :: ids)) timer w).2 !! ref
  = if decide (ref ∈ (take_snapshots (id :: ids) w).*1.*1)
    then mark_processing <$> items w !! ref
    else items w !! ref.
Proof.
  cbn [requestProcessing_start snd fetch set_fetches items].
  rewrite ensurePolling_items. cbn [set_items items].
  rewrite mark_all_by_position.
  apply alter_all_lookup. intros _. apply mark_processing_idem.
Qed.

Lemma first_with_serverId_find (l : list Item) id ref :
  first_with_serverId l id ref
  <-> exists entry,
        find (fun item => strict_equals (serverId item) id) l = Some (ref, entry).
Proof.
  unfold first_with_serverId, find. split.
  - intros [(item & Hl & Hid) Hfirst]. exists item.
    apply list_find_Some. split; [exact Hl|]. split; [exact Hid|].
    intros j other Hj Hlt. rewrite (Hfirst j other Hlt Hj). discriminate.
  - intros (entry & (Hl & Hid & Hfirst)%list_find_Some). split.
    + now exists entry.
    + intros j other Hlt Hj. apply not_true_is_false. exact (Hfirst j other Hj Hlt).
Qed.

Lemma targeted_snapshot ids w ref :
  targeted ids (items w) ref <-> ref ∈ (take_snapshots ids w).*1.*1.
Proof.
  rewrite snapshot_refs. unfold targeted. split.
  - intros (id & Hid & (entry & Hf)%first_with_serverId_find).
    now exists id, entry.
  - intros (id & entry & Hid & Hf). exists id. split; [exact Hid|].
    apply first_with_serverId_find. now exists entry.
Qed.

(** The items once the failure of a processing request is handled, by
    position. *)
Lemma requestProcessing_resume_failure snapshots (l0 : list Item) o w2 ref :
  (forall payload, o <> HttpOk payload) ->
  (forall ref st msg, (ref, st, msg) ∈ snapshots ->
     exists item, l0 !! ref = Some item /\ status item = st /\ message item = msg) ->
  items (requestProcessing_resume snapshots o w2) !! ref
  = if decide (ref ∈ snapshots.*1.*1)
    then restored_from l0 ref <$> items w2 !! ref
    else items w2 !! ref.
Proof.
  intros Hfail Hsound. unfold requestProcessing_resume.
  destruct o as [m|text|payload]; [| |now destruct (Hfail payload)];
    cbn [items set_items];
    rewrite (restore_all_by_position l0) by exact Hsound;
    apply alter_all_lookup; intros; apply restored_from_idem.
Qed.

(** C1: when a processing request over a list of identifiers fails, then
    whatever happened to the queue since the request was made, every item
    that the request targets (the first item of the queue of which the
    server identifier is one of the list) has again the status and the
    message it had when the request was made, after it was "processing"
    in between; its other fields (progress, URLs) are those it has when the
    failure arrives.  Every other item was left alone by the request and is
    as the failure finds it.  The identifiers are primitive values (texts,
    numbers), which name an item by their value. *)
Theorem requestProcessing_failure_restores ids timer w0 es o :
  ids <> [] ->
  Forall (fun id => is_primitive id = true) ids ->
  (forall payload, o <> HttpOk payload) ->
  let requested := requestProcessing_start (Some ids) timer w0 in
  let w2 := run requested.2 es in
  let w3 := requestProcessing_resume requested.1 o w2 in
  forall ref item0,
    items w0 !! ref = Some item0 ->
    exists item2,
      items w2 !! ref = Some item2
      /\ (targeted ids (items w0) ref ->
          items requested.2 !! ref = Some (mark_processing item0)
          /\ exists item3,
               items w3 !! ref = Some item3
               /\ item3 = set_message (message item0) (set_status (status item0) item2)
               /\ status item3 = status item0
               /\ message item3 = message item0
               /\ progress item3 = progress item2
               /\ originalUrl item3 = originalUrl item2
               /\ processedUrl item3 = processedUrl item2
               /\ downloadOriginalUrl item3 = downloadOriginalUrl item2
               /\ downloadProcessedUrl item3 = downloadProcessedUrl item2
               /\ originalPreviewUrl item3 = originalPreviewUrl item2
               /\ processedPreviewUrl item3 = processedPreviewUrl item2)
      /\ (~ targeted ids (items w0) ref ->
          items requested.2 !! ref = Some item0
          /\ items w3 !! ref = Some item2).
Proof.
  intros Hids _ Hfail requested w2 w3 ref item0 Hl0.
  destruct ids as [|id ids]; [now destruct Hids|].
  assert (requested.1 = take_snapshots (id :: ids) w0) as Hsnap by reflexivity.
  assert (ref < length (items w2)) as Hlt.
  { apply lookup_lt_Some in Hl0.
    pose proof (run_length es requested.2) as Hrun. fold w2 in Hrun.
    subst requested. rewrite requestProcessing_start_length in Hrun. lia. }
  apply lookup_lt_is_Some_2 in Hlt as [item2 Hl2].
  exists item2. split; [exact Hl2|].
  assert (Hitems :
            items w3 !! ref
            = if decide (ref ∈ (take_snapshots (id :: ids) w0).*1.*1)
              then restored_from (items w0) ref <$> items w2 !! ref
              else items w2 !! ref).
  { subst w3. rewrite Hsnap.
    apply requestProcessing_resume_failure; [exact Hfail|].
    intros r st msg. apply take_snapshots_sound. }
  pose proof (requestProcessing_start_items id ids timer w0 ref) as Hstart.
  fold requested in Hstart.
  split.
  - intros Htarget%targeted_snapshot.
    rewrite decide_True in Hstart, Hitems by exact Htarget.
    rewrite Hl0 in Hstart. rewrite Hl2 in Hitems.
    split; [exact Hstart|].
    eexists. split; [exact Hitems|].
    unfold restored_from. rewrite Hl0.
    destruct item2. cbn. repeat split.
  - intros Hnot.
    assert (ref ∉ (take_snapshots (id :: ids) w0).*1.*1) as Hnin
      by (intros Hin; apply Hnot; now apply targeted_snapshot).
    rewrite decide_False in Hstart, Hitems by exact Hnin.
    rewrite Hl0 in Hstart. rewrite Hl2 in Hitems. now split.
Qed.

(** ** The range of progress *)

Lemma normaliseProgress_within value :
  within_percent value = true -> is_percentage (normaliseProgress value) = true.
Proof.
  destruct value as [| | |[| | |q]| | |]; try reflexivity; try discriminate.
  cbn [within_percent]. rewrite andb_true_iff, !Qle_bool_iff. intros [Hlo Hhi].
  now apply normaliseProgress_percentage.
Qed.

Lemma uploadFile_settled_progress item o :
  match o with
  | HttpOk payload => within_percent (get payload "progress") = true
  | _ => True
  end ->
  is_percentage (progress (uploadFile_settled item o)) = true.
Proof.
  destruct o as [m|text|payload]; try reflexivity.
  intros Hin. unfold uploadFile_settled, uploadFile_success.
  destruct (normaliseStatus _) as [nextStatus|error_message]; [|reflexivity].
  match goal with |- context [if ?c then _ else _] => destruct c end;
    item_simpl; [reflexivity|].
  destruct (get payload "progress") eqn:Hp; try reflexivity.
  now apply normaliseProgress_within.
Qed.

Lemma mark_processing_progress item :
  is_percentage (progress item) = true ->
  is_percentage (progress (mark_processing item)) = true.
Proof.
  intros Hin. unfold mark_processing. item_simpl.
  destruct (num_lt (progress item) (Fin 5)); [reflexivity|exact Hin].
Qed.

Lemma updateItemFromServer_progress item payload :
  is_percentage (progress item) = true ->
  record_in_range payload = true ->
  is_percentage (progress (updateItemFromServer item payload).1.1) = true.
Proof.
  intros Hin Hrange.
  destruct (updateItemFromServer_cases item payload) as [->|(_ & _ & ->)];
    cbn [fst]; [exact Hin|].
  unfold merged. item_simpl.
  match goal with |- context [if String.eqb ?a ?b then _ else _] =>
    destruct (String.eqb a b) end; [reflexivity|].
  revert Hrange. unfold record_in_range, merged_progress.
  destruct (is_number (get payload "progress")).
  - apply normaliseProgress_within.
  - destruct (is_number (get payload "percentage")); [|intros _; exact Hin].
    apply normaliseProgress_within.
Qed.

Lemma find_Some_lookup pred (l : list Item) ref item :
  find pred l = Some (ref, item) -> l !! ref = Some item /\ pred item = true.
Proof. unfold find. intros (Hl & Hp & _)%list_find_Some. now split. Qed.

Lemma apply_update_progress acc entry :
  progress_ok acc.1 -> record_in_range entry = true ->
  progress_ok (apply_update acc entry).1.1.
Proof.
  destruct acc as [w z]. unfold apply_update, progress_ok. cbn [fst].
  intros Hok Hrange.
  destruct (negb (truthy _)); [exact Hok|].
  destruct (find _ (items w)) as [[ref item]|] eqn:Hf; [|exact Hok].
  apply find_Some_lookup in Hf as [Hl _].
  pose proof (Forall_lookup_1 _ _ _ _ Hok Hl) as Hitem.
  set (item1 := if negb (truthy (serverId item)) then _ else item).
  assert (is_percentage (progress item1) = true) as Hitem1.
  { subst item1. destruct (negb (truthy (serverId item))); exact Hitem. }
  pose proof (updateItemFromServer_progress item1 entry Hitem1 Hrange) as Hnew.
  destruct (updateItemFromServer item1 entry) as [[item' urls] [error_message|]];
    cbn [fst] in *; cbn [items set_items set_revoked]; now apply Forall_insert.
Qed.

Lemma apply_updates_progress updates acc :
  progress_ok acc.1 ->
  Forall (fun entry => record_in_range entry = true) updates ->
  progress_ok (apply_updates acc updates).1.1.
Proof.
  intros Hok Hall. revert acc Hok.
  induction Hall as [|entry updates Hentry _ IH]; intros acc Hok; [exact Hok|].
  cbn [apply_updates].
  pose proof (apply_update_progress acc entry Hok Hentry) as Hstep.
  destruct (apply_update acc entry) as [acc' [error_message|]];
    [exact Hstep|now apply IH].
Qed.

Lemma progress_ok_items w w' : items w' = items w -> progress_ok w -> progress_ok w'.
Proof. unfold progress_ok. now intros ->. Qed.

Lemma progress_ok_lookup w ref p :
  progress_ok w -> progress <$> items w !! ref = Some p -> is_percentage p = true.
Proof.
  intros Hok Hl. destruct (items w !! ref) as [item|] eqn:Hitem; [|discriminate].
  injection Hl as <-. exact (Forall_lookup_1 _ _ _ _ Hok Hitem).
Qed.

Lemma uploadFile_start_progress ref w :
  progress_ok w -> progress_ok (uploadFile_start ref w).
Proof.
  unfold uploadFile_start, progress_ok. intros Hok.
  destruct (items w !! ref) as [item|]; [|exact Hok].
  destruct (file item); [|exact Hok].
  cbn [items fetch set_fetches set_items]. apply Forall_insert; [exact Hok|reflexivity].
Qed.

Lemma mark_all_progress (snapshots : list Snapshot) (l : list Item) :
  Forall (fun item => is_percentage (progress item) = true) l ->
  Forall (fun item => is_percentage (progress item) = true)
    (foldl (fun l (sn : Snapshot) => alter mark_processing sn.1.1 l) l snapshots).
Proof.
  revert l. induction snapshots as [|sn snapshots IH]; intros l Hok; [exact Hok|].
  cbn [foldl]. apply IH. apply Forall_alter; [exact Hok|].
  intros item _. apply mark_processing_progress.
Qed.

Lemma restore_all_progress (snapshots : list Snapshot) (l : list Item) :
  Forall (fun item => is_percentage (progress item) = true) l ->
  Forall (fun item => is_percentage (progress item) = true)
    (foldl (fun l sn => restore sn l) l snapshots).
Proof.
  revert l. induction snapshots as [|[[ref st] msg] snapshots IH]; intros l Hok;
    [exact Hok|].
  cbn [foldl]. apply IH. apply Forall_alter; [exact Hok|].
  intros item _ Hitem. exact Hitem.
Qed.

Lemma step_progress_ok w e :
  progress_ok w -> event_in_range e -> progress_ok (step w e).
Proof.
  intros Hok Hrange.
  destruct e as [f id previewUrl now|ref timer o|ids timer|snapshots o| |o];
    cbn [step].
  - unfold queueFile. apply uploadFile_start_progress.
    unfold progress_ok. cbn [items set_batchDownloadUrl set_items].
    apply Forall_app. split; [exact Hok|]. now repeat constructor.
  - destruct (items w !! ref) as [item|] eqn:Hl;
      [|unfold uploadFile_resume; now rewrite Hl].
    unfold progress_ok. rewrite (uploadFile_resume_items _ _ _ _ _ Hl).
    apply Forall_insert; [exact Hok|].
    apply uploadFile_settled_progress. now destruct o.
  - unfold requestProcessing_start.
    destruct ids as [[|id ids]|]; try exact Hok.
    cbn [snd]. eapply progress_ok_items; [reflexivity|].
    eapply progress_ok_items; [apply ensurePolling_items|].
    unfold progress_ok. cbn [items set_items]. now apply mark_all_progress.
  - destruct o as [m|text|payload]; cbn [requestProcessing_resume].
    1,2: unfold progress_ok; cbn [items set_items]; now apply restore_all_progress.
    destruct (truthy _); exact Hok.
  - eapply progress_ok_items; [apply pollStatuses_start_items|exact Hok].
  - destruct o as [m|text|payload].
    1,2: eapply progress_ok_items; [apply pollStatuses_failure_items|exact Hok].
    eapply progress_ok_items; [apply pollStatuses_resume_items|].
    now apply apply_updates_progress.
Qed.

(** C2, as the script has it: along any run of operations, the progress of
    every item stays an integer between 0 and 100 as long as the progress
    values that the server sends are numbers between 0 and 100 (or are not
    numbers).  [normaliseProgress] does not clamp: a number outside of that
    range is stored as it is rounded. *)
Theorem progress_stays_in_range w es :
  progress_ok w -> Forall event_in_range es -> progress_ok (run w es).
Proof.
  intros Hok Hall. revert w Hok.
  induction Hall as [|e es He _ IH]; intros w Hok.
  - exact Hok.
  - cbn [run foldl]. apply IH. now apply step_progress_ok.
Qed.

(** What is displayed is clamped, whatever is stored. *)
Lemma progressBarValue_clamped item :
  progress item <> NaN -> is_percentage (progressBarValue item) = true.
Proof.
  unfold progressBarValue. destruct (progress item) as [| | |q]; intros Hnan;
    try reflexivity; [congruence|].
  unfold Math_round, num_of_Z.
  set (z := Qfloor (q + (1 # 2))).
  cbn [Math_max num_lt].
  destruct (negb (Qle_bool (inject_Z z) 0)) eqn:H0; cbn [Math_min num_lt].
  - destruct (negb (Qle_bool 100 (inject_Z z))) eqn:H100.
    + apply is_percentage_of_Z.
      apply negb_true_iff, not_true_iff_false in H0, H100.
      rewrite Qle_bool_iff in H0, H100.
      change 0%Q with (inject_Z 0) in H0. change 100%Q with (inject_Z 100) in H100.
      rewrite <- Zle_Qle in H0, H100. lia.
    + reflexivity.
  - reflexivity.
Qed.

(** ** The progress normaliser *)

Lemma whole_percentages :
  (fun k => normaliseProgress (VNum (double (Z.of_nat k # 100)))) <$> seq 0 101
  = (fun k => num_of_Z (Z.of_nat k)) <$> seq 0 101.
Proof. vm_compute. reflexivity. Qed.

(** C8: [normaliseProgress] maps a value that is not a number, and [NaN], to
    0; a number above 1 to its rounding, the nearest integer (the larger one
    of two that are as near); a number that is at most 1 to the rounding of
    a hundred times the number, the product being the one of the doubles
    (the double nearest to the exact product, within half a unit in the last
    place); an infinity to itself.  So every whole percentage written as a
    fraction with two decimals is mapped to that percentage: 0.42 to 42.  It
    maps 75 to 75, the text "bad" and [undefined] to 0, and 0.345 to 35 (the
    product is the double 34.5, above the exact product). *)
Theorem normaliseProgress_cases :
  (forall value, is_number value = false -> normaliseProgress value = Fin 0)
  /\ normaliseProgress (VNum NaN) = Fin 0
  /\ (forall q, (1 < q)%Q ->
        exists z, normaliseProgress (VNum (Fin q)) = num_of_Z z
                  /\ (inject_Z z - (1 # 2) <= q)%Q
                  /\ (q < inject_Z z + (1 # 2))%Q)
  /\ (forall q p, (q <= 1)%Q -> num_times100 (Fin q) = Fin p ->
        ((Qabs (p - q * 100) <= Qabs (q * 100) * 2 ^ (-53))%Q
         \/ (Qabs (p - q * 100) <= 2 ^ (-1075))%Q)
        /\ exists z, normaliseProgress (VNum (Fin q)) = num_of_Z z
                     /\ (inject_Z z - (1 # 2) <= p)%Q
                     /\ (p < inject_Z z + (1 # 2))%Q)
  /\ (forall q, (q <= 1)%Q -> num_times100 (Fin q) = NegInf ->
        normaliseProgress (VNum (Fin q)) = NegInf)
  /\ normaliseProgress (VNum PosInf) = PosInf
  /\ normaliseProgress (VNum NegInf) = NegInf
  /\ (forall k : nat, k <= 100 ->
        normaliseProgress (VNum (double (Z.of_nat k # 100))) = num_of_Z (Z.of_nat k))
  /\ normaliseProgress (VNum (double (42 # 100))) = Fin 42
  /\ normaliseProgress (VNum (Fin 75)) = Fin 75
  /\ normaliseProgress (VStr "bad") = Fin 0
  /\ normaliseProgress VUndef = Fin 0
  /\ normaliseProgress (VNum (double (345 # 1000))) = Fin 35.
Proof.
  split; [apply normaliseProgress_not_number|].
  split; [reflexivity|].
  split.
  { intros q Hq. unfold normaliseProgress. cbn [Number_isNaN].
    assert (num_le (Fin q) (Fin 1) = false) as ->.
    { apply not_true_iff_false. rewrite num_le_Fin. lra. }
    apply Math_round_nearest. }
  split.
  { intros q p Hq Hp. split.
    - cbn [num_times100] in Hp. now apply round_double_near.
    - unfold normaliseProgress. cbn [Number_isNaN].
      assert (num_le (Fin q) (Fin 1) = true) as -> by now apply num_le_Fin.
      rewrite Hp. apply Math_round_nearest. }
  split.
  { intros q Hq Hp. unfold normaliseProgress. cbn [Number_isNaN].
    assert (num_le (Fin q) (Fin 1) = true) as -> by now apply num_le_Fin.
    now rewrite Hp. }
  split; [reflexivity|]. split; [reflexivity|].
  split.
  { intros k Hk. pose proof whole_percentages as Hall.
    apply (f_equal (fun l => l !! k)) in Hall.
    rewrite !list_lookup_fmap, lookup_seq_lt in Hall by lia.
    now injection Hall. }
  repeat split; vm_compute; reflexivity.
Qed.

(** ** The upload response *)



Lemma uploadFile_success_returns item payload nextStatus :
  normaliseStatus (get payload "status" <||> get payload "state")
  = Returns nextStatus ->
  (uploadFile_success item payload).2 = None
  /\ status (uploadFile_success item payload).1 = status_or nextStatus "uploaded"
  /\ progress (uploadFile_success item payload).1
     = (if String.eqb (status_or nextStatus "uploaded") "processed" then Fin 100
        else match get payload "progress" with
             | VUndef => Fin 100
             | value => normaliseProgress value
             end)
  /\ file (uploadFile_success item payload).1 = None.
Proof.
  intros Hs. unfold uploadFile_success. rewrite Hs. item_simpl.
  destruct (String.eqb (status_or nextStatus "uploaded") "processed");
    now repeat split.
Qed.

Lemma uploadFile_success_throws item payload error_message :
  normaliseStatus (get payload "status" <||> get payload "state")
  = Throws error_message ->
  (uploadFile_success item payload).2 = Some error_message
  /\ file (uploadFile_success item payload).1 = file item.
Proof.
  intros Hs. unfold uploadFile_success. rewrite Hs. now split.
Qed.


(** ** The failed upload *)

Lemma uploadFile_failure_fields item error_message :
  let item' := uploadFile_failure item error_message in
  status item' = "failed"
  /\ progress item' = Fin 0
  /\ message item' = error_message <||> VStr "Upload failed"
  /\ file item' = file item.
Proof. repeat split. Qed.

Lemma upload_error_message_text text :
  upload_error_message (HttpError text)
  = VStr (if String.eqb text "" then "Upload failed" else text).
Proof. cbn. unfold or_else. cbn. now destruct (String.eqb text ""). Qed.

(** * Further properties *)

(** ** The status normaliser *)

Lemma lower_ascii_idem c : lower_ascii (lower_ascii c) = lower_ascii c.
Proof.
  destruct c as [b0 b1 b2 b3 b4 b5 b6 b7].
  destruct b0, b1, b2, b3, b4, b5, b6, b7; reflexivity.
Qed.

Lemma toLowerCase_idem s : toLowerCase (toLowerCase s) = toLowerCase s.
Proof.
  induction s as [|c s IH]; [reflexivity|].
  cbn [toLowerCase]. now rewrite lower_ascii_idem, IH.
Qed.

Lemma toLowerCase_empty s : String.eqb (toLowerCase s) "" = String.eqb s "".
Proof. destruct s; reflexivity. Qed.

(** The table sends a word to one of the five states, or keeps a word that
    is none of its keys. *)
Lemma status_table_cases s :
  In (status_table s) canonical_statuses
  \/ (status_table s = s /\ ~ In s status_aliases /\ ~ In s canonical_statuses).
Proof.
  unfold status_table.
  repeat match goal with
         | |- context [String.eqb s ?k] =>
             destruct (String.eqb s k) eqn:?;
               [left; unfold canonical_statuses; cbn; tauto|]
         end.
  right. split; [reflexivity|].
  unfold status_aliases, canonical_statuses; cbn.
  split; intros Hin;
    repeat match goal with
           | H : _ \/ _ |- _ => destruct H as [H|H]
           | H : _ = s |- _ => subst s; discriminate
           | H : False |- _ => destruct H
           end.
Qed.

Lemma status_table_canonical t :
  In t canonical_statuses -> status_table t = t /\ toLowerCase t = t.
Proof.
  unfold canonical_statuses. cbn.
  intros [<-|[<-|[<-|[<-|[<-|[]]]]]]; split; reflexivity.
Qed.

Lemma status_table_fixed s :
  status_table (toLowerCase (status_table (toLowerCase s)))
  = status_table (toLowerCase s).
Proof.
  destruct (status_table_cases (toLowerCase s)) as [Hc|(Heq & _)].
  - destruct (status_table_canonical _ Hc) as [Ht Hl]. now rewrite Hl, Ht.
  - now rewrite Heq, toLowerCase_idem, Heq.
Qed.

(** X1: a status that [normaliseStatus] returned is left as it is when it
    is normalised again (the empty text, which is falsy, gives [null]). *)
Theorem normaliseStatus_idempotent value t :
  normaliseStatus value = Returns (Some t) ->
  normaliseStatus (VStr t) = Returns (if String.eqb t "" then None else Some t).
Proof.
  unfold normaliseStatus. destruct (negb (truthy value)); [discriminate|].
  destruct (ToString value) as [text|]; [|discriminate].
  intros [= <-]. cbn [truthy ToString]. rewrite negb_involutive.
  destruct (String.eqb _ ""); [reflexivity|].
  now rewrite status_table_fixed.
Qed.

(** X2: [normaliseStatus] never returns one of the words it replaces
    ("queued", "done", "error", ...), and what it returns has no upper-case
    ASCII letter. *)
Theorem normaliseStatus_never_alias value t :
  normaliseStatus value = Returns (Some t) ->
  ~ In t status_aliases /\ toLowerCase t = t.
Proof.
  unfold normaliseStatus. destruct (negb (truthy value)); [discriminate|].
  destruct (ToString value) as [text|]; [|discriminate].
  intros [= <-].
  destruct (status_table_cases (toLowerCase text)) as [Hc|(Heq & Hn & _)].
  - split; [|now apply status_table_canonical].
    revert Hc. generalize (status_table (toLowerCase text)).
    unfold canonical_statuses, status_aliases. cbn. intros t Hc Ha.
    repeat match goal with
           | H : _ \/ _ |- _ => destruct H as [H|H]
           | H : False |- _ => destruct H
           | H : _ = t |- _ => subst t
           end; discriminate.
  - rewrite Heq. split; [exact Hn|apply toLowerCase_idem].
Qed.

(** X3: [normaliseStatus] does not look at the case of the ASCII letters of
    a text. *)
Theorem normaliseStatus_ignores_case s :
  normaliseStatus (VStr (toLowerCase s)) = normaliseStatus (VStr s).
Proof.
  unfold normaliseStatus. cbn [truthy ToString].
  now rewrite toLowerCase_empty, toLowerCase_idem.
Qed.

(** ** The polling loop *)

Lemma apply_update_frame acc entry :
  pollTimer (apply_update acc entry).1.1 = pollTimer acc.1
  /\ intervals (apply_update acc entry).1.1 = intervals acc.1
  /\ pollErrorNotified (apply_update acc entry).1.1 = pollErrorNotified acc.1
  /\ fetches (apply_update acc entry).1.1 = fetches acc.1.
Proof.
  destruct acc as [w z]. unfold apply_update.
  destruct (negb (truthy _)); [now repeat split|].
  destruct (find _ (items w)) as [[ref item]|]; [|now repeat split].
  destruct (updateItemFromServer _ entry) as [[item' urls] [error_message|]];
    now repeat split.
Qed.

Lemma apply_updates_frame updates acc :
  pollTimer (apply_updates acc updates).1.1 = pollTimer acc.1
  /\ intervals (apply_updates acc updates).1.1 = intervals acc.1
  /\ pollErrorNotified (apply_updates acc updates).1.1 = pollErrorNotified acc.1
  /\ fetches (apply_updates acc updates).1.1 = fetches acc.1.
Proof.
  apply (apply_updates_invariant
           (fun a => pollTimer a.1 = pollTimer acc.1
                     /\ intervals a.1 = intervals acc.1
                     /\ pollErrorNotified a.1 = pollErrorNotified acc.1
                     /\ fetches a.1 = fetches acc.1));
    [|now repeat split].
  intros a entry (<- & <- & <- & <-). apply apply_update_frame.
Qed.

(** The state that a status response leaves: the one its records leave,
    before the loop is stopped or not when they are all applied, with the
    failure noted when one throws. *)
Lemma pollStatuses_resume_ok payload w :
  exists w3,
    items w3
    = items (apply_updates (set_pollErrorNotified false w, VNull)
                           (normaliseStatusPayload payload)).1.1
    /\ pollTimer w3 = pollTimer w /\ intervals w3 = intervals w
    /\ pollErrorNotified w3 = false /\ fetches w3 = fetches w
    /\ pollStatuses_resume (HttpOk payload) w
       = match poll_error payload w with
         | None => if negb (existsb shouldPoll (items w3)) then stopPolling w3 else w3
         | Some _ => set_pollErrorNotified true w3
         end.
Proof.
  unfold pollStatuses_resume, poll_error.
  destruct (apply_updates_frame (normaliseStatusPayload payload)
              (set_pollErrorNotified false w, VNull)) as (Ht & Hi & Hn & Hf).
  destruct (apply_updates _ _) as [[w2 z] [error_message|]]; cbn [fst snd] in *.
  - exists w2. repeat split; try assumption.
    unfold pollStatuses_catch. now rewrite Hn.
  - eexists. split; [|split; [|split; [|split; [|split; [|reflexivity]]]]].
    all: destruct (truthy (if truthy (get payload "zipUrl") then _ else z));
      assumption || reflexivity.
Qed.

Lemma stopPolling_consistent w : timer_consistent w -> timer_consistent (stopPolling w).
Proof.
  unfold timer_consistent, stopPolling. intros Hc.
  destruct (pollTimer w) as [timer|] eqn:Ht; cbn in *; [|now rewrite Ht].
  rewrite Hc. cbn. now rewrite Pos.eqb_refl.
Qed.

Lemma pollStatuses_start_consistent w :
  timer_consistent w -> timer_consistent (pollStatuses_start w).
Proof.
  unfold pollStatuses_start.
  destruct (List.map serverId _); [apply stopPolling_consistent|].
  now destruct (forallb _ _).
Qed.

Lemma pollStatuses_start_timer_None w :
  pollTimer w = None -> pollTimer (pollStatuses_start w) = None.
Proof.
  unfold pollStatuses_start.
  destruct (List.map serverId _); [intros _; apply stopPolling_timer|].
  now destruct (forallb _ _).
Qed.

Lemma ensurePolling_consistent timer w :
  timer_consistent w -> timer_consistent (ensurePolling timer w).
Proof.
  intros Hc. unfold ensurePolling.
  destruct (pollTimer w) eqn:Ht; [exact Hc|].
  destruct (negb (existsb shouldPoll (items w))); [exact Hc|].
  pose proof (pollStatuses_start_consistent w Hc) as Hc1.
  unfold timer_consistent in *. cbn.
  now rewrite Hc1, pollStatuses_start_timer_None.
Qed.

Lemma timer_consistent_frame w w' :
  pollTimer w' = pollTimer w -> intervals w' = intervals w ->
  timer_consistent w -> timer_consistent w'.
Proof. unfold timer_consistent. now intros -> ->. Qed.

Lemma step_timer_consistent w e :
  timer_consistent w -> timer_consistent (step w e).
Proof.
  intros Hc.
  destruct e as [f id previewUrl now|ref timer o|ids timer|snapshots o| |o];
    cbn [step].
  - unfold queueFile, uploadFile_start.
    destruct (_ !! _) as [item|]; [destruct (file item)|]; exact Hc.
  - unfold uploadFile_resume. destruct (items w !! ref) as [item|]; [|exact Hc].
    destruct o as [m|text|payload]; try exact Hc.
    destruct (uploadFile_success item payload) as [item' [error_message|]];
      [exact Hc|].
    apply ensurePolling_consistent. exact Hc.
  - unfold requestProcessing_start. destruct ids as [[|id ids]|]; try exact Hc.
    cbn [snd]. eapply timer_consistent_frame; [reflexivity..|].
    apply ensurePolling_consistent. exact Hc.
  - destruct o; cbn [requestProcessing_resume]; try exact Hc.
    destruct (truthy _); exact Hc.
  - now apply pollStatuses_start_consistent.
  - destruct o as [m|text|payload].
    1,2: cbn [pollStatuses_resume];
      (eapply timer_consistent_frame; [apply pollStatuses_catch_frame..|exact Hc]).
    destruct (pollStatuses_resume_ok payload w) as (w3 & _ & Ht & Hi & _ & _ & ->).
    assert (timer_consistent w3) as Hc3
      by (eapply timer_consistent_frame; eassumption).
    destruct (poll_error payload w); [exact Hc3|].
    destruct (negb (existsb shouldPoll (items w3)));
      [now apply stopPolling_consistent|exact Hc3].
Qed.

(** X4: whatever the operations that ran since the page was loaded, at most
    one interval timer runs, and it is the one [state.pollTimer] holds: no
    timer is left running when the loop is stopped, none is started twice. *)
Theorem single_poll_timer es :
  intervals (run initial es) = option_list (pollTimer (run initial es)).
Proof.
  change (timer_consistent (run initial es)).
  assert (forall w, timer_consistent w -> timer_consistent (run w es)) as Hrun.
  { induction es as [|e es IH]; intros w Hc; [exact Hc|].
    cbn. apply IH. now apply step_timer_consistent. }
  apply Hrun. reflexivity.
Qed.

Lemma ensurePolling_running timer w :
  existsb shouldPoll (items w) = true -> is_Some (pollTimer (ensurePolling timer w)).
Proof.
  intros Hp. unfold ensurePolling.
  destruct (pollTimer w) eqn:Ht; [rewrite Ht; eauto|].
  rewrite Hp. cbn. eauto.
Qed.

Lemma ensurePolling_when_running timer w :
  is_Some (pollTimer w) -> ensurePolling timer w = w.
Proof. intros [t Ht]. unfold ensurePolling. now rewrite Ht. Qed.

Lemma ensurePolling_when_idle timer w :
  existsb shouldPoll (items w) = false -> ensurePolling timer w = w.
Proof.
  intros Hp. unfold ensurePolling. rewrite Hp. now destruct (pollTimer w).
Qed.

(** X5: [ensurePolling] called again changes nothing, whatever handle the
    browser would give the second time: the loop is started at most once
    and the second call issues no request. *)
Theorem ensurePolling_idempotent timer1 timer2 w :
  ensurePolling timer2 (ensurePolling timer1 w) = ensurePolling timer1 w.
Proof.
  destruct (existsb shouldPoll (items w)) eqn:Hp.
  - apply ensurePolling_when_running. now apply ensurePolling_running.
  - rewrite (ensurePolling_when_idle timer1) by exact Hp.
    now apply ensurePolling_when_idle.
Qed.

Lemma apply_update_no_error acc entry :
  update_error entry = None -> (apply_update acc entry).2 = None.
Proof.
  intros Hentry. destruct acc as [w z]. unfold apply_update.
  destruct (negb (truthy _)); [reflexivity|].
  destruct (find _ (items w)) as [[ref item]|]; [|reflexivity].
  set (item1 := if negb (truthy (serverId item)) then _ else item).
  pose proof (updateItemFromServer_error item1 entry) as Herr.
  rewrite Hentry in Herr.
  destruct (updateItemFromServer item1 entry) as [[item' urls] thrown].
  cbn [snd] in Herr. now subst thrown.
Qed.

(** Records of which the status and the errors have a text are all
    applied. *)
Lemma poll_error_none payload w :
  Forall (fun entry => update_error entry = None) (normaliseStatusPayload payload) ->
  poll_error payload w = None.
Proof.
  unfold poll_error. intros Hall.
  generalize (set_pollErrorNotified false w, VNull).
  induction Hall as [|entry updates Hentry _ IH]; intros acc; [reflexivity|].
  cbn [apply_updates].
  pose proof (apply_update_no_error acc entry Hentry) as Hnone.
  destruct (apply_update acc entry) as [acc' thrown]. cbn [snd] in Hnone.
  subst thrown. apply IH.
Qed.

(** X6: when the records of a status response are all applied (as they are
    when each has a status and errors with a text), the loop keeps the
    timer it had when an item is still to be polled and is stopped
    otherwise, and the flag that silences repeated failure notices is reset.
    When the application of a record throws, the timer that runs is left
    running, whatever the items are, and the failure is noted. *)
Theorem pollStatuses_resume_timer payload w :
  let w' := pollStatuses_resume (HttpOk payload) w in
  (Forall (fun entry => update_error entry = None)
          (normaliseStatusPayload payload) ->
   poll_error payload w = None)
  /\ match poll_error payload w with
     | None =>
         pollTimer w' = (if existsb shouldPoll (items w') then pollTimer w else None)
         /\ pollErrorNotified w' = false
     | Some _ =>
         pollTimer w' = pollTimer w /\ intervals w' = intervals w
         /\ pollErrorNotified w' = true
     end.
Proof.
  intros w'. subst w'. split; [apply poll_error_none|].
  destruct (pollStatuses_resume_ok payload w) as (w3 & _ & Ht & Hi & Hn & _ & ->).
  destruct (poll_error payload w); [now repeat split|].
  destruct (existsb shouldPoll (items w3)) eqn:Hp; cbn [negb].
  - now rewrite Hp, Ht.
  - rewrite stopPolling_items, Hp, stopPolling_timer. now split.
Qed.

(** ** The optimistic transition *)

Lemma requestProcessing_start_timer id ids timer w :
  pollTimer (requestProcessing_start (Some (id :: ids)) timer w).2
  = pollTimer
      (ensurePolling timer
         (set_items
            (foldl (fun l (sn : Snapshot) => alter mark_processing sn.1.1 l)
                   (items w) (take_snapshots (id :: ids) w)) w)).
Proof. reflexivity. Qed.

Lemma strict_equals_truthy a b :
  strict_equals a b = true -> truthy b = true -> truthy a = true.
Proof.
  destruct a as [| |x|x|x| |], b as [| |y|y|y| |]; cbn; try discriminate; try tauto.
  - destruct x, y; cbn; congruence.
  - destruct x as [| | |p], y as [| | |q]; cbn; try discriminate; try tauto.
    rewrite !negb_true_iff, <- !not_true_iff_false, !Qeq_bool_iff.
    intros Hpq Hq Hp. apply Hq. now rewrite <- Hpq.
  - intros ->%String.eqb_eq. tauto.
Qed.

(** X7: a processing request for truthy identifiers of which at least one
    names an item leaves the polling loop running, and every item it took a
    snapshot of is "processing", without message, and to be polled. *)
Theorem requestProcessing_start_polls ids timer w :
  Forall (fun id => truthy id = true) ids ->
  (requestProcessing_start (Some ids) timer w).1 <> [] ->
  is_Some (pollTimer (requestProcessing_start (Some ids) timer w).2)
  /\ forall ref st msg,
       (ref, st, msg) ∈ (requestProcessing_start (Some ids) timer w).1 ->
       exists item,
         items (requestProcessing_start (Some ids) timer w).2 !! ref = Some item
         /\ status item = "processing" /\ message item = VStr ""
         /\ shouldPoll item = true.
Proof.
  intros Htruthy Hsome.
  destruct ids as [|id ids]; [now destruct Hsome|].
  assert (Hmarked : forall ref st msg,
             (ref, st, msg) ∈ take_snapshots (id :: ids) w ->
             exists entry,
               items (requestProcessing_start (Some (id :: ids)) timer w).2 !! ref
               = Some (mark_processing entry)
               /\ truthy (serverId entry) = true).
  { intros ref st msg Hin.
    pose proof Hin as (id' & entry & Hid & Hf & _)%take_snapshots_elem.
    pose proof (find_Some_lookup _ _ _ _ Hf) as [Hl Heq].
    exists entry. split.
    - rewrite requestProcessing_start_items, decide_True, Hl; [reflexivity|].
      apply snapshot_refs. now exists id', entry.
    - apply (strict_equals_truthy _ _ Heq).
      rewrite Forall_forall in Htruthy. now apply Htruthy. }
  assert (Hpoll : forall entry, truthy (serverId entry) = true ->
                                shouldPoll (mark_processing entry) = true).
  { intros entry Hid. unfold shouldPoll, mark_processing.
    destruct (num_lt _ _); item_simpl; now rewrite Hid. }
  split.
  - cbn [requestProcessing_start fst] in Hsome.
    destruct (take_snapshots (id :: ids) w) as [|[[ref st] msg] rest] eqn:Hsnap;
      [now destruct Hsome|].
    destruct (Hmarked ref st msg) as (entry & Hl & Hid); [apply list_elem_of_here|].
    rewrite requestProcessing_start_timer, Hsnap.
    apply ensurePolling_running. apply existsb_exists.
    exists (mark_processing entry). split; [|now apply Hpoll].
    apply list_elem_of_In, (list_elem_of_lookup_2 _ ref).
    rewrite <- Hl.
    cbn [requestProcessing_start snd fetch set_fetches items].
    now rewrite ensurePolling_items, Hsnap.
  - intros ref st msg Hin.
    destruct (Hmarked ref st msg Hin) as (entry & Hl & Hid).
    exists (mark_processing entry). split; [exact Hl|].
    split; [|split; [|now apply Hpoll]];
      unfold mark_processing; destruct (num_lt _ _); reflexivity.
Qed.

(** ** What a status response brings *)

(** X8: a status response that carries a truthy [zipUrl] at its top level
    makes it the batch archive location, whatever its records carry, when
    its records are all applied (as they are when each has a status and
    errors with a text); when the application of a record throws, the
    location is left as it was.  The response to a processing request
    always makes its truthy [zipUrl] the location. *)
Theorem top_level_zipUrl_wins payload snapshots w :
  truthy (get payload "zipUrl") = true ->
  (Forall (fun entry => update_error entry = None)
          (normaliseStatusPayload payload) ->
   batchDownloadUrl (pollStatuses_resume (HttpOk payload) w) = get payload "zipUrl")
  /\ batchDownloadUrl (pollStatuses_resume (HttpOk payload) w)
     = match poll_error payload w with
       | None => get payload "zipUrl"
       | Some _ => batchDownloadUrl w
       end
  /\ batchDownloadUrl (requestProcessing_resume snapshots (HttpOk payload) w)
     = get payload "zipUrl".
Proof.
  intros Hzip.
  assert (batchDownloadUrl (pollStatuses_resume (HttpOk payload) w)
          = match poll_error payload w with
            | None => get payload "zipUrl"
            | Some _ => batchDownloadUrl w
            end) as Hpoll.
  { unfold pollStatuses_resume, poll_error.
    pose proof (apply_updates_batchDownloadUrl (normaliseStatusPayload payload)
                  (set_pollErrorNotified false w, VNull)) as Hb.
    destruct (apply_updates _ _) as [[w2 z] [error_message|]]; cbn [fst snd] in *.
    - destruct (pollStatuses_catch_frame w2) as (_ & _ & _ & -> & _). exact Hb.
    - rewrite !Hzip.
      destruct (negb (existsb shouldPoll _));
        [rewrite stopPolling_batchDownloadUrl|]; reflexivity. }
  split; [|split; [exact Hpoll|]].
  - intros Hall. now rewrite Hpoll, poll_error_none.
  - cbn [requestProcessing_resume]. now rewrite Hzip.
Qed.

Lemma apply_update_unmatched w z entry :
  truthy (record_identifier entry) = false
  \/ record_target entry (items w) = None ->
  apply_update (w, z) entry = (w, z, None).
Proof.
  unfold apply_update, record_target, record_identifier.
  intros [Hid|Hnone]; [now rewrite Hid|].
  destruct (negb (truthy _)); [reflexivity|]. now rewrite Hnone.
Qed.

Lemma apply_updates_unmatched updates w z :
  Forall (fun entry => truthy (record_identifier entry) = false
                       \/ record_target entry (items w) = None) updates ->
  apply_updates (w, z) updates = (w, z, None).
Proof.
  induction 1 as [|entry updates Hentry _ IH]; [reflexivity|].
  cbn [apply_updates]. now rewrite apply_update_unmatched.
Qed.

(** X9: a status response of which no record names an item of the queue
    (no identifier, or an identifier that is neither the server identifier
    nor the client identifier of an item) changes no item. *)
Theorem unknown_records_change_no_item payload w :
  Forall (fun entry => truthy (record_identifier entry) = false
                       \/ record_target entry (items w) = None)
         (normaliseStatusPayload payload) ->
  items (pollStatuses_resume (HttpOk payload) w) = items w.
Proof.
  intros Hall.
  rewrite pollStatuses_resume_items, apply_updates_unmatched by exact Hall.
  reflexivity.
Qed.

Lemma normaliseStatusPayload_wraps o l :
  wraps (VObj o) l -> normaliseStatusPayload (VObj o) = l.
Proof.
  unfold wraps, normaliseStatusPayload. cbn [truthy negb].
  intros [Hitems|[(Hitems & Hdata)|(Hitems & Hdata & Hresult)]].
  - now rewrite Hitems.
  - rewrite Hdata. now destruct (get (VObj o) "items").
  - rewrite Hresult.
    destruct (get (VObj o) "items"); try discriminate;
      now destruct (get (VObj o) "data").
Qed.

(** X10: a status response that wraps its records in [items], [data] or
    [result] (and carries no [zipUrl] of its own) has the effect of the bare
    array of these records. *)
Theorem wrapped_response_as_array o l w :
  wraps (VObj o) l ->
  truthy (get (VObj o) "zipUrl") = false ->
  pollStatuses_resume (HttpOk (VObj o)) w = pollStatuses_resume (HttpOk (VArr l)) w.
Proof.
  intros Hwraps Hzip. unfold pollStatuses_resume.
  rewrite (normaliseStatusPayload_wraps o l Hwraps).
  change (normaliseStatusPayload (VArr l)) with l.
  change (get (VArr l) "zipUrl") with VUndef.
  rewrite Hzip. reflexivity.
Qed.

(** ** What a status response keeps *)

Lemma same_identity_refl a : same_identity a a.
Proof. unfold same_identity. tauto. Qed.

Lemma same_identity_trans a b c :
  same_identity a b -> same_identity b c -> same_identity a c.
Proof.
  unfold same_identity.
  intros (Hc & Hn & Hs & Hl & Ht & Hf & Hid) (Hc' & Hn' & Hs' & Hl' & Ht' & Hf' & Hid').
  repeat split; try congruence.
  intros Ha. rewrite <- (Hid Ha). apply Hid'. now rewrite (Hid Ha).
Qed.

Lemma urls_kept_refl a : urls_kept a a.
Proof. unfold urls_kept. tauto. Qed.

Lemma urls_kept_trans a b c : urls_kept a b -> urls_kept b c -> urls_kept a c.
Proof. unfold urls_kept. tauto. Qed.

Lemma merged_url_truthy url old :
  truthy old = true -> truthy (merged_url url old) = true.
Proof. unfold merged_url. now destruct (truthy url) eqn:Hu. Qed.

Lemma updateItemFromServer_identity item payload :
  same_identity item (updateItemFromServer item payload).1.1.
Proof.
  destruct (updateItemFromServer_cases item payload) as [->|(_ & _ & ->)];
    cbn [fst]; [apply same_identity_refl|].
  unfold same_identity, merged. item_simpl. tauto.
Qed.

Lemma updateItemFromServer_urls_kept item payload :
  urls_kept item (updateItemFromServer item payload).1.1.
Proof.
  destruct (updateItemFromServer_cases item payload) as [->|(_ & _ & ->)];
    cbn [fst]; [apply urls_kept_refl|].
  unfold urls_kept, merged. item_simpl.
  repeat split; try apply merged_url_truthy.
  intros Hold.
  destruct (truthy (get payload "processedPreviewUrl")
            && negb (truthy (merged_url _ (processedUrl item)))) eqn:Hc.
  - now apply andb_true_iff in Hc as [Hc _].
  - now apply merged_url_truthy.
Qed.

Section Pointwise.

(** A relation between an item and what a status record makes of it. *)
Variable R : Item -> Item -> Prop.
Hypothesis R_refl : forall a, R a a.
Hypothesis R_trans : forall a b c, R a b -> R b c -> R a c.
Hypothesis R_adopt :
  forall a id, truthy (serverId a) = false -> R a (set_serverId id a).
Hypothesis R_update : forall a entry, R a (updateItemFromServer a entry).1.1.

Lemma apply_update_pointwise acc entry ref a :
  items acc.1 !! ref = Some a ->
  exists b, items (apply_update acc entry).1.1 !! ref = Some b /\ R a b.
Proof.
  destruct acc as [w z]. unfold apply_update. cbn [fst]. intros Hl.
  destruct (negb (truthy _)); [now exists a|].
  destruct (find _ (items w)) as [[ref' item]|] eqn:Hf; [|now exists a].
  apply find_Some_lookup in Hf as [Hl' _].
  set (item1 := if negb (truthy (serverId item)) then _ else item).
  assert (R item item1) as H1.
  { subst item1. destruct (truthy (serverId item)) eqn:Hs; cbn [negb];
      [apply R_refl|now apply R_adopt]. }
  pose proof (R_update item1 entry) as H2.
  assert (exists b, <[ref' := (updateItemFromServer item1 entry).1.1]> (items w) !! ref
                    = Some b /\ R a b) as Hnew.
  { destruct (decide (ref' = ref)) as [->|Hne].
    - rewrite list_lookup_insert_eq by (now apply lookup_lt_Some in Hl).
      eexists. split; [reflexivity|].
      rewrite Hl in Hl'. injection Hl' as ->. now apply R_trans with item1.
    - rewrite list_lookup_insert_ne by assumption. now exists a. }
  destruct (updateItemFromServer item1 entry) as [[item' urls] [error_message|]];
    exact Hnew.
Qed.

Lemma apply_updates_pointwise updates acc ref a :
  items acc.1 !! ref = Some a ->
  exists b, items (apply_updates acc updates).1.1 !! ref = Some b /\ R a b.
Proof.
  intros Hl.
  apply (apply_updates_invariant
           (fun acc' => exists b, items acc'.1 !! ref = Some b /\ R a b));
    [|now exists a].
  intros acc' entry (b & Hb & Hab).
  destruct (apply_update_pointwise acc' entry ref b Hb) as (c & Hc & Hbc).
  exists c. split; [exact Hc|]. now apply R_trans with b.
Qed.

Lemma pollStatuses_resume_pointwise o w ref a :
  items w !! ref = Some a ->
  exists b, items (pollStatuses_resume o w) !! ref = Some b /\ R a b.
Proof.
  intros Hl. destruct o as [m|text|payload].
  1,2: cbn [pollStatuses_resume]; rewrite pollStatuses_failure_items;
    now exists a.
  rewrite pollStatuses_resume_items.
  now apply apply_updates_pointwise.
Qed.

End Pointwise.

(** X11: whatever a status request returns, every item of the queue is
    still at its place with the same client identifier, name, size, dates
    and file, and with the server identifier it had if it had one. *)
Theorem poll_keeps_identity o w ref a :
  items w !! ref = Some a ->
  exists b, items (pollStatuses_resume o w) !! ref = Some b /\ same_identity a b.
Proof.
  apply pollStatuses_resume_pointwise.
  - apply same_identity_refl.
  - apply same_identity_trans.
  - intros item id Hs. unfold same_identity. item_simpl.
    repeat split. congruence.
  - apply updateItemFromServer_identity.
Qed.

(** X12: whatever a status request returns, an item that had a location
    (original, processed, processed preview, the two download locations)
    still has one: a record that lacks the field never clears it. *)
Theorem poll_keeps_urls o w ref a :
  items w !! ref = Some a ->
  exists b, items (pollStatuses_resume o w) !! ref = Some b /\ urls_kept a b.
Proof.
  apply pollStatuses_resume_pointwise.
  - apply urls_kept_refl.
  - apply urls_kept_trans.
  - intros item id _. unfold urls_kept. item_simpl. tauto.
  - apply updateItemFromServer_urls_kept.
Qed.

(** ** A processed item is complete *)

Lemma uploadFile_settled_complete item o :
  status (uploadFile_settled item o) = "processed" ->
  progress (uploadFile_settled item o) = Fin 100.
Proof.
  destruct o as [m|text|payload]; try discriminate.
  unfold uploadFile_settled, uploadFile_success.
  destruct (normaliseStatus _) as [nextStatus|error_message]; [|discriminate].
  match goal with |- context [if String.eqb ?a ?b then _ else _] =>
    destruct (String.eqb a b) eqn:Hs end; [reflexivity|].
  item_simpl. intros Heq. revert Hs. item_simpl. rewrite Heq. discriminate.
Qed.

Lemma updateItemFromServer_complete item payload :
  (status item = "processed" -> progress item = Fin 100) ->
  status (updateItemFromServer item payload).1.1 = "processed" ->
  progress (updateItemFromServer item payload).1.1 = Fin 100.
Proof.
  intros Hitem.
  destruct (updateItemFromServer_cases item payload) as [->|(_ & _ & ->)];
    cbn [fst]; [exact Hitem|].
  unfold merged. item_simpl. now intros ->.
Qed.

Lemma apply_update_complete acc entry :
  processed_complete acc.1 -> processed_complete (apply_update acc entry).1.1.
Proof.
  destruct acc as [w z]. unfold apply_update, processed_complete. cbn [fst].
  intros Hok.
  destruct (negb (truthy _)); [exact Hok|].
  destruct (find _ (items w)) as [[ref item]|] eqn:Hf; [|exact Hok].
  apply find_Some_lookup in Hf as [Hl _].
  pose proof (Forall_lookup_1 _ _ _ _ Hok Hl) as Hitem. cbn beta in Hitem.
  set (item1 := if negb (truthy (serverId item)) then _ else item).
  assert (status item1 = "processed" -> progress item1 = Fin 100) as Hitem1.
  { subst item1. destruct (negb (truthy (serverId item))); exact Hitem. }
  pose proof (updateItemFromServer_complete item1 entry Hitem1) as Hnew.
  destruct (updateItemFromServer item1 entry) as [[item' urls] [error_message|]];
    cbn [fst] in *; cbn [items set_items set_revoked]; now apply Forall_insert.
Qed.

Lemma apply_updates_complete updates acc :
  processed_complete acc.1 -> processed_complete (apply_updates acc updates).1.1.
Proof.
  apply (apply_updates_invariant (fun a => processed_complete a.1)).
  intros a entry. apply apply_update_complete.
Qed.

Lemma processed_complete_items w w' :
  items w' = items w -> processed_complete w -> processed_complete w'.
Proof. unfold processed_complete. now intros ->. Qed.

Lemma step_processed_complete w e :
  processed_complete w -> restores_no_processed e -> processed_complete (step w e).
Proof.
  intros Hok Hsnap.
  destruct e as [f id previewUrl now|ref timer o|ids timer|snapshots o| |o];
    cbn [step].
  - unfold queueFile, uploadFile_start.
    assert (processed_complete
              (set_batchDownloadUrl VNull
                 (set_items
                    (items w ++
                     [{| clientId := id; name := File_name f; size := File_size f;
                         lastModified := File_lastModified f; status := "queued";
                         progress := Fin 0; file := Some f;
                         originalPreviewUrl := previewUrl; originalUrl := VNull;
                         processedPreviewUrl := VNull; createdAt := now;
                         message := VStr ""; serverId := VNull;
                         processedUrl := VNull; downloadOriginalUrl := VNull;
                         downloadProcessedUrl := VNull |}]) w))) as Hq.
    { unfold processed_complete. cbn [items set_batchDownloadUrl set_items].
      apply Forall_app. split; [exact Hok|]. repeat constructor. discriminate. }
    destruct (_ !! _) as [item|]; [|exact Hq].
    destruct (file item); [|exact Hq].
    unfold processed_complete in *. cbn [items fetch set_fetches set_items] in *.
    apply Forall_insert; [exact Hq|discriminate].
  - destruct (items w !! ref) as [item|] eqn:Hl;
      [|unfold uploadFile_resume; now rewrite Hl].
    unfold processed_complete. rewrite (uploadFile_resume_items _ _ _ _ _ Hl).
    apply Forall_insert; [exact Hok|apply uploadFile_settled_complete].
  - unfold requestProcessing_start.
    destruct ids as [[|id ids]|]; try exact Hok.
    cbn [snd]. eapply processed_complete_items; [reflexivity|].
    eapply processed_complete_items; [apply ensurePolling_items|].
    unfold processed_complete in *. cbn [items set_items].
    generalize (take_snapshots (id :: ids) w). generalize dependent (items w).
    intros l Hl snapshots. revert l Hl.
    induction snapshots as [|sn snapshots IH]; intros l Hl; [exact Hl|].
    cbn [foldl]. apply IH. apply Forall_alter; [exact Hl|].
    intros item _ _. unfold mark_processing.
    destruct (num_lt _ _); item_simpl; discriminate.
  - destruct o as [m|text|payload]; cbn [requestProcessing_resume];
      [| |destruct (truthy _); exact Hok].
    all: cbn [restores_no_processed] in Hsnap;
      unfold processed_complete in *; cbn [items set_items];
      generalize dependent (items w); intros l Hl; revert l Hl;
      induction Hsnap as [|[[r st] msg] snapshots Hst _ IH]; intros l Hl;
        [exact Hl|];
      cbn [foldl restore]; apply IH; apply Forall_alter; [exact Hl|];
      intros item _ _; item_simpl; intros Heq; now destruct Hst.
  - eapply processed_complete_items; [apply pollStatuses_start_items|exact Hok].
  - destruct o as [m|text|payload].
    1,2: eapply processed_complete_items;
      [apply pollStatuses_failure_items|exact Hok].
    eapply processed_complete_items; [apply pollStatuses_resume_items|].
    now apply apply_updates_complete.
Qed.

(** X13: along any run of operations in which no rollback restores the
    status "processed", every item whose status is "processed" is at
    100 %. *)
Theorem processed_items_are_complete es :
  Forall restores_no_processed es -> processed_complete (run initial es).
Proof.
  assert (forall w, processed_complete w -> Forall restores_no_processed es ->
                    processed_complete (run w es)) as Hrun.
  { induction es as [|e es IH]; intros w Hok Hall; [exact Hok|].
    inversion Hall; subst. cbn. apply IH; [|assumption].
    now apply step_processed_complete. }
  apply Hrun. constructor.
Qed.

(** ** An item is uploaded once *)

(** X14: once the upload of an item has succeeded (a response that is ok,
    on the status of which [normaliseStatus] returns), [uploadFile] on that
    item does nothing: the item has no file left, and neither the item nor
    the requests change.  When [normaliseStatus] throws on that status, the
    upload has failed and the item keeps its file: [uploadFile] on it would
    issue the request again. *)
Theorem uploadFile_once ref timer payload w item :
  items w !! ref = Some item ->
  let w' := uploadFile_resume ref timer (HttpOk payload) w in
  match normaliseStatus (get payload "status" <||> get payload "state") with
  | Returns _ => uploadFile_start ref w' = w'
  | Throws _ =>
      is_Some (file item) ->
      fetches (uploadFile_start ref w') = ReqUpload ref :: fetches w'
  end.
Proof.
  intros Hl w'.
  assert (items w' !! ref = Some (uploadFile_settled item (HttpOk payload))) as Hl'.
  { subst w'. rewrite (uploadFile_resume_items _ _ _ _ _ Hl).
    apply list_lookup_insert_eq. now apply lookup_lt_Some in Hl. }
  unfold uploadFile_start. rewrite Hl'. unfold uploadFile_settled.
  destruct (normaliseStatus (get payload "status" <||> get payload "state"))
    as [nextStatus|error_message] eqn:Hs.
  - destruct (uploadFile_success_returns item payload nextStatus Hs)
      as (Hnone & _ & _ & Hfile).
    destruct (uploadFile_success item payload) as [item' thrown].
    cbn [fst snd] in *. subst thrown. now rewrite Hfile.
  - destruct (uploadFile_success_throws item payload error_message Hs)
      as (Hsome & Hfile).
    destruct (uploadFile_success item payload) as [item' thrown].
    cbn [fst snd] in *. subst thrown. intros [f Hf].
    cbn [uploadFile_failure file set_message set_progress set_status].
    now rewrite Hfile, Hf.
Qed.

(** ** The progress bar *)

Lemma Math_round_defined n : n <> NaN -> Math_round n <> NaN.
Proof. now destruct n. Qed.

Lemma normaliseProgress_defined value : normaliseProgress value <> NaN.
Proof.
  destruct value as [| | |n| | |]; try discriminate.
  unfold normaliseProgress. destruct n as [| | |q]; cbn; try discriminate.
  destruct (Qle_bool q 1); [|discriminate].
  apply Math_round_defined, round_double_defined.
Qed.

Lemma uploadFile_settled_defined item o :
  progress (uploadFile_settled item o) <> NaN.
Proof.
  destruct o as [m|text|payload]; try discriminate.
  unfold uploadFile_settled, uploadFile_success.
  destruct (normaliseStatus _) as [nextStatus|error_message]; [|discriminate].
  match goal with |- context [if ?c then _ else _] => destruct c end;
    item_simpl; [discriminate|].
  destruct (get payload "progress"); try discriminate;
    apply normaliseProgress_defined.
Qed.

Lemma updateItemFromServer_defined item payload :
  progress item <> NaN -> progress (updateItemFromServer item payload).1.1 <> NaN.
Proof.
  intros Hitem.
  destruct (updateItemFromServer_cases item payload) as [->|(_ & _ & ->)];
    cbn [fst]; [exact Hitem|].
  unfold merged. item_simpl.
  match goal with |- context [if String.eqb ?a ?b then _ else _] =>
    destruct (String.eqb a b) end; [discriminate|].
  unfold merged_progress.
  destruct (is_number (get payload "progress"));
    [apply normaliseProgress_defined|].
  destruct (is_number (get payload "percentage"));
    [apply normaliseProgress_defined|exact Hitem].
Qed.

Lemma apply_update_defined acc entry :
  progress_defined acc.1 -> progress_defined (apply_update acc entry).1.1.
Proof.
  destruct acc as [w z]. unfold apply_update, progress_defined. cbn [fst].
  intros Hok.
  destruct (negb (truthy _)); [exact Hok|].
  destruct (find _ (items w)) as [[ref item]|] eqn:Hf; [|exact Hok].
  apply find_Some_lookup in Hf as [Hl _].
  pose proof (Forall_lookup_1 _ _ _ _ Hok Hl) as Hitem. cbn beta in Hitem.
  set (item1 := if negb (truthy (serverId item)) then _ else item).
  assert (progress item1 <> NaN) as Hitem1.
  { subst item1. destruct (negb (truthy (serverId item))); exact Hitem. }
  pose proof (updateItemFromServer_defined item1 entry Hitem1) as Hnew.
  destruct (updateItemFromServer item1 entry) as [[item' urls] [error_message|]];
    cbn [fst] in *; cbn [items set_items set_revoked]; now apply Forall_insert.
Qed.

Lemma apply_updates_defined updates acc :
  progress_defined acc.1 -> progress_defined (apply_updates acc updates).1.1.
Proof.
  apply (apply_updates_invariant (fun a => progress_defined a.1)).
  intros a entry. apply apply_update_defined.
Qed.

Lemma progress_defined_items w w' :
  items w' = items w -> progress_defined w -> progress_defined w'.
Proof. unfold progress_defined. now intros ->. Qed.

Lemma step_progress_defined w e : progress_defined w -> progress_defined (step w e).
Proof.
  intros Hok.
  destruct e as [f id previewUrl now|ref timer o|ids timer|snapshots o| |o];
    cbn [step].
  - unfold queueFile, uploadFile_start.
    assert (progress_defined
              (set_batchDownloadUrl VNull
                 (set_items
                    (items w ++
                     [{| clientId := id; name := File_name f; size := File_size f;
                         lastModified := File_lastModified f; status := "queued";
                         progress := Fin 0; file := Some f;
                         originalPreviewUrl := previewUrl; originalUrl := VNull;
                         processedPreviewUrl := VNull; createdAt := now;
                         message := VStr ""; serverId := VNull;
                         processedUrl := VNull; downloadOriginalUrl := VNull;
                         downloadProcessedUrl := VNull |}]) w))) as Hq.
    { unfold progress_defined. cbn [items set_batchDownloadUrl set_items].
      apply Forall_app. split; [exact Hok|]. repeat constructor. discriminate. }
    destruct (_ !! _) as [item|]; [|exact Hq].
    destruct (file item); [|exact Hq].
    unfold progress_defined in *. cbn [items fetch set_fetches set_items] in *.
    apply Forall_insert; [exact Hq|discriminate].
  - destruct (items w !! ref) as [item|] eqn:Hl;
      [|unfold uploadFile_resume; now rewrite Hl].
    unfold progress_defined. rewrite (uploadFile_resume_items _ _ _ _ _ Hl).
    apply Forall_insert; [exact Hok|apply uploadFile_settled_defined].
  - unfold requestProcessing_start.
    destruct ids as [[|id ids]|]; try exact Hok.
    cbn [snd]. eapply progress_defined_items; [reflexivity|].
    eapply progress_defined_items; [apply ensurePolling_items|].
    unfold progress_defined in *. cbn [items set_items].
    generalize (take_snapshots (id :: ids) w). generalize dependent (items w).
    intros l Hl snapshots. revert l Hl.
    induction snapshots as [|sn snapshots IH]; intros l Hl; [exact Hl|].
    cbn [foldl]. apply IH. apply Forall_alter; [exact Hl|].
    intros item _ Hitem. unfold mark_processing. item_simpl.
    destruct (num_lt _ _); item_simpl; [discriminate|exact Hitem].
  - destruct o as [m|text|payload]; cbn [requestProcessing_resume];
      [| |destruct (truthy _); exact Hok].
    all: unfold progress_defined in *; cbn [items set_items];
      generalize dependent (items w); intros l Hl; revert l Hl;
      induction snapshots as [|[[r st] msg] snapshots IH]; intros l Hl;
        [exact Hl|];
      cbn [foldl restore]; apply IH; apply Forall_alter; [exact Hl|];
      intros item _ Hitem; exact Hitem.
  - eapply progress_defined_items; [apply pollStatuses_start_items|exact Hok].
  - destruct o as [m|text|payload].
    1,2: eapply progress_defined_items;
      [apply pollStatuses_failure_items|exact Hok].
    eapply progress_defined_items; [apply pollStatuses_resume_items|].
    now apply apply_updates_defined.
Qed.

(** X15: whatever the operations that ran and whatever the server sent, the
    value that [renderQueueItem] gives the progress bar of an item is an
    integer between 0 and 100. *)
Theorem progress_bar_in_range es :
  Forall (fun item => is_percentage (progressBarValue item) = true)
         (items (run initial es)).
Proof.
  assert (forall w, progress_defined w -> progress_defined (run w es)) as Hrun.
  { induction es as [|e es IH]; intros w Hok; [exact Hok|].
    cbn. apply IH. now apply step_progress_defined. }
  eapply Forall_impl; [apply Hrun; constructor|].
  intros item. apply progressBarValue_clamped.
Qed.

(** ** The intake of files *)

Lemma queueFile_fields x w :
  let w' := queueFile (selected_file x) (selected_id x) (selected_preview x)
                      (selected_now x) w in
  items w' = (items w ++ [queued_item x])%list
  /\ fetches w' = ReqUpload (length (items w)) :: fetches w
  /\ batchDownloadUrl w' = VNull
  /\ pollTimer w' = pollTimer w /\ intervals w' = intervals w
  /\ pollErrorNotified w' = pollErrorNotified w /\ revoked w' = revoked w.
Proof.
  intros w'. subst w'. unfold queueFile, uploadFile_start.
  cbn [items set_items set_batchDownloadUrl].
  rewrite length_app. cbn [length].
  replace (length (items w) + 1 - 1) with (length (items w)) by lia.
  rewrite lookup_app_r, Nat.sub_diag by lia. cbn [lookup list_lookup file].
  cbn [fetch set_fetches set_items set_batchDownloadUrl items fetches
       batchDownloadUrl pollTimer intervals pollErrorNotified revoked].
  rewrite insert_app_r_alt, Nat.sub_diag by lia.
  repeat split.
Qed.

Lemma queue_all_fields xs w :
  let w' := foldl (fun w x => queueFile (selected_file x) (selected_id x)
                                        (selected_preview x) (selected_now x) w)
                  w xs in
  items w' = (items w ++ List.map queued_item xs)%list
  /\ fetches w'
     = (rev (List.map ReqUpload (seq (length (items w)) (length xs)))
        ++ fetches w)%list
  /\ batchDownloadUrl w' = match xs with [] => batchDownloadUrl w | _ => VNull end
  /\ pollTimer w' = pollTimer w /\ intervals w' = intervals w
  /\ pollErrorNotified w' = pollErrorNotified w /\ revoked w' = revoked w.
Proof.
  revert w. induction xs as [|x xs IH]; intros w w'; subst w'.
  - cbn. rewrite app_nil_r. now repeat split.
  - cbn [foldl].
    destruct (queueFile_fields x w) as (Hi & Hf & Hb & Ht & Hn & He & Hr).
    destruct (IH (queueFile (selected_file x) (selected_id x) (selected_preview x)
                            (selected_now x) w))
      as (Hi' & Hf' & Hb' & Ht' & Hn' & He' & Hr').
    rewrite Hi', Hf', Hb', Ht', Hn', He', Hr', Hi, Hf, Hb, Ht, Hn, He, Hr.
    rewrite length_app. cbn [length List.map seq rev].
    replace (length (items w) + 1) with (S (length (items w))) by lia.
    rewrite <- !app_assoc. cbn [app].
    repeat split. now destruct xs.
Qed.

Lemma handleFileSelection_fields_items fileList w :
  items (handleFileSelection fileList w)
  = (items w ++ List.map queued_item (acceptedFiles fileList w))%list.
Proof.
  unfold handleFileSelection.
  destruct (queue_all_fields (acceptedFiles fileList w) w) as (Hi & _).
  destruct (acceptedFiles fileList w) as [|x xs] eqn:Ha; [|exact Hi].
  cbn. now rewrite app_nil_r.
Qed.

Lemma isDuplicateFile_spec f w :
  isDuplicateFile f w = false
  <-> forall old, In old (items w) ->
        ~ (name old = File_name f /\ size old = File_size f
           /\ lastModified old = File_lastModified f).
Proof.
  unfold isDuplicateFile. rewrite <- not_true_iff_false, existsb_exists. split.
  - intros Hnone old Hin (Hn & Hs & Hl). apply Hnone. exists old.
    split; [exact Hin|]. now rewrite Hn, Hs, Hl, String.eqb_refl, !Z.eqb_refl.
  - intros Hnone (old & Hin & Hsame). apply (Hnone old Hin).
    apply andb_true_iff in Hsame as [Hsame Hl].
    apply andb_true_iff in Hsame as [Hn Hs].
    apply String.eqb_eq in Hn. apply Z.eqb_eq in Hs, Hl. now repeat split.
Qed.

(** X16: a selection adds to the queue, in their order, the items of its
    files that are valid and that have not the name, size and modification
    date of an item of the queue as it was before the selection (a file that
    is twice in the selection is queued twice): each is "uploading", at 0,
    with its file.  It issues one upload request per item, and resets the
    batch archive location only when it queues a file; the timer and the
    items that were there are as before. *)
Theorem handleFileSelection_queues fileList w :
  let accepted :=
    List.filter (fun x => is_valid (validateFile (selected_file x))
                          && negb (isDuplicateFile (selected_file x) w))
                fileList in
  let w' := handleFileSelection fileList w in
  (forall x,
      In x accepted
      <-> In x fileList
          /\ validateFile (selected_file x) = Valid
          /\ forall old, In old (items w) -> ~ same_file old (queued_item x))
  /\ items w' = (items w ++ List.map queued_item accepted)%list
  /\ fetches w'
     = (rev (List.map ReqUpload (seq (length (items w)) (length accepted)))
        ++ fetches w)%list
  /\ batchDownloadUrl w'
     = match accepted with [] => batchDownloadUrl w | _ => VNull end
  /\ pollTimer w' = pollTimer w /\ intervals w' = intervals w.
Proof.
  intros accepted w'. split.
  { intros x. subst accepted. rewrite filter_In, andb_true_iff, negb_true_iff.
    rewrite isDuplicateFile_spec. unfold same_file, queued_item.
    cbn [name size lastModified].
    assert (is_valid (validateFile (selected_file x)) = true
            <-> validateFile (selected_file x) = Valid) as ->
      by (destruct (validateFile (selected_file x)); cbn; split; congruence).
    reflexivity. }
  subst w'. unfold handleFileSelection.
  change (acceptedFiles fileList w) with accepted.
  destruct (queue_all_fields accepted w) as (Hi & Hf & Hb & Ht & Hn & _).
  destruct accepted as [|x xs] eqn:Ha.
  - cbn. rewrite app_nil_r. now repeat split.
  - now repeat split.
Qed.

Lemma isDuplicateFile_false f w old :
  isDuplicateFile f w = false -> In old (items w) ->
  ~ (name old = File_name f /\ size old = File_size f
     /\ lastModified old = File_lastModified f).
Proof.
  unfold isDuplicateFile. intros Hdup Hin (Hn & Hs & Hl).
  assert (existsb (fun item => String.eqb (name item) (File_name f)
                               && (size item =? File_size f)%Z
                               && (lastModified item =? File_lastModified f)%Z)
                  (items w) = true) as Hex.
  { apply existsb_exists. exists old. split; [exact Hin|].
    now rewrite Hn, Hs, Hl, String.eqb_refl, !Z.eqb_refl. }
  congruence.
Qed.

Lemma validateFile_size f :
  is_valid (validateFile f) = true -> (File_size f <= FILE_SIZE_LIMIT)%Z.
Proof.
  unfold validateFile. destruct (FILE_SIZE_LIMIT <? File_size f)%Z eqn:Hlt.
  - discriminate.
  - intros _. apply Z.ltb_ge in Hlt. exact Hlt.
Qed.

(** X17: a selection never queues a file of more than 25 MB, nor a file
    that has the name, the size and the modification date of an item that
    was in the queue before the selection. *)
Theorem handleFileSelection_admits fileList w :
  exists added,
    items (handleFileSelection fileList w) = (items w ++ added)%list
    /\ Forall (fun item =>
                 (size item <= FILE_SIZE_LIMIT)%Z
                 /\ forall old, In old (items w) -> ~ same_file old item)
              added.
Proof.
  exists (List.map queued_item (acceptedFiles fileList w)). split.
  - apply handleFileSelection_fields_items.
  - apply Forall_forall. intros item Hin.
    apply list_elem_of_In, in_map_iff in Hin as (x & <- & Hx).
    apply filter_In in Hx as [_ Hx]. apply andb_true_iff in Hx as [Hv Hd].
    split; [now apply validateFile_size|].
    intros old Hold. apply negb_true_iff in Hd.
    apply (isDuplicateFile_false _ _ _ Hd Hold).
Qed.

(** ** The "process all" button *)

Lemma mark_processing_not_eligible item :
  canRequestProcessing (mark_processing item) = false.
Proof.
  unfold canRequestProcessing, mark_processing.
  destruct (num_lt _ _); item_simpl; apply andb_false_r.
Qed.

Lemma processAll_click_idle timer w :
  List.filter canRequestProcessing (items w) = [] ->
  processAll_click timer w = ([], w).
Proof. unfold processAll_click. now intros ->. Qed.

Lemma filter_nil_forall {A} (f : A -> bool) (l : list A) :
  List.filter f l = [] -> forall x, In x l -> f x = false.
Proof.
  intros Hnil x Hin. destruct (f x) eqn:Hx; [|reflexivity].
  assert (In x (List.filter f l)) as Hf by (apply filter_In; now split).
  rewrite Hnil in Hf. destruct Hf.
Qed.

Lemma processAll_click_items timer w ref a :
  ids_identify w ->
  items w !! ref = Some a ->
  items (processAll_click timer w).2 !! ref
  = Some (if canRequestProcessing a then mark_processing a else a).
Proof.
  intros Hids Hl. unfold processAll_click.
  destruct (List.filter canRequestProcessing (items w)) as [|r rs] eqn:Hready.
  - cbn [snd]. rewrite Hl.
    rewrite (filter_nil_forall _ _ Hready a); [reflexivity|].
    apply list_elem_of_In. now apply list_elem_of_lookup_2 in Hl.
  - cbn [List.map]. rewrite requestProcessing_start_items.
    change (serverId r :: List.map serverId rs)
      with (List.map serverId (r :: rs)).
    rewrite <- Hready.
    destruct (canRequestProcessing a) eqn:Ha.
    + rewrite decide_True, Hl; [reflexivity|].
      apply snapshot_refs. exists (serverId a), a. split; [|now apply Hids].
      apply list_elem_of_In, in_map_iff. exists a. split; [reflexivity|].
      apply filter_In. split; [|exact Ha].
      apply list_elem_of_In. now apply list_elem_of_lookup_2 in Hl.
    + rewrite decide_False; [exact Hl|].
      intros (id & entry & Hid & Hf)%snapshot_refs.
      apply list_elem_of_In, in_map_iff in Hid as (b & <- & Hb).
      apply filter_In in Hb as [Hb Hbe].
      apply list_elem_of_In, list_elem_of_lookup_1 in Hb as [j Hj].
      rewrite (Hids j b Hj Hbe) in Hf. injection Hf as <- <-.
      rewrite Hl in Hj. injection Hj as <-. congruence.
Qed.

Lemma processAll_click_length timer w :
  length (items (processAll_click timer w).2) = length (items w).
Proof.
  unfold processAll_click. destruct (List.filter _ _); [reflexivity|].
  apply requestProcessing_start_length.
Qed.


(** X19: under the same condition, a second click on "process all" finds
    nothing to process: it takes no snapshot and changes nothing, so no
    second request is issued for the same items. *)
Theorem processAll_twice timer1 timer2 w :
  ids_identify w ->
  processAll_click timer2 (processAll_click timer1 w).2
  = ([], (processAll_click timer1 w).2).
Proof.
  intros Hids. apply processAll_click_idle.
  assert (Forall (fun item => canRequestProcessing item = false)
                 (items (processAll_click timer1 w).2)) as Hnone.
  { apply Forall_lookup. intros ref b Hb.
    assert (ref < length (items w)) as Hlt
      by (rewrite <- (processAll_click_length timer1); now apply lookup_lt_Some in Hb).
    apply lookup_lt_is_Some_2 in Hlt as [a Ha].
    rewrite (processAll_click_items timer1 w ref a Hids Ha) in Hb.
    injection Hb as <-.
    destruct (canRequestProcessing a) eqn:He;
      [apply mark_processing_not_eligible|exact He]. }
  now apply filter_none.
Qed.

(** ** The name of a processed file *)

Lemma endsWith_spec s p : endsWith s p = true <-> exists pre, s = pre ++ p.
Proof.
  split.
  - induction s as [|c s IH]; cbn [endsWith].
    + rewrite orb_false_r. intros ->%String.eqb_eq. now exists "".
    + intros [->%String.eqb_eq|Hrest]%orb_true_iff; [now exists ""|].
      destruct (IH Hrest) as [pre ->]. now exists (String c pre).
  - intros [pre ->]. induction pre as [|c pre IH].
    + change ("" ++ p) with p.
      destruct p; unfold endsWith; fold endsWith;
        apply orb_true_iff; left; apply String.eqb_refl.
    + change (String c pre ++ p) with (String c (pre ++ p)).
      unfold endsWith; fold endsWith. rewrite IH. apply orb_true_r.
Qed.

Lemma lastIndexOf_dot_none s : mentions_dot s = false -> lastIndexOf_dot s = None.
Proof.
  induction s as [|c s IH]; [reflexivity|]. cbn [mentions_dot lastIndexOf_dot].
  intros [Hc Hs]%orb_false_iff. now rewrite IH, Hc.
Qed.

Lemma lastIndexOf_dot_last base extension :
  mentions_dot extension = false ->
  lastIndexOf_dot (base ++ String "." extension) = Some (String.length base).
Proof.
  intros Hext. induction base as [|c base IH].
  - change ("" ++ String "." extension) with (String "." extension).
    cbn [lastIndexOf_dot String.length]. now rewrite lastIndexOf_dot_none.
  - change (String c base ++ String "." extension)
      with (String c (base ++ String "." extension)).
    cbn [lastIndexOf_dot String.length]. now rewrite IH.
Qed.

Lemma slice_to_append base rest : slice_to (String.length base) (base ++ rest) = base.
Proof.
  induction base as [|c base IH].
  - now destruct rest.
  - change (String c base ++ rest) with (String c (base ++ rest)).
    cbn [String.length slice_to]. now rewrite IH.
Qed.

Lemma slice_from_append base rest :
  slice_from (String.length base) (base ++ rest) = rest.
Proof.
  induction base as [|c base IH]; [now destruct rest|].
  change (String c base ++ rest) with (String c (base ++ rest)).
  cbn [String.length slice_from]. exact IH.
Qed.

(** X20: [buildProcessedFilename] puts "-processed" before the extension,
    which is what follows the last dot of the name, and at the end of a
    name without dot. *)
Theorem buildProcessedFilename_spec :
  (forall base extension,
      mentions_dot extension = false ->
      buildProcessedFilename (base ++ String "." extension)
      = base ++ "-processed" ++ String "." extension)
  /\ (forall name,
         mentions_dot name = false -> name <> "" ->
         buildProcessedFilename name = name ++ "-processed").
Proof.
  split.
  - intros base extension Hext. unfold buildProcessedFilename.
    assert (String.eqb (base ++ String "." extension) "" = false) as ->
      by now destruct base.
    rewrite lastIndexOf_dot_last by exact Hext.
    now rewrite slice_to_append, slice_from_append.
  - intros name Hdot Hne. unfold buildProcessedFilename.
    rewrite lastIndexOf_dot_none by exact Hdot.
    destruct (String.eqb name "") eqn:He; [|reflexivity].
    now apply String.eqb_eq in He.
Qed.

(** ** Items keep their identity *)

Lemma still_that_item_refl a : still_that_item a a.
Proof. unfold still_that_item. tauto. Qed.

Lemma still_that_item_trans a b c :
  still_that_item a b -> still_that_item b c -> still_that_item a c.
Proof.
  unfold still_that_item.
  intros (Hc & Hn & Hs & Hl & Ht & Hid) (Hc' & Hn' & Hs' & Hl' & Ht' & Hid').
  repeat split; try congruence. tauto.
Qed.

Lemma same_identity_still a b : same_identity a b -> still_that_item a b.
Proof.
  unfold same_identity, still_that_item.
  intros (Hc & Hn & Hs & Hl & Ht & _ & Hid). repeat split; try assumption.
  intros Ha. now rewrite (Hid Ha).
Qed.

Lemma or_else_truthy_r a b : truthy b = true -> truthy (a <||> b) = true.
Proof. unfold or_else. now destruct (truthy a) eqn:Ha. Qed.

Lemma or_else_truthy_l a b : truthy a = true -> truthy (a <||> b) = true.
Proof. unfold or_else. intros Ha. now rewrite Ha. Qed.

Lemma uploadFile_success_still item payload :
  still_that_item item (uploadFile_success item payload).1.
Proof.
  unfold still_that_item, uploadFile_success.
  destruct (normaliseStatus _) as [nextStatus|error_message]; cbn [fst];
    [match goal with |- context [if ?c then _ else _] => destruct c end|];
    item_simpl; repeat split;
    intros Hid; apply or_else_truthy_l, or_else_truthy_r, Hid.
Qed.

Lemma uploadFile_settled_still item o :
  still_that_item item (uploadFile_settled item o).
Proof.
  destruct o as [m|text|payload].
  1,2: unfold still_that_item, uploadFile_settled, uploadFile_failure;
    item_simpl; tauto.
  pose proof (uploadFile_success_still item payload) as Hstill.
  unfold uploadFile_settled.
  destruct (uploadFile_success item payload) as [item' [error_message|]];
    [|exact Hstill].
  revert Hstill. unfold still_that_item, uploadFile_failure. item_simpl. tauto.
Qed.

Lemma alter_still (f : Item -> Item) (l : list Item) i ref a :
  (forall x, still_that_item x (f x)) ->
  l !! ref = Some a ->
  exists b, alter f i l !! ref = Some b /\ still_that_item a b.
Proof.
  intros Hf Hl. destruct (decide (i = ref)) as [->|Hne].
  - rewrite list_lookup_alter_eq, Hl. exists (f a). now split.
  - rewrite list_lookup_alter_ne by assumption. exists a.
    split; [exact Hl|apply still_that_item_refl].
Qed.

Lemma insert_still (l : list Item) i x ref a :
  (forall y, l !! i = Some y -> still_that_item y x) ->
  l !! ref = Some a ->
  exists b, <[i := x]> l !! ref = Some b /\ still_that_item a b.
Proof.
  intros Hx Hl. destruct (decide (i = ref)) as [->|Hne].
  - rewrite list_lookup_insert_eq by (now apply lookup_lt_Some in Hl).
    exists x. split; [reflexivity|now apply Hx].
  - rewrite list_lookup_insert_ne by assumption. exists a.
    split; [exact Hl|apply still_that_item_refl].
Qed.

Lemma mark_all_still (snapshots : list Snapshot) (l : list Item) ref a :
  l !! ref = Some a ->
  exists b,
    foldl (fun l (sn : Snapshot) => alter mark_processing sn.1.1 l) l snapshots
      !! ref = Some b
    /\ still_that_item a b.
Proof.
  revert l a. induction snapshots as [|sn snapshots IH]; intros l a Hl.
  - exists a. split; [exact Hl|apply still_that_item_refl].
  - cbn [foldl].
    destruct (alter_still mark_processing l sn.1.1 ref a) as (b & Hb & Hab);
      [|exact Hl|].
    { intros x. unfold still_that_item, mark_processing.
      destruct (num_lt _ _); item_simpl; tauto. }
    destruct (IH _ _ Hb) as (c & Hc & Hbc).
    exists c. split; [exact Hc|]. now apply still_that_item_trans with b.
Qed.

Lemma restore_all_still (snapshots : list Snapshot) (l : list Item) ref a :
  l !! ref = Some a ->
  exists b,
    foldl (fun l sn => restore sn l) l snapshots !! ref = Some b
    /\ still_that_item a b.
Proof.
  revert l a. induction snapshots as [|[[r st] msg] snapshots IH]; intros l a Hl.
  - exists a. split; [exact Hl|apply still_that_item_refl].
  - cbn [foldl restore].
    destruct (alter_still (fun item => set_message msg (set_status st item))
                l r ref a) as (b & Hb & Hab); [|exact Hl|].
    { intros x. unfold still_that_item. item_simpl. tauto. }
    destruct (IH _ _ Hb) as (c & Hc & Hbc).
    exists c. split; [exact Hc|]. now apply still_that_item_trans with b.
Qed.

Lemma step_still_that_item w e ref a :
  items w !! ref = Some a ->
  exists b, items (step w e) !! ref = Some b /\ still_that_item a b.
Proof.
  intros Hl.
  destruct e as [f id previewUrl now|ref' timer o|ids timer|snapshots o| |o];
    cbn [step].
  - destruct (queueFile_fields
                {| selected_file := f; selected_id := id;
                   selected_preview := previewUrl; selected_now := now |} w)
      as (Hitems & _).
    cbn [selected_file selected_id selected_preview selected_now] in Hitems.
    rewrite Hitems. exists a.
    split; [now apply lookup_app_l_Some|apply still_that_item_refl].
  - destruct (items w !! ref') as [item|] eqn:Hl'.
    + rewrite (uploadFile_resume_items _ _ _ _ _ Hl').
      apply insert_still; [|exact Hl]. intros y Hy.
      rewrite Hl' in Hy. injection Hy as <-. apply uploadFile_settled_still.
    + unfold uploadFile_resume. rewrite Hl'. exists a.
      split; [exact Hl|apply still_that_item_refl].
  - unfold requestProcessing_start.
    destruct ids as [[|id ids]|];
      try (exists a; split; [exact Hl|apply still_that_item_refl]).
    cbn [snd fetch set_fetches items]. rewrite ensurePolling_items.
    cbn [set_items items]. now apply mark_all_still.
  - destruct o as [m|text|payload]; cbn [requestProcessing_resume].
    1,2: cbn [items set_items]; now apply restore_all_still.
    destruct (truthy _); exists a; (split; [exact Hl|apply still_that_item_refl]).
  - rewrite pollStatuses_start_items. exists a.
    split; [exact Hl|apply still_that_item_refl].
  - apply pollStatuses_resume_pointwise; try exact Hl.
    + apply still_that_item_refl.
    + apply still_that_item_trans.
    + intros item id Hs. unfold still_that_item. item_simpl.
      repeat split. congruence.
    + intros item entry. apply same_identity_still, updateItemFromServer_identity.
Qed.

Lemma run_still_that_item es w ref a :
  items w !! ref = Some a ->
  exists b, items (run w es) !! ref = Some b /\ still_that_item a b.
Proof.
  revert w a. induction es as [|e es IH]; intros w a Hl.
  - exists a. split; [exact Hl|apply still_that_item_refl].
  - cbn [run foldl].
    destruct (step_still_that_item w e ref a Hl) as (b & Hb & Hab).
    destruct (IH _ _ Hb) as (c & Hc & Hbc).
    exists c. split; [exact Hc|]. now apply still_that_item_trans with b.
Qed.

(** X21: whatever operations run, an item of the queue stays at its
    position with its client identifier, name, size and dates, and an item
    that has a server identifier never loses it: items are never removed,
    moved or given another identity. *)
Theorem items_keep_their_identity es w ref a :
  items w !! ref = Some a ->
  exists b, items (run w es) !! ref = Some b /\ still_that_item a b.
Proof. apply run_still_that_item. Qed.

(** X22: a processing request that fails can be made again: whatever
    happened while it was pending, every item of which a snapshot was taken
    and that could be processed when the request was made can be processed
    once the failure has been handled. *)
Theorem failed_request_can_be_retried ids timer w0 es o ref st msg item0 :
  (forall payload, o <> HttpOk payload) ->
  (ref, st, msg) ∈ (requestProcessing_start ids timer w0).1 ->
  items w0 !! ref = Some item0 ->
  canRequestProcessing item0 = true ->
  exists item3,
    items (requestProcessing_resume (requestProcessing_start ids timer w0).1 o
             (run (requestProcessing_start ids timer w0).2 es)) !! ref
    = Some item3
    /\ canRequestProcessing item3 = true.
Proof.
  intros Hfail Hin Hl0 Heligible.
  assert (Hsound : forall ref st msg,
             (ref, st, msg) ∈ (requestProcessing_start ids timer w0).1 ->
             exists item, items w0 !! ref = Some item
                          /\ status item = st /\ message item = msg).
  { unfold requestProcessing_start.
    destruct ids as [[|id ids]|]; cbn [fst];
      try (intros r s m Hr; now apply not_elem_of_nil in Hr).
    intros r s m. apply take_snapshots_sound. }
  destruct (run_still_that_item (ProcessingRequested ids timer :: es) w0 ref item0 Hl0)
    as (item2 & Hl2 & Hstill).
  cbn [run foldl step] in Hl2. fold (run (requestProcessing_start ids timer w0).2 es) in Hl2.
  exists (restored_from (items w0) ref item2). split.
  - unfold requestProcessing_resume.
    destruct o as [m|text|payload]; [| |now destruct (Hfail payload)];
      cbn [items set_items];
      rewrite (restore_all_by_position (items w0)) by exact Hsound;
      (rewrite alter_all_lookup by (intros; apply restored_from_idem));
      (rewrite decide_True, Hl2; [reflexivity|]);
      apply list_elem_of_fmap; exists (ref, st); (split; [reflexivity|]);
      apply list_elem_of_fmap; exists (ref, st, msg); now split.
  - unfold restored_from. rewrite Hl0.
    unfold canRequestProcessing in *. item_simpl.
    apply andb_true_iff in Heligible as [Hid Hst].
    destruct Hstill as (_ & _ & _ & _ & _ & Hkeep).
    now rewrite (Hkeep Hid), Hst.
Qed.

(** ** The "process" button of an item *)


(** ** The files that are accepted *)

Lemma toLowerCase_app a b : toLowerCase (a ++ b) = toLowerCase a ++ toLowerCase b.
Proof.
  induction a as [|c a IH]; [reflexivity|].
  change (String c a ++ b) with (String c (a ++ b)).
  cbn [toLowerCase]. rewrite IH. reflexivity.
Qed.

Lemma toLowerCase_split s pre ext :
  toLowerCase s = pre ++ ext ->
  exists base ext', s = base ++ ext' /\ toLowerCase ext' = ext.
Proof.
  revert s. induction pre as [|c pre IH]; intros s Hs.
  - exists "", s. now split.
  - destruct s as [|d s]; [discriminate|].
    change (String c pre ++ ext) with (String c (pre ++ ext)) in Hs.
    cbn [toLowerCase] in Hs. injection Hs as _ Hs.
    destruct (IH s Hs) as (base & ext' & -> & Hext).
    exists (String d base), ext'. now split.
Qed.

(** X24: a file is valid exactly when it has at most 25 MB and either has
    no MIME type, or an "image/" MIME type, or a name that ends, in any
    letter case, with one of the accepted extensions. *)
Theorem validateFile_valid_iff f :
  validateFile f = Valid <->
  (File_size f <= FILE_SIZE_LIMIT)%Z
  /\ (File_type f = ""
      \/ startsWith (File_type f) ACCEPTED_MIME_PREFIX = true
      \/ exists base extension,
           File_name f = base ++ extension
           /\ In (toLowerCase extension) ACCEPTED_EXTENSIONS).
Proof.
  unfold validateFile.
  destruct (FILE_SIZE_LIMIT <? File_size f)%Z eqn:Hsize.
  - apply Z.ltb_lt in Hsize. split; [discriminate|]. intros [Hle _]. lia.
  - apply Z.ltb_ge in Hsize.
    destruct (String.eqb (File_type f) "") eqn:Hempty;
      [apply String.eqb_eq in Hempty; cbn [orb negb andb]; tauto|].
    destruct (startsWith (File_type f) ACCEPTED_MIME_PREFIX) eqn:Hmime;
      [cbn [orb negb andb]; tauto|].
    cbn [orb negb andb].
    destruct (existsb _ ACCEPTED_EXTENSIONS) eqn:Hext; cbn [negb].
    + split; [intros _|reflexivity]. split; [exact Hsize|]. right. right.
      apply existsb_exists in Hext as (extension & Hin & Hends).
      apply endsWith_spec in Hends as [pre Hpre].
      destruct (toLowerCase_split _ _ _ Hpre) as (base & ext' & Hname & Hlow).
      exists base, ext'. split; [exact Hname|]. now rewrite Hlow.
    + split; [discriminate|].
      intros [_ [Hno|[Hno|(base & extension & Hname & Hin)]]].
      * apply String.eqb_neq in Hempty. now destruct Hempty.
      * discriminate.
      * assert (existsb (fun extension =>
                           endsWith (toLowerCase (File_name f)) extension)
                        ACCEPTED_EXTENSIONS = true) as Hyes.
        { apply existsb_exists. exists (toLowerCase extension).
          split; [exact Hin|]. apply endsWith_spec.
          exists (toLowerCase base). now rewrite Hname, toLowerCase_app. }
        congruence.
Qed.

(** ** The same selection again *)

Lemma isDuplicateFile_queued x w :
  In (queued_item x) (items w) -> isDuplicateFile (selected_file x) w = true.
Proof.
  intros Hin. unfold isDuplicateFile. apply existsb_exists.
  exists (queued_item x). split; [exact Hin|].
  cbn [queued_item name size lastModified].
  now rewrite String.eqb_refl, !Z.eqb_refl.
Qed.

Lemma isDuplicateFile_mono f w w' added :
  items w' = (items w ++ added)%list ->
  isDuplicateFile f w = true -> isDuplicateFile f w' = true.
Proof.
  unfold isDuplicateFile. intros ->. rewrite existsb_app. now intros ->.
Qed.

(** X25: once a selection has been handled, a selection made of files of
    it (the same files chosen again, whatever identifiers, previews and
    dates they would get) queues nothing and leaves the state as it is:
    each of its files is invalid or already in the queue. *)
Theorem handleFileSelection_again fileList again w :
  (forall y, In y again ->
             exists x, In x fileList /\ selected_file y = selected_file x) ->
  handleFileSelection again (handleFileSelection fileList w)
  = handleFileSelection fileList w.
Proof.
  intros Hfiles.
  assert (acceptedFiles again (handleFileSelection fileList w) = []) as Hnone.
  { unfold acceptedFiles at 1. apply filter_none. apply Forall_forall.
    intros y Hy. apply list_elem_of_In in Hy.
    destruct (Hfiles y Hy) as (x & Hx & ->).
    destruct (is_valid (validateFile (selected_file x))) eqn:Hv; [|reflexivity].
    cbn [andb]. apply negb_false_iff.
    destruct (isDuplicateFile (selected_file x) w) eqn:Hd.
    - eapply isDuplicateFile_mono; [apply handleFileSelection_fields_items|exact Hd].
    - apply isDuplicateFile_queued.
      rewrite handleFileSelection_fields_items. apply in_or_app. right.
      apply in_map. apply filter_In. split; [exact Hx|].
      now rewrite Hv, Hd. }
  unfold handleFileSelection at 1. now rewrite Hnone.
Qed.

End Properties.

(** * Examples *)

#[local] Existing Instance decimal_host.

(** ** A processing request that fails *)

Lemma two_ready_items : items two_ready = [photo_item; logo_item].
Proof. vm_compute. reflexivity. Qed.

(** Processing is requested for the photo and the logo; a status response
    reports the photo at 40 %, with a location for the result; the request
    fails.  Both items are "processing" in between and "uploaded" in the
    end, and the photo keeps what the status response brought. *)
Lemma requestProcessing_failure_restores_witness :
  let ids := [VStr "abc123"; VStr "def456"] in
  let requested := requestProcessing_start (Some ids) 2 two_ready in
  let w2 := run requested.2 [poll_reports_progress] in
  let w3 :=
    requestProcessing_resume requested.1 (NetworkError (VStr "Failed to fetch"))
      w2 in
  items requested.2 !! 0 = Some (mark_processing photo_item)
  /\ items requested.2 !! 1 = Some (mark_processing logo_item)
  /\ (exists photo3,
        items w3 !! 0 = Some photo3
        /\ status photo3 = "uploaded" /\ message photo3 = VStr ""
        /\ progress photo3 = Fin 40
        /\ processedUrl photo3 = VStr "/files/abc123/processed")
  /\ (exists logo3,
        items w3 !! 1 = Some logo3
        /\ status logo3 = "uploaded" /\ message logo3 = VStr "").
Proof.
  intros ids requested w2 w3.
  assert (ids <> []) as Hids by discriminate.
  assert (Forall (fun id => is_primitive id = true) ids) as Hprim
    by (repeat constructor).
  assert (forall payload, NetworkError (VStr "Failed to fetch") <> HttpOk payload)
    as Hfail by discriminate.
  assert (targeted ids (items two_ready) 0) as Hphoto.
  { exists (VStr "abc123"). split; [apply list_elem_of_here|].
    rewrite two_ready_items. split.
    - exists photo_item. split; [reflexivity|]. vm_compute. reflexivity.
    - intros j other Hj. lia. }
  assert (targeted ids (items two_ready) 1) as Hlogo.
  { exists (VStr "def456"). split; [apply list_elem_of_further, list_elem_of_here|].
    rewrite two_ready_items. split.
    - exists logo_item. split; reflexivity.
    - intros [|j] other Hj; [|lia]. intros [= <-]. vm_compute. reflexivity. }
  destruct (requestProcessing_failure_restores ids 2 two_ready
              [poll_reports_progress] (NetworkError (VStr "Failed to fetch"))
              Hids Hprim Hfail 0 photo_item)
    as (photo2 & Hphoto2 & Htargeted & _);
    [rewrite two_ready_items; reflexivity|].
  destruct (Htargeted Hphoto)
    as (Hmarked & photo3 & Hphoto3 & _ & Hst & Hmsg & Hp & _ & Hu & _).
  destruct (requestProcessing_failure_restores ids 2 two_ready
              [poll_reports_progress] (NetworkError (VStr "Failed to fetch"))
              Hids Hprim Hfail 1 logo_item)
    as (logo2 & Hlogo2 & Htargeted' & _);
    [rewrite two_ready_items; reflexivity|].
  destruct (Htargeted' Hlogo) as (Hmarked' & logo3 & Hlogo3 & _ & Hst' & Hmsg' & _).
  split; [exact Hmarked|]. split; [exact Hmarked'|]. split.
  - exists photo3. split; [exact Hphoto3|].
    split; [rewrite Hst; vm_compute; reflexivity|].
    split; [rewrite Hmsg; vm_compute; reflexivity|].
    assert ((fun item => (progress item, processedUrl item))
              <$> items (run (requestProcessing_start (Some ids) 2 two_ready).2
                             [poll_reports_progress]) !! 0
            = Some (Fin 40, VStr "/files/abc123/processed")) as Hw2
      by (vm_compute; reflexivity).
    rewrite Hphoto2 in Hw2. injection Hw2 as Hp2 Hu2.
    rewrite Hp, Hu, Hp2, Hu2. split; reflexivity.
  - exists logo3. split; [exact Hlogo3|].
    split; [rewrite Hst'|rewrite Hmsg']; reflexivity.
Defined.

(** ** Progress out of range *)

(** The server answers the upload with a progress of 150: the item keeps
    150.  A status record with a progress of -5 leaves -500. *)
Lemma progress_not_clamped :
  let w := photo_uploaded (object [("id", VStr "abc123");
                                   ("progress", VNum (Fin 150))]) in
  let w' := step photo_ready
              (PollSettled (HttpOk (object [("id", VStr "abc123");
                                            ("progress", VNum (Fin (-5)))]))) in
  progress <$> items w !! 0 = Some (Fin 150)
  /\ progress <$> items w' !! 0 = Some (Fin (-500))
  /\ ~ progress_ok w /\ ~ progress_ok w'.
Proof.
  intros w w'.
  assert (progress <$> items w !! 0 = Some (Fin 150)) as Hw
    by (vm_compute; reflexivity).
  assert (progress <$> items w' !! 0 = Some (Fin (-500))) as Hw'
    by (vm_compute; reflexivity).
  split; [exact Hw|]. split; [exact Hw'|].
  split; intros Hok.
  - pose proof (progress_ok_lookup _ _ _ Hok Hw) as Hp. discriminate Hp.
  - pose proof (progress_ok_lookup _ _ _ Hok Hw') as Hp. discriminate Hp.
Qed.

Lemma progress_stays_in_range_witness :
  progress_ok
    (run initial
         [photo_queued;
          UploadSettled 0 1
            (HttpOk (object [("id", VStr "abc123");
                             ("progress", VNum (double (42 # 100)))]));
          ProcessingRequested (Some [VStr "abc123"]) 2;
          PollSettled
            (HttpOk (object [("id", VStr "abc123");
                             ("percentage", VNum (Fin 75))]))]).
Proof.
  apply progress_stays_in_range.
  - constructor.
  - repeat constructor; vm_compute; reflexivity.
Defined.

(** ** The batch archive location is reset by a new file *)

(** A processing response gave the location of the archive; the next file
    that is queued resets it. *)
Lemma queueFile_clears_batchDownloadUrl :
  let requested := requestProcessing_start (Some [VStr "abc123"]) 2 photo_ready in
  let w :=
    requestProcessing_resume requested.1
      (HttpOk (object [("zipUrl", VStr "/api/downloads/batch-1.zip")]))
      requested.2 in
  let second :=
    {| File_name := "logo.png"; File_size := 512;
       File_lastModified := 1700000000500; File_type := "image/png" |} in
  batchDownloadUrl w = VStr "/api/downloads/batch-1.zip"
  /\ batchDownloadUrl (step w (FileQueued second "client-2" None 2000)) = VNull.
Proof. split; vm_compute; reflexivity. Qed.

(** ** The upload response *)



(** ** The failed upload keeps the file *)

(** C3: the server refuses the upload of "photo.jpg": the item is failed, at
    0 %, with the text of the response as message (with "Upload failed" when
    the request itself fails without a message), and it still holds the
    file, which an upload that succeeds releases. *)
Theorem upload_failure_keeps_file :
  let refused :=
    run initial [photo_queued;
                 UploadSettled 0 1 (HttpError "Unsupported file type")] in
  let unreachable :=
    run initial [photo_queued; UploadSettled 0 1 (NetworkError VUndef)] in
  let accepted := photo_uploaded (object [("id", VStr "abc123")]) in
  (fun item => (status item, progress item, message item, file item))
    <$> items refused !! 0
  = Some ("failed", Fin 0, VStr "Unsupported file type", Some photo)
  /\ (fun item => (status item, progress item, message item, file item))
       <$> items unreachable !! 0
     = Some ("failed", Fin 0, VStr "Upload failed", Some photo)
  /\ file <$> items accepted !! 0 = Some None.
Proof. repeat split; vm_compute; reflexivity. Qed.

(** ** A status record with errors *)

(** Errors that have no text: the photo is failed, but its message is not
    replaced.  A status that has no text: the record is not applied, and its
    errors neither make the photo failed nor replace its message.  Either
    way the pass ends in its [catch]. *)
Lemma errors_without_text_keep_message :
  (fun item => (status item, message item))
    <$> items (pollStatuses_resume (HttpOk errors_without_text) photo_noted) !! 0
  = Some ("failed", VStr "Almost done")
  /\ (fun item => (status item, message item))
       <$> items (pollStatuses_resume (HttpOk status_without_text) photo_noted) !! 0
     = Some ("uploaded", VStr "Almost done")
  /\ pollErrorNotified (pollStatuses_resume (HttpOk errors_without_text) photo_noted)
     = true
  /\ pollErrorNotified (pollStatuses_resume (HttpOk status_without_text) photo_noted)
     = true.
Proof. repeat split; vm_compute; reflexivity. Qed.

Lemma update_errors_force_failed_witness :
  let record :=
    object [("id", VStr "abc123"); ("status", VStr "processing");
            ("progress", VNum (double (9 # 10)));
            ("errors", VArr [VStr "disk full"; VStr "retry later"])] in
  let note := object [("id", VStr "abc123"); ("message", VStr "Almost done")] in
  status (updateItemFromServer photo_item record).1.1 = "failed"
  /\ message (updateItemFromServer photo_item record).1.1
     = VStr "disk full retry later"
  /\ message (updateItemFromServer photo_item note).1.1 = VStr "Almost done"
  /\ status (updateItemFromServer photo_item note).1.1 = "uploaded"
  /\ status (updateItemFromServer photo_item errors_without_text).1.1 = "failed"
  /\ message (updateItemFromServer photo_item errors_without_text).1.1
     = message photo_item
  /\ (updateItemFromServer photo_item status_without_text).1.1 = photo_item.
Proof.
  intros record note.
  pose proof (update_errors_force_failed photo_item record eq_refl) as Hrecord.
  pose proof (update_errors_force_failed photo_item note eq_refl) as Hnote.
  pose proof (update_errors_force_failed photo_item errors_without_text eq_refl)
    as Herrors.
  pose proof (update_errors_force_failed photo_item status_without_text eq_refl)
    as Hstatus.
  cbv zeta in Hrecord, Hnote, Herrors, Hstatus.
  assert (normaliseStatus (status_field record) = Returns (Some "processing"))
    as Hs1 by (vm_compute; reflexivity).
  assert (normaliseStatus (status_field note) = Returns None)
    as Hs2 by (vm_compute; reflexivity).
  assert (normaliseStatus (status_field errors_without_text) = Returns None)
    as Hs3 by (vm_compute; reflexivity).
  assert (normaliseStatus (status_field status_without_text)
          = Throws "value.toString is not a function")
    as Hs4 by (vm_compute; reflexivity).
  rewrite Hs1 in Hrecord. rewrite Hs2 in Hnote. rewrite Hs3 in Herrors.
  rewrite Hs4 in Hstatus.
  destruct Hrecord as (Hrecord & _). destruct Hnote as (_ & _ & Hnote).
  destruct Herrors as (Herrors & _).
  assert (get record "errors" = VArr [VStr "disk full"; VStr "retry later"])
    as Hlist by (vm_compute; reflexivity).
  assert (get note "errors" = VUndef) as Hnone by (vm_compute; reflexivity).
  assert (get errors_without_text "errors" = VArr [textless]) as Hbad
    by (vm_compute; reflexivity).
  destruct (Hrecord _ _ Hlist) as [Hst Hmsg].
  destruct Hnote as (Hmsg' & Hst' & _); try (vm_compute; reflexivity).
  { intros e es. rewrite Hnone. discriminate. }
  destruct (Herrors _ _ Hbad) as [Hst'' Hmsg''].
  split; [exact Hst|]. split; [rewrite Hmsg; vm_compute; reflexivity|].
  split; [rewrite Hmsg'; vm_compute; reflexivity|].
  split; [rewrite Hst'; vm_compute; reflexivity|].
  split; [exact Hst''|]. split; [rewrite Hmsg''; vm_compute; reflexivity|].
  exact Hstatus.
Defined.

(** ** A pass with nothing to poll *)

Lemma pollStatuses_stops_when_idle_witness :
  pollTimer failed_with_timer = Some 2%positive
  /\ intervals failed_with_timer = [2%positive]
  /\ pollStatuses_start failed_with_timer = stopPolling failed_with_timer
  /\ fetches (pollStatuses_start failed_with_timer) = fetches failed_with_timer
  /\ pollTimer (pollStatuses_start failed_with_timer) = None
  /\ ~ In 2%positive (intervals (pollStatuses_start failed_with_timer))
  /\ pollErrorNotified (pollStatuses_start failed_with_timer) = false.
Proof.
  assert (pollTimer failed_with_timer = Some 2%positive) as Htimer
    by (vm_compute; reflexivity).
  destruct (pollStatuses_stops_when_idle failed_with_timer)
    as (Hstop & Hfetch & Hnone & Hclear & Hflag & _).
  { vm_compute. repeat constructor. }
  split; [exact Htimer|]. split; [vm_compute; reflexivity|].
  split; [exact Hstop|]. split; [exact Hfetch|]. split; [exact Hnone|].
  split; [exact (Hclear _ Htimer)|exact Hflag].
Defined.

(** ** Normalised progress values *)

(** 0.29 and 0.57 are whole percentages of which the product by 100 is not
    exact (28.999999999999996 and 56.99999999999999); 0.285 is below the
    decimal it is written as, and so is its product. *)
Lemma normaliseProgress_cases_witness :
  normaliseProgress (VNum (double (29 # 100))) = Fin 29
  /\ normaliseProgress (VNum (double (57 # 100))) = Fin 57
  /\ normaliseProgress (VNum (double (285 # 1000))) = Fin 28
  /\ normaliseProgress (VNum (Fin (-5))) = Fin (-500)
  /\ normaliseProgress (VNum (Fin 150)) = Fin 150
  /\ normaliseProgress VNull = Fin 0.
Proof.
  destruct normaliseProgress_cases
    as (Hother & _ & Hpercent & Hfraction & _ & _ & _ & Hwhole & _).
  split; [exact (Hwhole 29%nat ltac:(lia))|].
  split; [exact (Hwhole 57%nat ltac:(lia))|].
  split; [vm_compute; reflexivity|].
  split; [vm_compute; reflexivity|].
  split; [vm_compute; reflexivity|].
  apply Hother. reflexivity.
Defined.

(** * Further examples *)

(** ** Statuses *)

Lemma normaliseStatus_idempotent_witness :
  normaliseStatus (VStr "Completed") = Returns (Some "processed")
  /\ normaliseStatus (VStr "processed") = Returns (Some "processed").
Proof.
  assert (normaliseStatus (VStr "Completed") = Returns (Some "processed")) as Hdone
    by (vm_compute; reflexivity).
  split; [exact Hdone|].
  exact (normaliseStatus_idempotent (VStr "Completed") "processed" Hdone).
Defined.

Lemma normaliseStatus_never_alias_witness :
  ~ In "processed" status_aliases /\ toLowerCase "processed" = "processed".
Proof.
  apply (normaliseStatus_never_alias (VStr "DONE") "processed").
  vm_compute. reflexivity.
Defined.

(** ** The polling loop *)

Lemma requestProcessing_start_polls_witness :
  is_Some (pollTimer (requestProcessing_start (Some [VStr "abc123"]) 2
                                              photo_ready).2)
  /\ exists item,
       items (requestProcessing_start (Some [VStr "abc123"]) 2 photo_ready).2 !! 0
       = Some item
       /\ status item = "processing" /\ message item = VStr ""
       /\ shouldPoll item = true.
Proof.
  destruct (requestProcessing_start_polls [VStr "abc123"] 2 photo_ready)
    as [Htimer Hitems].
  - repeat constructor.
  - vm_compute. discriminate.
  - split; [exact Htimer|].
    apply (Hitems 0 "uploaded" (VStr "")). vm_compute. apply list_elem_of_here.
Defined.

Lemma top_level_zipUrl_wins_witness :
  let payload :=
    object [("zipUrl", VStr "/api/downloads/all.zip");
            ("items", VArr [object [("id", VStr "abc123");
                                    ("zipUrl", VStr "/api/downloads/one.zip")]])] in
  let broken :=
    object [("zipUrl", VStr "/api/downloads/all.zip");
            ("items", VArr [status_without_text])] in
  batchDownloadUrl (pollStatuses_resume (HttpOk payload) photo_ready)
  = VStr "/api/downloads/all.zip"
  /\ batchDownloadUrl (pollStatuses_resume (HttpOk broken) photo_ready) = VNull.
Proof.
  intros payload broken. split.
  - destruct (top_level_zipUrl_wins payload [] photo_ready) as [Hpoll _].
    + vm_compute. reflexivity.
    + rewrite Hpoll; [vm_compute; reflexivity|].
      repeat constructor.
  - destruct (top_level_zipUrl_wins broken [] photo_ready) as (_ & Hpoll & _).
    + vm_compute. reflexivity.
    + rewrite Hpoll. vm_compute. reflexivity.
Defined.

(** The photo is processed, and nothing is left to poll: the loop is
    stopped.  A record of which the status has no text stops the pass
    before: the timer is left running and the failure is noted. *)
Lemma pollStatuses_resume_timer_witness :
  let w := (requestProcessing_start (Some [VStr "abc123"]) 2 photo_ready).2 in
  pollTimer w = Some 1%positive
  /\ pollTimer (pollStatuses_resume (HttpOk (VArr [photo_done])) w) = None
  /\ pollErrorNotified (pollStatuses_resume (HttpOk (VArr [photo_done])) w) = false
  /\ pollTimer (pollStatuses_resume (HttpOk (VArr [status_without_text])) w)
     = Some 1%positive
  /\ pollErrorNotified (pollStatuses_resume (HttpOk (VArr [status_without_text])) w)
     = true.
Proof.
  intros w.
  assert (pollTimer w = Some 1%positive) as Htimer by (vm_compute; reflexivity).
  destruct (pollStatuses_resume_timer (VArr [photo_done]) w) as [_ Hdone].
  destruct (pollStatuses_resume_timer (VArr [status_without_text]) w) as [_ Hbad].
  assert (poll_error (VArr [photo_done]) w = None) as Hnone
    by (vm_compute; reflexivity).
  assert (poll_error (VArr [status_without_text]) w
          = Some "value.toString is not a function") as Hsome
    by (vm_compute; reflexivity).
  assert (existsb shouldPoll
            (items (pollStatuses_resume (HttpOk (VArr [photo_done])) w)) = false)
    as Hidle by (vm_compute; reflexivity).
  rewrite Hnone, Hidle in Hdone. rewrite Hsome, Htimer in Hbad.
  destruct Hdone as [Ht Hn]. destruct Hbad as (Ht' & _ & Hn').
  split; [exact Htimer|]. split; [exact Ht|]. split; [exact Hn|].
  split; [exact Ht'|exact Hn'].
Defined.

Lemma unknown_records_change_no_item_witness :
  items (pollStatuses_resume (HttpOk unknown_records) photo_ready)
  = items photo_ready.
Proof.
  apply unknown_records_change_no_item.
  constructor; [right; vm_compute; reflexivity|].
  constructor; [left; vm_compute; reflexivity|].
  constructor.
Defined.

Lemma wrapped_response_as_array_witness :
  pollStatuses_resume (HttpOk (VObj wrapped_in_data)) photo_ready
  = pollStatuses_resume (HttpOk (VArr [photo_done])) photo_ready.
Proof.
  apply wrapped_response_as_array.
  - right. left. split; vm_compute; reflexivity.
  - vm_compute. reflexivity.
Defined.

Lemma photo_ready_items : items photo_ready = [photo_item].
Proof. vm_compute. reflexivity. Qed.

Lemma poll_keeps_identity_witness :
  exists b,
    items (pollStatuses_resume (HttpOk (VArr [photo_done])) photo_ready) !! 0
    = Some b
    /\ same_identity photo_item b.
Proof.
  apply poll_keeps_identity. rewrite photo_ready_items. reflexivity.
Defined.

Lemma poll_keeps_urls_witness :
  exists b,
    items (pollStatuses_resume (HttpOk unknown_records)
             (pollStatuses_resume (HttpOk (VArr [photo_done])) photo_ready)) !! 0
    = Some b
    /\ urls_kept (merged photo_item photo_done) b.
Proof.
  apply poll_keeps_urls. vm_compute. reflexivity.
Defined.

Lemma processed_items_are_complete_witness :
  processed_complete (run initial processed_after_retry).
Proof.
  apply processed_items_are_complete.
  repeat constructor. cbn. discriminate.
Defined.

(** ** The "process all" button *)

Lemma photo_ready_ids_identify : ids_identify photo_ready.
Proof.
  intros ref a. rewrite photo_ready_items. destruct ref as [|ref].
  - change ([photo_item] !! 0) with (Some photo_item).
    intros Ha _. injection Ha as <-. vm_compute. reflexivity.
  - change ([photo_item] !! S ref) with (@None Item). discriminate.
Qed.


Lemma processAll_twice_witness :
  processAll_click 3 (processAll_click 2 photo_ready).2
  = ([], (processAll_click 2 photo_ready).2).
Proof.
  exact (processAll_twice 2 3 photo_ready photo_ready_ids_identify).
Defined.

(** ** The name of a processed file *)

Lemma buildProcessedFilename_spec_witness :
  buildProcessedFilename "holiday.photo.jpg" = "holiday.photo-processed.jpg"
  /\ buildProcessedFilename ".png" = "-processed.png"
  /\ buildProcessedFilename "README" = "README-processed".
Proof.
  destruct buildProcessedFilename_spec as [Hext Hnone].
  split; [exact (Hext "holiday.photo" "jpg" eq_refl)|].
  split; [exact (Hext "" "png" eq_refl)|].
  apply Hnone; [reflexivity|discriminate].
Defined.

(** ** Items keep their identity *)

Lemma items_keep_their_identity_witness :
  exists b,
    items (run photo_ready
             [ProcessingRequested (Some [VStr "abc123"]) 2;
              poll_reports_progress;
              ProcessingSettled [(0, "uploaded", VStr "")] (HttpError "busy");
              PollSettled (HttpOk (VArr [photo_done]))]) !! 0
    = Some b
    /\ still_that_item photo_item b.
Proof.
  apply items_keep_their_identity.
  rewrite photo_ready_items. reflexivity.
Defined.

Lemma failed_request_can_be_retried_witness :
  exists item3,
    items (requestProcessing_resume
             (requestProcessing_start (Some [VStr "abc123"]) 2 photo_ready).1
             (NetworkError (VStr "Failed to fetch"))
             (run (requestProcessing_start (Some [VStr "abc123"]) 2 photo_ready).2
                  [poll_reports_progress])) !! 0
    = Some item3
    /\ canRequestProcessing item3 = true.
Proof.
  apply (failed_request_can_be_retried (Some [VStr "abc123"]) 2 photo_ready
           [poll_reports_progress] (NetworkError (VStr "Failed to fetch"))
           0 "uploaded" (VStr "") photo_item).
  - discriminate.
  - vm_compute. apply list_elem_of_here.
  - rewrite photo_ready_items. reflexivity.
  - vm_compute. reflexivity.
Defined.

(** ** The "process" button of an item *)


(** ** The same selection again *)

Lemma handleFileSelection_again_witness :
  handleFileSelection sample_selection
    (handleFileSelection sample_selection initial)
  = handleFileSelection sample_selection initial.
Proof.
  apply handleFileSelection_again.
  intros y Hy. exists y. now split.
Defined.

(** ** An item is uploaded once *)

(** After the response [{id: "abc123", status: "uploaded", progress: 100}]
    the photo has no file and [uploadFile] leaves the state as it is.  After
    a response of which the status has no text the photo has its file, and
    [uploadFile] issues the request again. *)
Lemma uploadFile_once_witness :
  uploadFile_start 0 (uploadFile_resume 0 1 (HttpOk photo_answer)
                        (run initial [photo_queued]))
  = uploadFile_resume 0 1 (HttpOk photo_answer) (run initial [photo_queued])
  /\ fetches (uploadFile_start 0
                (uploadFile_resume 0 1 (HttpOk answer_without_text)
                   (run initial [photo_queued])))
     = ReqUpload 0
         :: fetches (uploadFile_resume 0 1 (HttpOk answer_without_text)
                       (run initial [photo_queued])).
Proof.
  assert (items (run initial [photo_queued]) !! 0 = Some photo_uploading) as Hl
    by (vm_compute; reflexivity).
  pose proof (uploadFile_once 0 1 photo_answer _ _ Hl) as Hok.
  pose proof (uploadFile_once 0 1 answer_without_text _ _ Hl) as Hbad.
  cbv zeta in Hok, Hbad.
  assert (normaliseStatus (get photo_answer "status" <||> get photo_answer "state")
          = Returns (Some "uploaded")) as Hs by (vm_compute; reflexivity).
  assert (normaliseStatus (get answer_without_text "status"
                           <||> get answer_without_text "state")
          = Throws "value.toString is not a function") as Hs'
    by (vm_compute; reflexivity).
  rewrite Hs in Hok. rewrite Hs' in Hbad.
  split; [exact Hok|]. apply Hbad. now exists photo.
Defined.

(** ** The queue after a selection *)

(** Of the photo, the photo again, a file that is too large and a text
    file, the selection queues the photo twice, and uploads both. *)
Lemma handleFileSelection_queues_witness :
  clientId <$> items (handleFileSelection sample_selection initial)
  = ["client-1"; "client-2"]
  /\ status <$> items (handleFileSelection sample_selection initial)
     = ["uploading"; "uploading"]
  /\ file <$> items (handleFileSelection sample_selection initial)
     = [Some photo; Some photo]
  /\ fetches (handleFileSelection sample_selection initial)
     = [ReqUpload 1; ReqUpload 0].
Proof.
  destruct (handleFileSelection_queues sample_selection initial)
    as (_ & Hitems & Hfetches & _).
  rewrite Hitems, Hfetches. repeat split; vm_compute; reflexivity.
Defined.
